(** * pptx-organizer: taxonomy extraction, deck segmentation, matching and
    reordering

    A shallow embedding of [main.py] (and of the places where [app.py]
    differs) together with the properties of its specification and further
    properties of the code.

    Conventions of the embedding.
    - A Python [str] is a [string]; one [ascii] stands for one character, so
      the character classes below are Python's restricted to the code points
      0..255.
    - A Python [int] is a [Z]; list positions and lengths are [nat].
    - The interpreter's limit on the number of digits accepted by [int()] is
      not modelled. *)

From Stdlib Require Import Ascii.
From stdpp Require Import gmap strings list sorting pretty.

Set Warnings "-register-all,-clear-no-such-hyp".

(** ** Python string primitives *)

Definition nonempty (s : string) : bool :=
  match s with EmptyString => false | String _ _ => true end.

(** [str.isspace] on a single character (code points below 256). *)
Definition py_isspace (c : ascii) : bool :=
  let n := N_of_ascii c in
  ((9 <=? n) && (n <=? 13) || (28 <=? n) && (n <=? 32)
   || (n =? 133) || (n =? 160))%N.

(** The class [\d] of the [re] module (code points below 256). *)
Definition re_digit (c : ascii) : bool :=
  let n := N_of_ascii c in ((48 <=? n) && (n <=? 57))%N.

Definition newline : ascii := ascii_of_N 10.

Fixpoint lstrip_by (space : ascii → bool) (s : string) : string :=
  match s with
  | EmptyString => EmptyString
  | String c r => if space c then lstrip_by space r else s
  end.

Fixpoint rstrip_by (space : ascii → bool) (s : string) : string :=
  match s with
  | EmptyString => EmptyString
  | String c r =>
      let r' := rstrip_by space r in
      if negb (nonempty r') && space c then EmptyString else String c r'
  end.

(** [s.strip()] *)
Definition strip (s : string) : string :=
  rstrip_by py_isspace (lstrip_by py_isspace s).

(** [s.split('\n')[0]] *)
Fixpoint first_line (s : string) : string :=
  match s with
  | EmptyString => EmptyString
  | String c r =>
      if Ascii.eqb c newline then EmptyString else String c (first_line r)
  end.

(** [s[:n]] *)
Fixpoint str_take (n : nat) (s : string) : string :=
  match n, s with
  | S k, String c r => String c (str_take k r)
  | _, _ => EmptyString
  end.

(** The text matched by [\d+] at the start of [s] (empty: no match). *)
Fixpoint leading_digits (s : string) : string :=
  match s with
  | String c r => if re_digit c then String c (leading_digits r) else EmptyString
  | EmptyString => EmptyString
  end.

Fixpoint drop_digits (s : string) : string :=
  match s with
  | String c r => if re_digit c then drop_digits r else s
  | EmptyString => EmptyString
  end.

(** [re.match(r'^(\d+)', s)]: the group, when there is a match. *)
Definition re_match_digits (s : string) : option string :=
  let d := leading_digits s in if nonempty d then Some d else None.

(** [re.match(r'^\d+$', s)]: [$] also matches just before a final newline. *)
Definition re_match_only_digits (s : string) : bool :=
  nonempty (leading_digits s)
  && (let rest := drop_digits s in
      negb (nonempty rest) || String.eqb rest (String newline EmptyString)).

Definition digit_val (c : ascii) : Z := (Z.of_N (N_of_ascii c) - 48)%Z.

Fixpoint int_digits_from (acc : Z) (s : string) : Z :=
  match s with
  | EmptyString => acc
  | String c r => int_digits_from (10 * acc + digit_val c)%Z r
  end.

(** [int(s)] for a string of decimal digits. *)
Definition int_digits (s : string) : Z := int_digits_from 0 s.

(** Digit groups separated by single underscores, as [int()] accepts them. *)
Fixpoint int_body (acc : Z) (after_digit : bool) (s : string) : option Z :=
  match s with
  | EmptyString => if after_digit then Some acc else None
  | String c r =>
      if re_digit c then int_body (10 * acc + digit_val c)%Z true r
      else if Ascii.eqb c "_" && after_digit then int_body acc false r
      else None
  end.

(** The whitespace [int()] skips around the number: [str.isspace] without
    the separators 28 to 31. *)
Definition int_isspace (c : ascii) : bool :=
  let n := N_of_ascii c in
  ((9 <=? n) && (n <=? 13) || (n =? 32) || (n =? 133) || (n =? 160))%N.

(** [int(s)] for an arbitrary string; [None] is [ValueError]. *)
Definition py_int (s : string) : option Z :=
  match rstrip_by int_isspace (lstrip_by int_isspace s) with
  | String "-" r => Z.opp <$> int_body 0 false r
  | String "+" r => int_body 0 false r
  | t => int_body 0 false t
  end.

(** [list.sort(key=...)] on integer keys: a stable sort. *)
Section Sort.
Context {A : Type} (key : A → Z).

Fixpoint insert_by (x : A) (l : list A) : list A :=
  match l with
  | [] => [x]
  | y :: r => if (key x <=? key y)%Z then x :: l else y :: insert_by x r
  end.

Fixpoint sort_by (l : list A) : list A :=
  match l with
  | [] => []
  | x :: r => insert_by x (sort_by r)
  end.

End Sort.

(** ** Taxonomy extraction from tables ([extract_categories_from_pdf]) *)

Record Category := mkCategory {
  No : Z;
  MainCategory : string;
  SubItems : list string
}.

#[global] Instance Category_eq_dec : EqDecision Category.
Proof. solve_decision. Defined.

(** What [pdfplumber] hands over: a cell is a string or [None]. *)
Definition Row := list (option string).
Definition Table := list Row.
Definition Page := list Table.
Definition Document := list Page.

(** [str(cell).strip() if cell else ""] *)
Definition cell_text (cell : option string) : string :=
  match cell with
  | Some s => if nonempty s then strip s else EmptyString
  | None => EmptyString
  end.

Definition row_cell (row : Row) (i : nat) : option string := mjoin (row !! i).

(** The two local variables of the scan. *)
Record scan_state := mkScan {
  categories : list Category;
  current_category : option Category
}.

Definition scan_start : scan_state := mkScan [] None.

(** Lines 115-132: a row whose first cell starts with digits and whose
    second cell is not empty opens a category. *)
Definition main_item_row (st : scan_state) (row : Row) : scan_state :=
  let col0 := cell_text (row_cell row 0) in
  let col1 := cell_text (row_cell row 1) in
  if nonempty col0 then
    match re_match_digits col0 with
    | Some digits =>
        if nonempty col1 then
          mkScan
            (match current_category st with
             | Some cur => categories st ++ [cur]
             | None => categories st
             end)
            (Some (mkCategory (int_digits digits) (strip (first_line col1)) []))
        else st
    | None => st
    end
  else st.

(** Lines 135-144: with at least four cells and a category in progress, a
    bare integer in the third cell and text in the fourth add a sub-item. *)
Definition sub_item_row (st : scan_state) (row : Row) : scan_state :=
  match current_category st with
  | Some cur =>
      if bool_decide (4 ≤ length row) then
        let col2 := cell_text (row_cell row 2) in
        let col3 := cell_text (row_cell row 3) in
        if nonempty col2 && re_match_only_digits col2 && nonempty col3 then
          let sub_item := str_take 100 (strip (first_line col3)) in
          if nonempty sub_item && negb (bool_decide (sub_item ∈ SubItems cur))
          then mkScan (categories st)
                 (Some (mkCategory (No cur) (MainCategory cur)
                          (SubItems cur ++ [sub_item])))
          else st
        else st
      else st
  | None => st
  end.

Definition scan_row (st : scan_state) (row : Row) : scan_state :=
  if bool_decide (length row < 2) then st
  else sub_item_row (main_item_row st row) row.

Definition scan_table (st : scan_state) (table : Table) : scan_state :=
  if bool_decide (length table < 2) then st
  else fold_left scan_row table st.

(** Lines 147-149, run once per page after all its tables. *)
Definition end_of_page (st : scan_state) : scan_state :=
  match current_category st with
  | Some cur =>
      if bool_decide (cur ∈ categories st) then st
      else mkScan (categories st ++ [cur]) None
  | None => st
  end.

Definition scan_page (st : scan_state) (page : Page) : scan_state :=
  end_of_page (fold_left scan_table page st).

(** Lines 156-161: keep the first category of every [No]. *)
Fixpoint unique_by_no (seen_nos : gset Z) (cats : list Category) : list Category :=
  match cats with
  | [] => []
  | cat :: rest =>
      if bool_decide (No cat ∈ seen_nos) then unique_by_no seen_nos rest
      else cat :: unique_by_no ({[No cat]} ∪ seen_nos) rest
  end.

Definition extract_categories_from_pdf (pdf : Document) : list Category :=
  let st := fold_left scan_page pdf scan_start in
  sort_by No (unique_by_no ∅ (categories st)).

(** ** Taxonomy extraction by the oracle ([extract_categories_with_ai])

    The oracle's answer as [json.loads] and the sort key see it when it has
    the shape the prompt asks for, a list of objects with an integer [No]
    and a string [Category]; [None] when decoding or sorting raises, in
    which case the function returns the empty list.  A category of this
    path has no [MainCategory] and no [SubItems]; its readers fall back to
    [Category] and to the empty list, which is how it is recorded here. *)
Definition extract_categories_with_ai (answer : option (list (Z * string)))
  : list Category :=
  match answer with
  | Some items => sort_by No ((λ it : Z * string, mkCategory it.1 it.2 []) <$> items)
  | None => []
  end.

(** ** Oracle responses

    What [json.loads] returns for the oracle's text.  A JSON number without
    fraction or exponent is an [int]; any other number, and the literals
    [NaN], [Infinity] and [-Infinity] that [json.loads] accepts, is a
    [float].  The members of an object come in the order the resulting
    [dict] iterates them.  A response is an [option json]: [None] when the
    request or [json.loads] raises. *)

(** A [float]: not a number, an infinity, or the finite value [m * 2^e]
    (every finite double is one; the sign of a zero plays no part in the
    operations below). *)
Inductive Float :=
| FNan
| FInf (negative : bool)
| FFinite (m e : Z).

Inductive json :=
| JNull
| JBool (b : bool)
| JInt (n : Z)
| JFloat (x : Float)
| JStr (s : string)
| JArr (items : list json)
| JObj (members : list (string * json)).

(** A loop whose body may raise: [None] is the exception. *)
Fixpoint foldM {S A : Type} (body : S → A → option S) (st : S) (l : list A)
  : option S :=
  match l with
  | [] => Some st
  | x :: rest => st' ← body st x; foldM body st' rest
  end.

(** A Python number: an [int] ([bool] is an [int]) or a [float]. *)
Inductive Number :=
| NInt (n : Z)
| NFloat (x : Float).

#[global] Instance Float_eq_dec : EqDecision Float.
Proof. solve_decision. Defined.

#[global] Instance Number_eq_dec : EqDecision Number.
Proof. solve_decision. Defined.

(** The decoded value as the number Python compares it as; [None] where an
    order comparison with an [int] is a [TypeError]. *)
Definition json_number (v : json) : option Number :=
  match v with
  | JInt n => Some (NInt n)
  | JBool b => Some (NInt (if b then 1 else 0)%Z)
  | JFloat x => Some (NFloat x)
  | _ => None
  end.

(** [x >= 0] and [x < n] for a [float] [x] and an [int] [n]: Python compares
    the exact values, and every comparison with a NaN is false. *)
Definition float_ge_0 (x : Float) : bool :=
  match x with
  | FNan => false
  | FInf negative => negb negative
  | FFinite m e => bool_decide (0 ≤ m)%Z
  end.

Definition float_lt (x : Float) (n : Z) : bool :=
  match x with
  | FNan => false
  | FInf negative => negative
  | FFinite m e =>
      if bool_decide (0 ≤ e)%Z then bool_decide (m * 2 ^ e < n)%Z
      else bool_decide (m < n * 2 ^ (- e))%Z
  end.

Definition number_ge_0 (v : Number) : bool :=
  match v with
  | NInt n => bool_decide (0 ≤ n)%Z
  | NFloat x => float_ge_0 x
  end.

Definition number_lt (v : Number) (n : Z) : bool :=
  match v with
  | NInt i => bool_decide (i < n)%Z
  | NFloat x => float_lt x n
  end.

(** [int(x)] for a [float]: the value truncated toward zero; [None] is the
    [ValueError] of a NaN or the [OverflowError] of an infinity. *)
Definition float_int (x : Float) : option Z :=
  match x with
  | FNan => None
  | FInf _ => None
  | FFinite m e =>
      Some (if bool_decide (0 ≤ e)%Z then m * 2 ^ e else m ÷ 2 ^ (- e))%Z
  end.

(** ** The deck *)

Record Paragraph := mkParagraph {
  p_text : string;
  p_level : nat;
  p_bold : option bool;
  p_size : option Z
}.

(** A text frame always holds at least one paragraph. *)
Record TextFrame := mkTextFrame {
  first_paragraph : Paragraph;
  more_paragraphs : list Paragraph
}.

Definition tf_paragraphs (tf : TextFrame) : list Paragraph :=
  first_paragraph tf :: more_paragraphs tf.

Definition lf : string := String newline EmptyString.

(** [sep.join(parts)] *)
Fixpoint join (sep : string) (parts : list string) : string :=
  match parts with
  | [] => EmptyString
  | [x] => x
  | x :: rest => x +:+ sep +:+ join sep rest
  end.

(** [text_frame.text] *)
Definition tf_text (tf : TextFrame) : string :=
  join lf (p_text <$> tf_paragraphs tf).

Definition plain_paragraph (s : string) : Paragraph := mkParagraph s 0 None None.

(** [s.split('\n')] *)
Fixpoint split_lines (s : string) : list string :=
  match s with
  | EmptyString => [EmptyString]
  | String c r =>
      if Ascii.eqb c newline then EmptyString :: split_lines r
      else match split_lines r with
           | l :: ls => String c l :: ls
           | [] => [String c EmptyString]
           end
  end.

(** [shape.text = s]: one paragraph per line of [s]. *)
Definition tf_of_text (s : string) : TextFrame :=
  match split_lines s with
  | l :: ls => mkTextFrame (plain_paragraph l) (plain_paragraph <$> ls)
  | [] => mkTextFrame (plain_paragraph EmptyString) []
  end.

(** [text_frame] is [None] when [has_text_frame] is false; [width] and
    [height] are [None] when the shape inherits them. *)
Record Shape := mkShape {
  text_frame : option TextFrame;
  width : option Z;
  height : option Z
}.

Definition has_text_frame (sh : Shape) : bool :=
  match text_frame sh with Some _ => true | None => false end.

(** [title_idx] is the position of the title placeholder among the shapes:
    [slide.shapes.title] is that shape, or [None]. *)
Record Slide := mkSlide {
  shapes : list Shape;
  title_idx : option nat
}.

Definition shapes_title (slide : Slide) : option Shape :=
  i ← title_idx slide; shapes slide !! i.

Definition shape_text (sh : Shape) : string :=
  match text_frame sh with Some tf => tf_text tf | None => EmptyString end.

Definition get_slide_title (slide : Slide) : string :=
  match shapes_title slide with
  | Some sh => strip (shape_text sh)
  | None => EmptyString
  end.

Fixpoint first_text_of (shs : list Shape) : string :=
  match shs with
  | [] => EmptyString
  | sh :: rest =>
      match text_frame sh with
      | Some tf =>
          let text := strip (tf_text tf) in
          if nonempty text then text else first_text_of rest
      | None => first_text_of rest
      end
  end.

Definition get_slide_first_text (slide : Slide) : string :=
  first_text_of (shapes slide).

Definition content_texts (shs : list Shape) : list string :=
  omap (λ sh : Shape,
          tf ← text_frame sh;
          let text := strip (tf_text tf) in
          if nonempty text && bool_decide (2 < String.length text)
          then Some text else None) shs.

Definition get_slide_full_content (slide : Slide) : string :=
  str_take 500 (join lf (content_texts (shapes slide))).

(** ** Segmentation (the grouping loop of [process_pptx]) *)

Record Group := mkGroup {
  title : string;
  slides : list nat;
  first_index : nat;
  content : string
}.

#[global] Instance Group_eq_dec : EqDecision Group.
Proof. solve_decision. Defined.

Definition FIXED_SLIDES : nat := 2.

(** [(idx, prs.slides[idx]) for idx in range(k, len(prs.slides))] *)
Definition slides_from (k : nat) (deck : list Slide) : list (nat * Slide) :=
  zip (seq k (length deck - k)) (drop k deck).

Definition untitled (idx : nat) : string := "[Untitled " +:+ pretty idx +:+ "]".

Definition group_slide (st : list Group * option Group) (it : nat * Slide)
  : list Group * option Group :=
  let '(groups, current_group) := st in
  let '(idx, slide) := it in
  let slide_title := get_slide_title slide in
  let slide_content := get_slide_full_content slide in
  if nonempty slide_title then
    (match current_group with Some g => groups ++ [g] | None => groups end,
     Some (mkGroup slide_title [idx] idx slide_content))
  else
    match current_group with
    | Some g =>
        (groups,
         Some (mkGroup (title g) (slides g ++ [idx]) (first_index g)
                 (str_take 500 (content g +:+ lf +:+ slide_content))))
    | None =>
        let first_text := get_slide_first_text slide in
        (groups,
         Some (mkGroup
                 (if nonempty first_text then str_take 50 first_text
                  else untitled idx)
                 [idx] idx slide_content))
    end.

Definition close_groups (st : list Group * option Group) : list Group :=
  match st.2 with Some g => st.1 ++ [g] | None => st.1 end.

Definition slide_groups (deck : list Slide) : list Group :=
  close_groups (fold_left group_slide (slides_from FIXED_SLIDES deck) ([], None)).

(** The slide positions a scan state has collected so far. *)
Definition grouped (st : list Group * option Group) : list nat :=
  concat (slides <$> close_groups st).

(** ** Matching ([create_matching_with_ai])

    The oracle is any function of what the prompt is built from. *)

Definition Oracle := list Category → list Group → option json.

(** Lines 424-427; [None] when [int(pdf_no)] or [pptx_idx >= 0] raises.
    The value is stored as it was decoded, a [float] included. *)
Definition mapping_entry (mapping : gmap Z Number) (item : string * json)
  : option (gmap Z Number) :=
  pdf_no_int ← py_int item.1;
  pptx_idx ← json_number item.2;
  Some (if number_ge_0 pptx_idx then <[pdf_no_int := pptx_idx]> mapping
        else mapping).

(** Every exception ends in [return {}]. *)
Definition create_matching_with_ai (model : Oracle)
    (pdf_categories : list Category) (pptx_groups : list Group)
  : gmap Z Number :=
  match model pdf_categories pptx_groups with
  | Some (JObj members) => default ∅ (foldM mapping_entry ∅ members)
  | _ => ∅
  end.

(** ** Table of contents ([populate_toc]) and titles *)

(** [enumerate(l)] *)
Definition enumerate {A : Type} (l : list A) : list (nat * A) :=
  zip (seq 0 (length l)) l.

(** The source's literal: two spaces, a middle dot (U+30FB, kept here as its
    UTF-8 bytes) and a space. *)
Definition toc_bullet : string := "  ・ ".

(** Lines 462-469: the position of the chosen shape and its area; [None] is
    the [TypeError] of an area without width or height. *)
Definition toc_candidate (st : option nat * Z) (it : nat * Shape)
  : option (option nat * Z) :=
  let '(target_shape, max_area) := st in
  let '(i, shape) := it in
  match text_frame shape with
  | Some tf =>
      w ← width shape;
      h ← height shape;
      let area := (w * h)%Z in
      let existing_text := strip (tf_text tf) in
      if bool_decide (10 < String.length existing_text)
         && bool_decide (max_area < area)%Z
      then Some (Some i, area)
      else Some st
  | None => Some st
  end.

(** [tf.clear()]: one empty paragraph is left, with the paragraph properties
    of the former first one. *)
Definition tf_clear (tf : TextFrame) : TextFrame :=
  mkTextFrame (mkParagraph EmptyString (p_level (first_paragraph tf)) None None) [].

(** [tf.add_paragraph()], filled in. *)
Definition tf_add (tf : TextFrame) (p : Paragraph) : TextFrame :=
  mkTextFrame (first_paragraph tf) (more_paragraphs tf ++ [p]).

Definition toc_main_text (cat : Category) : string :=
  pretty (No cat) +:+ ". " +:+ MainCategory cat.

Definition toc_sub_text (sub_item : string) : string :=
  toc_bullet +:+ str_take 40 sub_item.

Definition toc_sub_paragraph (sub_item : string) : Paragraph :=
  mkParagraph (toc_sub_text sub_item) 1 (Some false) (Some 9%Z).

(** Lines 480-513, one round of the loop over [enumerate(categories)]. *)
Definition toc_write (tf : TextFrame) (it : nat * Category) : TextFrame :=
  let '(idx, cat) := it in
  let tf1 :=
    match idx with
    | 0 => mkTextFrame
             (mkParagraph (toc_main_text cat) (p_level (first_paragraph tf))
                (Some true) (Some 11%Z))
             (more_paragraphs tf)
    | _ => tf_add tf (mkParagraph (toc_main_text cat) 0 (Some true) (Some 11%Z))
    end in
  fold_left (λ tf sub_item, tf_add tf (toc_sub_paragraph sub_item))
    (take 3 (SubItems cat)) tf1.

Definition toc_fill (cats : list Category) (tf : TextFrame) : TextFrame :=
  fold_left toc_write (enumerate cats) (tf_clear tf).

Definition map_frame (f : TextFrame → TextFrame) (sh : Shape) : Shape :=
  mkShape (f <$> text_frame sh) (width sh) (height sh).

(** Returns the deck as [populate_toc] leaves it and the function's result. *)
Definition populate_toc (prs : list Slide) (cats : list Category)
    (toc_slide_index : nat) : list Slide * bool :=
  match prs !! toc_slide_index with
  | None => (prs, false)
  | Some toc_slide =>
      match foldM toc_candidate (None, 0%Z) (enumerate (shapes toc_slide)) with
      | Some (Some i, _) =>
          (<[toc_slide_index :=
               mkSlide (alter (map_frame (toc_fill cats)) i (shapes toc_slide))
                 (title_idx toc_slide)]> prs,
           true)
      | _ => (prs, false)
      end
  end.

Definition update_slide_title (slide : Slide) (new_title : string)
  : Slide * bool :=
  match title_idx slide with
  | Some i =>
      match shapes slide !! i with
      | Some sh =>
          (mkSlide
             (<[i := mkShape (Some (tf_of_text new_title)) (width sh) (height sh)]>
                (shapes slide))
             (title_idx slide),
           true)
      | None => (slide, false)
      end
  | None => (slide, false)
  end.

(** ** Reordering ([process_pptx]) *)

(** [l[i]] with Python's negative positions; [None] is [IndexError]. *)
Definition py_index {A : Type} (l : list A) (i : Z) : option A :=
  if bool_decide (0 ≤ i)%Z then l !! Z.to_nat i
  else if bool_decide (- Z.of_nat (length l) ≤ i)%Z
       then l !! Z.to_nat (Z.of_nat (length l) + i)
       else None.

Definition Match : Type := Z * string * Group.

(** Lines 614-624, one category; [groups[pptx_idx]] with a [float] is a
    [TypeError], so that [used_groups] holds [int]s only. *)
Definition resolve_category (mapping : gmap Z Number) (groups : list Group)
    (st : list Match * gset Z) (cat : Category) : option (list Match * gset Z) :=
  let '(matched_list, used_groups) := st in
  let pdf_no := No cat in
  let main_cat := MainCategory cat in
  match mapping !! pdf_no with
  | Some pptx_idx =>
      if number_lt pptx_idx (Z.of_nat (length groups)) then
        match pptx_idx with
        | NInt i =>
            group ← py_index groups i;
            Some (matched_list ++ [(pdf_no, main_cat, group)],
                  {[i]} ∪ used_groups)
        | NFloat _ => None
        end
      else Some st
  | None => Some st
  end.

(** Line 629 *)
Definition unused_of (groups : list Group) (used_groups : gset Z) : list Group :=
  (filter (λ it : nat * Group, Z.of_nat it.1 ∉ used_groups) (enumerate groups)).*2.

Definition new_title_of (pdf_no : Z) (category_name : string) : string :=
  pretty pdf_no +:+ ". " +:+ category_name.

(** Lines 641-649, one matched group: retitle its first slide, place its
    slides. *)
Definition place_group (st : list Slide * list nat) (m : Match)
  : option (list Slide * list nat) :=
  let '(prs, new_order) := st in
  let '(pdf_no, category_name, group) := m in
  first_slide_idx ← head (slides group);
  slide ← prs !! first_slide_idx;
  Some (<[first_slide_idx :=
            (update_slide_title slide (new_title_of pdf_no category_name)).1]> prs,
        new_order ++ slides group).

(** [xml_slides.append(el)]: a slide id element lives in one place, so
    appending one that is already in the list moves it to the end.  An
    element is named by its position in [original_slides]. *)
Definition sldIdLst_append (xml_slides : list nat) (el : nat) : list nat :=
  filter (λ x, x ≠ el) xml_slides ++ [el].

Definition append_original (total : nat) (xml_slides : list nat) (idx : nat)
  : option (list nat) :=
  if bool_decide (idx < total) then Some (sldIdLst_append xml_slides idx)
  else None.

(** What a completed run leaves behind: the slides by original position
    (after the title updates), the computed order, the slide sequence that
    is saved, and the two lists the summary counts. *)
Record Reordered := mkReordered {
  out_slides : list Slide;
  new_order : list nat;
  saved_sequence : list nat;
  matched_list : list Match;
  unused_groups : list Group
}.

Definition matched_count (r : Reordered) : nat := length (matched_list r).
Definition unused_count (r : Reordered) : nat := length (unused_groups r).

(** Lines 611-668 *)
Definition reorder (pdf_categories : list Category) (groups : list Group)
    (mapping : gmap Z Number) (prs : list Slide) : option Reordered :=
  '(matched, used_groups) ←
    foldM (resolve_category mapping groups) ([], ∅) pdf_categories;
  let unused := unused_of groups used_groups in
  let matched := sort_by (λ m : Match, m.1.1) matched in
  '(prs', order) ← foldM place_group (prs, seq 0 FIXED_SLIDES) matched;
  let order := order ++ concat (slides <$> unused) in
  xml_slides ← foldM (append_original (length prs)) [] order;
  Some (mkReordered prs' order xml_slides matched unused).

Inductive Outcome :=
| TooFewSlides            (** error logged, nothing saved *)
| MatchingFailed          (** error logged, nothing saved *)
| Raised                  (** an exception leaves the function *)
| Saved (r : Reordered).

Definition process_pptx (model : Oracle) (pdf_categories : list Category)
    (deck : list Slide) : Outcome :=
  let total_slides := length deck in
  if bool_decide (total_slides ≤ FIXED_SLIDES) then TooFewSlides
  else
    let prs := (populate_toc deck pdf_categories 1).1 in
    let groups := slide_groups prs in
    let mapping := create_matching_with_ai model pdf_categories groups in
    if bool_decide (mapping = ∅) then MatchingFailed
    else match reorder pdf_categories groups mapping prs with
         | Some r => Saved r
         | None => Raised
         end.

(** ** The web application ([app.py])

    [app.py] has its own copies of the extraction from tables, of the
    grouping loop, of [populate_toc], of the matching and of [process_pptx];
    its reordering (lines 350-391) is [reorder] above.  Its categories carry
    [No] and [Category] only and its groups have no [content]; they are
    recorded with [Category] in the place of [MainCategory], no sub-items,
    and an empty [content]. *)

Module App.

(** Lines 111-123 *)
Definition scan_row (cats : list Category) (row : Row) : list Category :=
  if bool_decide (length row < 2) then cats
  else
    let col0 := cell_text (row_cell row 0) in
    let col1 := cell_text (row_cell row 1) in
    if nonempty col0 then
      match re_match_digits col0 with
      | Some digits =>
          if nonempty col1 then
            let no := int_digits digits in
            let category := strip (first_line col1) in
            if bool_decide (Exists (λ c, No c = no) cats) then cats
            else cats ++ [mkCategory no category []]
          else cats
      | None => cats
      end
    else cats.

Definition scan_table (cats : list Category) (table : Table) : list Category :=
  if bool_decide (length table < 2) then cats
  else fold_left scan_row table cats.

Definition extract_categories_from_pdf (pdf : Document) : list Category :=
  sort_by No
    (fold_left (λ cats (page : Page), fold_left scan_table page cats) pdf []).

(** Lines 319-335 *)
Definition group_slide (st : list Group * option Group) (it : nat * Slide)
  : list Group * option Group :=
  let '(groups, current_group) := st in
  let '(idx, slide) := it in
  let slide_title := get_slide_title slide in
  if nonempty slide_title then
    (match current_group with Some g => groups ++ [g] | None => groups end,
     Some (mkGroup slide_title [idx] idx EmptyString))
  else
    match current_group with
    | Some g =>
        (groups,
         Some (mkGroup (title g) (slides g ++ [idx]) (first_index g) (content g)))
    | None =>
        let first_text := get_slide_first_text slide in
        (groups,
         Some (mkGroup
                 (if nonempty first_text then str_take 50 first_text
                  else untitled idx)
                 [idx] idx EmptyString))
    end.

Definition slide_groups (deck : list Slide) : list Group :=
  close_groups (fold_left group_slide (slides_from FIXED_SLIDES deck) ([], None)).

(** [str.isdigit] on a single character (code points below 256): the
    decimal digits and the superscripts one, two and three. *)
Definition py_isdigit (c : ascii) : bool :=
  let n := N_of_ascii c in
  (re_digit c || (n =? 178) || (n =? 179) || (n =? 185))%N.

Fixpoint all_chars (p : ascii → bool) (s : string) : bool :=
  match s with
  | EmptyString => true
  | String c r => p c && all_chars p r
  end.

(** Line 241: [existing_text and (existing_text.isdigit() or
    re.match(r'^[\d\s\n]+$', existing_text))] *)
Definition page_number_like (existing_text : string) : bool :=
  nonempty existing_text
  && (all_chars py_isdigit existing_text
      || all_chars (λ c, re_digit c || py_isspace c) existing_text).

Definition toc_text (cats : list Category) : string :=
  join lf ((λ cat, pretty (No cat) +:+ ". " +:+ MainCategory cat) <$> cats).

(** Lines 238-245: the first text frame that looks like a page number is
    cleared and given the whole list as the text of its one paragraph. *)
Fixpoint fill_first (toc_text : string) (shs : list Shape) : option (list Shape) :=
  match shs with
  | [] => None
  | sh :: rest =>
      match text_frame sh with
      | Some tf =>
          if page_number_like (strip (tf_text tf)) then
            Some (mkShape
                    (Some (mkTextFrame
                             (mkParagraph toc_text (p_level (first_paragraph tf))
                                None None) []))
                    (width sh) (height sh) :: rest)
          else (sh ::.) <$> fill_first toc_text rest
      | None => (sh ::.) <$> fill_first toc_text rest
      end
  end.

Definition populate_toc (prs : list Slide) (cats : list Category)
    (toc_slide_index : nat) : list Slide * bool :=
  match prs !! toc_slide_index with
  | None => (prs, false)
  | Some toc_slide =>
      match fill_first (toc_text cats) (shapes toc_slide) with
      | Some shs =>
          (<[toc_slide_index := mkSlide shs (title_idx toc_slide)]> prs, true)
      | None => (prs, false)
      end
  end.

(** [int(v)] for a decoded value; [None] is its [TypeError], [ValueError]
    or [OverflowError]. *)
Definition int_of_json (v : json) : option Z :=
  match v with
  | JInt n => Some n
  | JBool b => Some (if b then 1 else 0)%Z
  | JFloat x => float_int x
  | JStr s => py_int s
  | _ => None
  end.

(** Lines 291-293: [int(k)] is evaluated only when [int(v) >= 0]. *)
Definition mapping_entry (mapping : gmap Z Z) (item : string * json)
  : option (gmap Z Z) :=
  v ← int_of_json item.2;
  if bool_decide (0 ≤ v)%Z then
    k ← py_int item.1; Some (<[k := v]> mapping)
  else Some mapping.

(** Lines 281-294: nothing is caught, [None] is the exception that leaves
    the function. *)
Definition create_matching_with_ai (model : Oracle)
    (categories : list Category) (groups : list Group) : option (gmap Z Z) :=
  match model categories groups with
  | Some (JObj members) => foldM mapping_entry ∅ members
  | _ => None
  end.

(** Lines 297-401; [None] is an exception: the [ValueError] of a deck that
    is too short, or whatever the matching or the reordering raises.  The
    reordering is [reorder] on a mapping all of whose values are [int]s. *)
Definition process_pptx (model : Oracle) (categories : list Category)
    (deck : list Slide) : option Reordered :=
  if bool_decide (length deck ≤ FIXED_SLIDES) then None
  else
    let prs := (populate_toc deck categories 1).1 in
    let groups := slide_groups prs in
    mapping ← create_matching_with_ai model categories groups;
    reorder categories groups (NInt <$> mapping) prs.

End App.

(** ** Taxonomy extraction from a worksheet ([extract_categories_from_excel])

    [main.py] (lines 175-204) and [app.py] (lines 129-151) hold the same
    loop.  Its categories carry [No] and [Category]; they are recorded as
    those of [app.py]. *)

(** A value of [ws.iter_rows(values_only=True)]: an empty cell, a string, an
    integer, a boolean, or any other value (a float, a date) by what the
    loop asks of it, its truth value and its [str()]. *)
Inductive CellValue :=
| VNone
| VStr (s : string)
| VInt (n : Z)
| VBool (b : bool)
| VOther (truth : bool) (text : string).

(** [bool(value)] *)
Definition value_truth (value : CellValue) : bool :=
  match value with
  | VNone => false
  | VStr s => nonempty s
  | VInt n => negb (n =? 0)%Z
  | VBool b => b
  | VOther truth _ => truth
  end.

(** [str(value)] *)
Definition value_str (value : CellValue) : string :=
  match value with
  | VNone => "None"
  | VStr s => s
  | VInt n => pretty n
  | VBool b => if b then "True" else "False"
  | VOther _ text => text
  end.

(** [str(value).strip() if value else ""] *)
Definition value_text (value : CellValue) : string :=
  if value_truth value then strip (value_str value) else EmptyString.

Definition row_value (row : list CellValue) (i : nat) : CellValue :=
  default VNone (row !! i).

(** Lines 185-197, one row of the worksheet. *)
Definition excel_row (categories : list Category) (row : list CellValue)
  : list Category :=
  if bool_decide (length row < 2) then categories
  else
    let col0 := value_text (row_value row 0) in
    let col1 := value_text (row_value row 1) in
    if nonempty col0 then
      match re_match_digits col0 with
      | Some digits =>
          if nonempty col1 then
            let no := int_digits digits in
            if bool_decide (Exists (λ c, No c = no) categories) then categories
            else categories ++ [mkCategory no (strip (first_line col1)) []]
          else categories
      | None => categories
      end
    else categories.

Definition extract_categories_from_excel (rows : list (list CellValue))
  : list Category :=
  sort_by No (fold_left excel_row rows []).

(** ** Grouping the whole deck ([get_slide_groups])

    [get_slide_groups] of [main.py] (lines 309-339) is the grouping loop of
    [app.py], run over the whole deck. *)

Definition get_slide_groups (prs : list Slide) : list Group :=
  close_groups (fold_left App.group_slide (slides_from 0 prs) ([], None)).

(** ** The oracle's text

    Both matching and extraction by the oracle take the JSON out of a
    Markdown code fence before decoding it (main.py 246-249 and 412-415,
    app.py 191-194 and 284-287). *)

(** [s] without the prefix [p], when it starts with it. *)
Fixpoint drop_prefix (p s : string) : option string :=
  match p, s with
  | EmptyString, _ => Some s
  | String a p', String b s' => if Ascii.eqb a b then drop_prefix p' s' else None
  | String _ _, EmptyString => None
  end.

(** The texts before and after the first occurrence of [sep] in [s];
    [None] when [sep not in s]. *)
Fixpoint cut (sep s : string) : option (string * string) :=
  match drop_prefix sep s with
  | Some rest => Some (EmptyString, rest)
  | None =>
      match s with
      | EmptyString => None
      | String c r => (λ ba : string * string, (String c ba.1, ba.2)) <$> cut sep r
      end
  end.

(** [s.split(sep)[0]] *)
Definition split_0 (sep s : string) : string :=
  match cut sep s with Some (before, _) => before | None => s end.

(** [s.split(sep)[1]]; [None] is [IndexError]. *)
Definition split_1 (sep s : string) : option string :=
  ba ← cut sep s; Some (split_0 sep ba.2).

Definition fence : string := "```".
Definition json_fence : string := "```json".

(** What is handed to [json.loads], from the stripped text of the
    response. *)
Definition unfenced (response_text : string) : string :=
  match split_1 json_fence response_text with
  | Some inner => strip (split_0 fence inner)
  | None =>
      match split_1 fence response_text with
      | Some inner => strip (split_0 fence inner)
      | None => response_text
      end
  end.

(** ** File types ([detect_file_type]) *)

(** [str.lower] on a single character (code points below 256). *)
Definition py_lower (c : ascii) : ascii :=
  let n := N_of_ascii c in
  if ((65 <=? n) && (n <=? 90)
      || (192 <=? n) && (n <=? 222) && negb (n =? 215))%N
  then ascii_of_N (n + 32) else c.

Fixpoint lower (s : string) : string :=
  match s with
  | EmptyString => EmptyString
  | String c r => String (py_lower c) (lower r)
  end.

(** [s.split(c)] for a single character [c]. *)
Fixpoint split_char (c : ascii) (s : string) : list string :=
  match s with
  | EmptyString => [EmptyString]
  | String a r =>
      if Ascii.eqb a c then EmptyString :: split_char c r
      else match split_char c r with
           | l :: ls => String a l :: ls
           | [] => [String a EmptyString]
           end
  end.

(** [PurePosixPath(path).name]: the last component of the path, empty
    components and [.] left out. *)
Definition path_name (path : string) : string :=
  default EmptyString
    (last (filter (λ part : string, part ≠ EmptyString ∧ part ≠ ".")
             (split_char "/" path))).

(** [name.rfind('.')], with the text from there on. *)
Fixpoint rfind_dot (name : string) : option (nat * string) :=
  match name with
  | EmptyString => None
  | String c r =>
      match rfind_dot r with
      | Some (i, tail) => Some (S i, tail)
      | None => if Ascii.eqb c "." then Some (0, name) else None
      end
  end.

(** [PurePosixPath(path).suffix]: from the last dot of the name on, unless
    that dot opens or ends the name. *)
Definition path_suffix (path : string) : string :=
  let name := path_name path in
  match rfind_dot name with
  | Some (i, tail) =>
      if bool_decide (0 < i < String.length name - 1) then tail else EmptyString
  | None => EmptyString
  end.

(** [type_map.get(ext, 'unknown')] *)
Definition type_map_get (ext : string) : string :=
  if String.eqb ext ".pdf" then "pdf"
  else if String.eqb ext ".xlsx" || String.eqb ext ".xls" then "excel"
  else if String.eqb ext ".docx" || String.eqb ext ".doc" then "word"
  else if String.eqb ext ".png" || String.eqb ext ".jpg" || String.eqb ext ".jpeg"
       then "image"
  else "unknown".

Definition detect_file_type (file_path : string) : string :=
  type_map_get (lower (path_suffix file_path)).

(** ** Auxiliary notions for the statements below *)

(** A mapping of [int]s without a negative index, as the matching of
    [app.py] returns it and as the one of [main.py] does when the response
    holds no [float]. *)
Definition validated (mapping : gmap Z Z) : Prop :=
  map_Forall (λ _ pptx_idx, 0 ≤ pptx_idx)%Z mapping.

(** A mapping as [create_matching_with_ai] of [main.py] returns it: every
    value passed [pptx_idx >= 0]. *)
Definition checked (mapping : gmap Z Number) : Prop :=
  map_Forall (λ _ pptx_idx, number_ge_0 pptx_idx = true) mapping.

(** The number when it is an [int]. *)
Definition number_int (v : Number) : option Z :=
  match v with
  | NInt n => Some n
  | NFloat _ => None
  end.

(** The decoded value when it is an [int] or a [bool]. *)
Definition json_int (v : json) : option Z := json_number v ≫= number_int.

(** The entries of a mapping that are [int]s. *)
Definition ints (mapping : gmap Z Number) : gmap Z Z := omap number_int mapping.

(** The category's entry in the mapping is a [float] below the number of
    groups, the case in which [groups[pptx_idx]] is reached with a [float]. *)
Definition float_in_range (mapping : gmap Z Number) (n : nat) (cat : Category)
  : bool :=
  match mapping !! No cat with
  | Some (NFloat x) => float_lt x (Z.of_nat n)
  | _ => false
  end.

(** The mapping without the entries whose index is not below [n]. *)
Definition below (n : nat) (mapping : gmap Z Number) : gmap Z Number :=
  filter (λ kv : Z * Number, number_lt kv.2 (Z.of_nat n) = true) mapping.

(** The groups cover the content positions of a deck of [n] slides in
    ascending order, each once, and none of them is empty. *)
Definition partitions (n : nat) (groups : list Group) : Prop :=
  concat (slides <$> groups) = seq FIXED_SLIDES (n - FIXED_SLIDES)
  ∧ Forall (λ g, slides g ≠ []) groups.

(** The group indices that the categories resolve to, in category order:
    one entry for every category that is a key of the mapping with an index
    below the number of groups. *)
Definition resolved_targets (mapping : gmap Z Z) (n : nat)
    (cats : list Category) : list Z :=
  omap (λ cat : Category,
          pptx_idx ← mapping !! No cat;
          if bool_decide (pptx_idx < Z.of_nat n)%Z then Some pptx_idx else None)
       cats.

(** The same entries together with what the loop records for them. *)
Definition resolved (mapping : gmap Z Z) (groups : list Group)
    (cats : list Category) : list (Z * Match) :=
  omap (λ cat : Category,
          pptx_idx ← mapping !! No cat;
          if bool_decide (pptx_idx < Z.of_nat (length groups))%Z then
            group ← groups !! Z.to_nat pptx_idx;
            Some (pptx_idx, (No cat, MainCategory cat, group))
          else None)
       cats.

(** A response [create_matching_with_ai] can turn into a mapping: it parsed,
    it is an object, [int()] accepts every key and every value is a number
    (a boolean counts as one, as in Python). *)
Definition usable_response (response : option json) : bool :=
  match response with
  | Some (JObj members) =>
      forallb (λ item : string * json,
                 bool_decide (is_Some (py_int item.1))
                 && bool_decide (is_Some (json_number item.2)))
              members
  | _ => false
  end.

(** The condition of lines 108-117 under which a row opens a category. *)
Definition is_main_item_row (row : Row) : bool :=
  bool_decide (2 ≤ length row)
  && nonempty (cell_text (row_cell row 0))
  && bool_decide (is_Some (re_match_digits (cell_text (row_cell row 0))))
  && nonempty (cell_text (row_cell row 1)).

(** The rows of a page that the scan looks at: those of its tables with at
    least two rows, one table after the other. *)
Definition page_rows (page : Page) : list Row :=
  concat (filter (λ t : Table, 2 ≤ length t) page).

(** The scan of one page and the whole extraction, on pages given as the
    rows the scan looks at. *)
Definition scan_rows (st : scan_state) (rows : list Row) : scan_state :=
  end_of_page (fold_left scan_row rows st).

Definition extract_rows (pages : list (list Row)) : list Category :=
  sort_by No (unique_by_no ∅ (categories (fold_left scan_rows pages scan_start))).

(** The condition of lines 135-140 under which a row is read as a sub-item
    row, and the text that lines 142-144 take from it. *)
Definition is_sub_item_row (row : Row) : bool :=
  bool_decide (4 ≤ length row)
  && nonempty (cell_text (row_cell row 2))
  && re_match_only_digits (cell_text (row_cell row 2))
  && nonempty (cell_text (row_cell row 3)).

Definition sub_item_of (row : Row) : string :=
  str_take 100 (strip (first_line (cell_text (row_cell row 3)))).

(** No category is in progress, or the one in progress is already in the
    result list. *)
Definition settled (st : scan_state) : Prop :=
  match current_category st with
  | Some cur => cur ∈ categories st
  | None => True
  end.

(** The category in progress, if any, has a [No] that the result list
    already holds, so that nothing it collects survives de-duplication. *)
Definition shadowed (st : scan_state) : Prop :=
  match current_category st with
  | Some cur => No cur ∈ No <$> categories st
  | None => True
  end.

(** Two scan states that lead to the same taxonomy whatever comes next. *)
Definition alike (a b : scan_state) : Prop :=
  unique_by_no ∅ (categories a) = unique_by_no ∅ (categories b)
  ∧ (current_category a = current_category b ∨ (shadowed a ∧ shadowed b)).









(** A category's number and name. *)
Definition numbered_name (c : Category) : Z * string := (No c, MainCategory c).

(** The categories a scan holds, the one in progress last. *)
Definition pending (st : scan_state) : list Category :=
  categories st ++ option_list (current_category st).

(** A [pdfplumber] cell as a worksheet value. *)
Definition as_value (cell : option string) : CellValue :=
  match cell with Some s => VStr s | None => VNone end.

(** What every category of the tabular path satisfies. *)
Definition well_formed (c : Category) : Prop :=
  (0 ≤ No c)%Z
  ∧ NoDup (SubItems c)
  ∧ Forall (λ sub_item, sub_item ≠ EmptyString ∧ String.length sub_item ≤ 100)
      (SubItems c).

(** What the table scan of [main.py] holds and what the one of [app.py]
    has collected name the same categories. *)
Definition same_names (st : scan_state) (cats : list Category) : Prop :=
  numbered_name <$> unique_by_no ∅ (pending st) = numbered_name <$> cats.

Definition has_title (slide : Slide) : bool := nonempty (get_slide_title slide).

(** The title a slide gives the group it opens: its own, else the first 50
    characters of its first text, else a placeholder with its position. *)
Definition opening_title (it : nat * Slide) : string :=
  if has_title it.2 then get_slide_title it.2
  else
    let first_text := get_slide_first_text it.2 in
    if nonempty first_text then str_take 50 first_text else untitled it.1.

(** The slides that open a group: the first one, and every later one that
    has a title. *)
Definition openers (items : list (nat * Slide)) : list (nat * Slide) :=
  match items with
  | [] => []
  | it :: rest => it :: filter (λ it : nat * Slide, has_title it.2 = true) rest
  end.

(** Where a group starts and what it is called. *)
Definition group_opening (g : Group) : nat * string := (first_index g, title g).

(** A group is a run of consecutive positions that starts at its
    [first_index] and is not empty. *)
Definition consecutive (g : Group) : Prop :=
  slides g = seq (first_index g) (length (slides g)) ∧ 0 < length (slides g).

(** [s'] is [s] up to the text of its title placeholder. *)
Definition same_but_title (s s' : Slide) : Prop :=
  title_idx s' = title_idx s
  ∧ length (shapes s') = length (shapes s)
  ∧ ∀ j, title_idx s ≠ Some j → shapes s' !! j = shapes s !! j.

(** [s'] is [s], or [s] with a new title. *)
Definition retitling (s s' : Slide) : Prop :=
  s' = s ∨ ∃ new_title, s' = (update_slide_title s new_title).1.

(** A response the matching of [app.py] turns into a mapping: an object
    every value of which [int()] accepts, with a key [int()] accepts
    wherever the value is not negative. *)
Definition app_usable_response (response : option json) : bool :=
  match response with
  | Some (JObj members) =>
      forallb (λ item : string * json,
                 match App.int_of_json item.2 with
                 | Some v => bool_decide (v < 0)%Z
                             || bool_decide (is_Some (py_int item.1))
                 | None => false
                 end)
              members
  | _ => false
  end.

(** The values a response gives for the number [k], those that fail
    [pptx_idx >= 0] left out, in the order of the response. *)
Definition entries_for (k : Z) (members : list (string * json)) : list Number :=
  omap (λ item : string * json,
          k' ← py_int item.1;
          v ← json_number item.2;
          if bool_decide (k' = k) && number_ge_0 v then Some v else None)
       members.

(** No value of the object is a [float]. *)
Definition no_float (members : list (string * json)) : bool :=
  forallb (λ item : string * json,
             match item.2 with
             | JFloat _ => false
             | _ => true
             end)
          members.

(** A response without [float]s that [create_matching_with_ai] of [main.py]
    can turn into a mapping: an object, [int()] accepts every key and every
    value is an [int] or a [bool]. *)
Definition integer_response (response : option json) : bool :=
  match response with
  | Some (JObj members) =>
      forallb (λ item : string * json,
                 bool_decide (is_Some (py_int item.1))
                 && bool_decide (is_Some (json_int item.2)))
              members
  | _ => false
  end.

(** The character [c] does not occur in [s]. *)
Fixpoint free_of (c : ascii) (s : string) : bool :=
  match s with
  | EmptyString => true
  | String a r => negb (Ascii.eqb c a) && free_of c r
  end.

Definition tick : ascii := "`".

(** The category that a row with these first two cells opens, if any. *)
Definition row_category (col0 col1 : string) : option Category :=
  if nonempty col0 then
    digits ← re_match_digits col0;
    if nonempty col1
    then Some (mkCategory (int_digits digits) (strip (first_line col1)) [])
    else None
  else None.

Definition table_row_category (row : Row) : option Category :=
  if bool_decide (length row < 2) then None
  else row_category (cell_text (row_cell row 0)) (cell_text (row_cell row 1)).

Definition sheet_row_category (row : list CellValue) : option Category :=
  if bool_decide (length row < 2) then None
  else row_category (value_text (row_value row 0)) (value_text (row_value row 1)).

(** A group as [app.py] records it: without the collected content. *)
Definition without_content (g : Group) : Group :=
  mkGroup (title g) (slides g) (first_index g) EmptyString.

Definition match_without_content (m : Match) : Match :=
  (m.1, without_content m.2).

(** ** Concrete decks, taxonomies and oracles used in the examples *)

(** Scenario A's table. *)
Definition scenario_A_table : Table :=
  [ [Some "1"; Some "Intro"];
    [Some "1"; Some "1"; Some "Scope"];
    [Some "2"; Some "Overview"] ].

(** One page with two tables: a main-item row in the first, a sub-item row
    in the second. *)
Definition intro_table : Table :=
  [ [Some "1"; Some "Intro"]; [None; None] ].

Definition scope_table : Table :=
  [ [None; None; Some "1"; Some "Scope"]; [None; None] ].

(** A table that opens with a header row and a sub-item row before its
    first main-item row. *)
Definition late_table : Table :=
  [ [Some "No"; Some "Item"; None; None];
    [None; None; Some "2"; Some "Ghost"];
    [Some "2"; Some "Overview"; None; None];
    [None; None; Some "1"; Some "Parts"] ].

Definition titled (s : string) : Slide :=
  mkSlide [mkShape (Some (tf_of_text s)) (Some 100%Z) (Some 20%Z)] (Some 0).

Definition blank : Slide := mkSlide [] None.

(** Scenario B's deck: cover, contents, then two titled slides each followed
    by an untitled one. *)
Definition deck6 : list Slide :=
  [titled "Cover"; titled "Contents";
   titled "Features"; blank; titled "Summary"; blank].

(** Four slides, two single-slide groups. *)
Definition deck4 : list Slide :=
  [titled "Cover"; titled "Contents"; titled "Features"; titled "Summary"].

Definition two_cats : list Category :=
  [mkCategory 1 "Intro" ["Scope"]; mkCategory 2 "Overview" []].

(** The two groups of [deck6]. *)
Definition deck6_features : Group :=
  mkGroup "Features" [2; 3] 2 ("Features" +:+ lf).

Definition deck6_summary : Group :=
  mkGroup "Summary" [4; 5] 4 ("Summary" +:+ lf).



(** A table-of-contents slide with a title, a body placeholder and a page
    number. *)
Definition toc_deck : list Slide :=
  [titled "Cover";
   mkSlide [mkShape (Some (tf_of_text "Contents")) (Some 100%Z) (Some 20%Z);
            mkShape (Some (tf_of_text "Click to add the list of sections"))
              (Some 100%Z) (Some 60%Z);
            mkShape (Some (tf_of_text "2")) (Some 10%Z) (Some 5%Z)]
           (Some 0);
   titled "Features"].

Definition answers (members : list (string * json)) : Oracle :=
  λ _ _, Some (JObj members).

(** A slide that shows its text in a text box and has no title
    placeholder, and a deck made of such slides after the cover and the
    contents slide. *)
Definition text_box (s : string) : Slide :=
  mkSlide [mkShape (Some (tf_of_text s)) (Some 100%Z) (Some 20%Z)] None.

Definition text_box_deck : list Slide :=
  [titled "Cover"; titled "Contents";
   text_box "Introduction"; text_box "Overview"; text_box "Features"].

(** Two mappings over two groups: one that swaps them, one that sends both
    categories to the first. *)
Definition swap_mapping : gmap Z Z := <[1%Z := 1%Z]> (<[2%Z := 0%Z]> ∅).

Definition same_target_mapping : gmap Z Z := <[1%Z := 0%Z]> (<[2%Z := 0%Z]> ∅).

Definition no_run : Reordered := mkReordered [] [] [] [] [].

Definition swapped_run : Reordered :=
  default no_run
    (reorder two_cats (slide_groups deck6) (NInt <$> swap_mapping) deck6).

Definition same_target_run : Reordered :=
  default no_run
    (reorder two_cats (slide_groups deck4) (NInt <$> same_target_mapping) deck4).

(** An answer with three spellings of the number 1 and a negative value. *)
Definition respelled : list (string * json) :=
  [("1", JInt 0); ("01", JInt 3); ("001", JInt (-1)); ("2", JBool true)].

(* ================================================================== *)
(** * Properties *)

(** ** Segmentation *)

Lemma close_groups_open groups g :
  close_groups (groups, Some g) = groups ++ [g].
Proof. reflexivity. Qed.

Lemma grouped_open groups g :
  grouped (groups, Some g) = concat (slides <$> groups) ++ slides g.
Proof.
  unfold grouped. rewrite close_groups_open, fmap_app, concat_app. simpl.
  by rewrite app_nil_r.
Qed.

Lemma slides_from_fst k (deck : list Slide) :
  (slides_from k deck).*1 = seq k (length deck - k).
Proof.
  unfold slides_from. apply fst_zip. by rewrite length_seq, length_drop.
Qed.

(** The two grouping loops are folds of a step that adds the slide's
    position to what the state has collected and leaves no group empty. *)
Section GroupingLoop.
Variable step :
  list Group * option Group → nat * Slide → list Group * option Group.
Hypothesis step_grouped : ∀ st it, grouped (step st it) = grouped st ++ [it.1].
Hypothesis step_nonempty : ∀ st it,
  Forall (λ g, slides g ≠ []) (close_groups st) →
  Forall (λ g, slides g ≠ []) (close_groups (step st it)).

Lemma loop_grouped items st :
  grouped (fold_left step items st) = grouped st ++ items.*1.
Proof.
  revert st. induction items as [|it items IH]; intros st; simpl.
  - by rewrite app_nil_r.
  - rewrite IH, step_grouped. by rewrite <- app_assoc.
Qed.

Lemma loop_nonempty items st :
  Forall (λ g, slides g ≠ []) (close_groups st) →
  Forall (λ g, slides g ≠ []) (close_groups (fold_left step items st)).
Proof.
  revert st. induction items as [|it items IH]; intros st H; simpl; [done|].
  by apply IH, step_nonempty.
Qed.

Lemma loop_partitions (deck : list Slide) :
  partitions (length deck)
    (close_groups (fold_left step (slides_from FIXED_SLIDES deck) ([], None))).
Proof.
  split.
  - change (concat (slides <$> close_groups ?st)) with (grouped st).
    by rewrite loop_grouped, slides_from_fst.
  - apply loop_nonempty. constructor.
Qed.

End GroupingLoop.

Lemma group_slide_grouped st it :
  grouped (group_slide st it) = grouped st ++ [it.1].
Proof.
  destruct st as [groups cur], it as [idx slide]. unfold group_slide.
  destruct (nonempty (get_slide_title slide)).
  - rewrite grouped_open. simpl. destruct cur as [g|]; reflexivity.
  - destruct cur as [g|]; rewrite !grouped_open; simpl.
    + by rewrite app_assoc.
    + unfold grouped. simpl. reflexivity.
Qed.

Lemma group_slide_nonempty st it :
  Forall (λ g, slides g ≠ []) (close_groups st) →
  Forall (λ g, slides g ≠ []) (close_groups (group_slide st it)).
Proof.
  destruct st as [groups cur], it as [idx slide]. unfold group_slide.
  intros H. destruct (nonempty (get_slide_title slide)).
  - rewrite close_groups_open. apply Forall_app. split.
    + destruct cur; [exact H|exact H].
    + by repeat constructor.
  - destruct cur as [g|]; rewrite close_groups_open.
    + rewrite close_groups_open in H. apply Forall_app in H as [H1 H2].
      apply Forall_app. split; [done|]. repeat constructor. simpl.
      by destruct (slides g).
    + apply Forall_app. split; [done|]. by repeat constructor.
Qed.

Lemma app_group_slide_grouped st it :
  grouped (App.group_slide st it) = grouped st ++ [it.1].
Proof.
  destruct st as [groups cur], it as [idx slide]. unfold App.group_slide.
  destruct (nonempty (get_slide_title slide)).
  - rewrite grouped_open. simpl. destruct cur as [g|]; reflexivity.
  - destruct cur as [g|]; rewrite !grouped_open; simpl.
    + by rewrite app_assoc.
    + unfold grouped. simpl. reflexivity.
Qed.

Lemma app_group_slide_nonempty st it :
  Forall (λ g, slides g ≠ []) (close_groups st) →
  Forall (λ g, slides g ≠ []) (close_groups (App.group_slide st it)).
Proof.
  destruct st as [groups cur], it as [idx slide]. unfold App.group_slide.
  intros H. destruct (nonempty (get_slide_title slide)).
  - rewrite close_groups_open. apply Forall_app. split.
    + destruct cur; [exact H|exact H].
    + by repeat constructor.
  - destruct cur as [g|]; rewrite close_groups_open.
    + rewrite close_groups_open in H. apply Forall_app in H as [H1 H2].
      apply Forall_app. split; [done|]. repeat constructor. simpl.
      by destruct (slides g).
    + apply Forall_app. split; [done|]. by repeat constructor.
Qed.

Lemma slide_groups_partitions deck : partitions (length deck) (slide_groups deck).
Proof.
  apply loop_partitions; [apply group_slide_grouped|apply group_slide_nonempty].
Qed.

Lemma app_slide_groups_partitions deck :
  partitions (length deck) (App.slide_groups deck).
Proof.
  apply loop_partitions;
    [apply app_group_slide_grouped|apply app_group_slide_nonempty].
Qed.

Lemma slide_groups_concat deck :
  concat (slides <$> slide_groups deck)
  = seq FIXED_SLIDES (length deck - FIXED_SLIDES).
Proof. apply slide_groups_partitions. Qed.

(** In a duplicate-free concatenation an element sits in one part only. *)
Lemma concat_unique_part {A} (ls : list (list A)) (x : A) :
  NoDup (concat ls) → x ∈ concat ls →
  ∃ i l, ls !! i = Some l ∧ x ∈ l
         ∧ ∀ j l', ls !! j = Some l' → x ∈ l' → j = i.
Proof.
  induction ls as [|l0 ls IH]; simpl; intros Hnd Hin.
  - by apply elem_of_nil in Hin.
  - apply NoDup_app in Hnd as (Hl0 & Hdisj & Hrest).
    apply elem_of_app in Hin as [Hin|Hin].
    + exists 0, l0. repeat split; [done|]. intros [|j] l' Hj Hx; [done|].
      exfalso. apply (Hdisj x Hin). apply list_elem_of_In, in_concat.
      exists l'. split; apply list_elem_of_In; [|done].
      by eapply list_elem_of_lookup_2.
    + destruct (IH Hrest Hin) as (i & l & Hi & Hx & Huniq).
      exists (S i), l. repeat split; [done..|].
      intros [|j] l' Hj Hx'.
      * simplify_eq/=. exfalso. by apply (Hdisj x Hx').
      * f_equal. by eapply Huniq.
Qed.

Lemma partitions_one_group n groups idx :
  partitions n groups → FIXED_SLIDES ≤ idx < n →
  ∃ i g, groups !! i = Some g ∧ idx ∈ slides g
         ∧ ∀ j g', groups !! j = Some g' → idx ∈ slides g' → j = i.
Proof.
  intros [Hcover _] Hidx.
  destruct (concat_unique_part (slides <$> groups) idx)
    as (i & l & Hi & Hx & Huniq).
  - rewrite Hcover. apply NoDup_seq.
  - rewrite Hcover. apply elem_of_seq. lia.
  - apply list_lookup_fmap_Some in Hi as (g & -> & Hg).
    exists i, g. repeat split; [done..|].
    intros j g' Hj Hin. apply (Huniq j (slides g')); [|done].
    by apply list_lookup_fmap_Some_2.
Qed.

(** C3. For every deck longer than the anchor prefix, and for the grouping
    loop of [main.py] as for that of [app.py], the groups' slide positions,
    concatenated in group order, are exactly the positions
    [FIXED_SLIDES .. len(deck) - 1] in ascending order; no group is empty,
    and every content slide lies in exactly one group. *)
Theorem C3_segmentation_partition (deck : list Slide) (groups : list Group) :
  FIXED_SLIDES < length deck →
  groups = slide_groups deck ∨ groups = App.slide_groups deck →
  concat (slides <$> groups) = seq FIXED_SLIDES (length deck - FIXED_SLIDES)
  ∧ Forall (λ g, slides g ≠ []) groups
  ∧ ∀ idx, FIXED_SLIDES ≤ idx < length deck →
      ∃ i g, groups !! i = Some g ∧ idx ∈ slides g
             ∧ ∀ j g', groups !! j = Some g' → idx ∈ slides g' → j = i.
Proof.
  intros Hlen Hgroups.
  assert (Hpart : partitions (length deck) groups).
  { destruct Hgroups as [-> | ->];
      [apply slide_groups_partitions|apply app_slide_groups_partitions]. }
  split; [apply Hpart|]. split; [apply Hpart|].
  intros idx Hidx. by apply (partitions_one_group (length deck)).
Qed.

Lemma C3_segmentation_partition_witness :
  concat (slides <$> App.slide_groups deck6)
    = seq FIXED_SLIDES (length deck6 - FIXED_SLIDES)
  ∧ Forall (λ g, slides g ≠ []) (App.slide_groups deck6)
  ∧ ∀ idx, FIXED_SLIDES ≤ idx < length deck6 →
      ∃ i g, App.slide_groups deck6 !! i = Some g ∧ idx ∈ slides g
             ∧ ∀ j g', App.slide_groups deck6 !! j = Some g' → idx ∈ slides g' →
                       j = i.
Proof.
  apply (C3_segmentation_partition deck6 (App.slide_groups deck6)).
  - vm_compute. lia.
  - right. reflexivity.
Defined.

(** Scenario B: the six-slide deck with slides 2 and 4 titled gives the two
    groups with positions [2, 3] and [4, 5]. *)
Example scenario_B : slide_groups deck6 = [deck6_features; deck6_summary].
Proof. vm_compute. reflexivity. Qed.

(** ** Reordering *)

Lemma sort_by_insert_perm {A} (key : A → Z) x l : insert_by key x l ≡ₚ x :: l.
Proof.
  induction l as [|y l IH]; simpl; [done|].
  destruct (key x <=? key y)%Z; [done|]. rewrite IH. apply Permutation_swap.
Qed.

Lemma sort_by_perm {A} (key : A → Z) l : sort_by key l ≡ₚ l.
Proof.
  induction l as [|x l IH]; simpl; [done|].
  by rewrite sort_by_insert_perm, IH.
Qed.

Lemma concat_perm {A} (ls ks : list (list A)) : ls ≡ₚ ks → concat ls ≡ₚ concat ks.
Proof.
  induction 1 as [|l ls ks _ IH|l k ls|ls ks ms _ IH1 _ IH2]; simpl.
  - done.
  - by rewrite IH.
  - rewrite !app_assoc. f_equiv. apply Permutation_app_comm.
  - by rewrite IH1.
Qed.

Lemma py_index_nonneg {A} (l : list A) (i : Z) :
  (0 ≤ i)%Z → py_index l i = l !! Z.to_nat i.
Proof. intros. unfold py_index. by rewrite bool_decide_eq_true_2. Qed.

Lemma resolved_cons mapping groups cat cats :
  resolved mapping groups (cat :: cats)
  = match mapping !! No cat with
    | Some v =>
        if bool_decide (v < Z.of_nat (length groups))%Z then
          match groups !! Z.to_nat v with
          | Some g => (v, (No cat, MainCategory cat, g)) :: resolved mapping groups cats
          | None => resolved mapping groups cats
          end
        else resolved mapping groups cats
    | None => resolved mapping groups cats
    end.
Proof.
  unfold resolved at 1. simpl. fold (resolved mapping groups cats).
  destruct (mapping !! No cat) as [v|]; simpl; [|done].
  case_bool_decide; [|done]. by destruct (groups !! Z.to_nat v).
Qed.

Lemma resolved_targets_cons mapping n cat cats :
  resolved_targets mapping n (cat :: cats)
  = match mapping !! No cat with
    | Some v =>
        if bool_decide (v < Z.of_nat n)%Z then v :: resolved_targets mapping n cats
        else resolved_targets mapping n cats
    | None => resolved_targets mapping n cats
    end.
Proof.
  unfold resolved_targets at 1. simpl. fold (resolved_targets mapping n cats).
  destruct (mapping !! No cat) as [v|]; simpl; [|done].
  by case_bool_decide.
Qed.

Lemma resolved_fst mapping groups cats :
  validated mapping →
  (resolved mapping groups cats).*1 = resolved_targets mapping (length groups) cats.
Proof.
  intros Hv. induction cats as [|cat cats IH]; [done|].
  rewrite resolved_cons, resolved_targets_cons.
  destruct (mapping !! No cat) as [v|] eqn:Hm; [|done].
  case_bool_decide as Hlt; [|done].
  destruct (lookup_lt_is_Some_2 groups (Z.to_nat v)) as [g Hg].
  { specialize (Hv _ _ Hm). simpl in Hv. lia. }
  rewrite Hg, fmap_cons. cbn [fst]. by rewrite IH.
Qed.

Lemma resolve_category_skip mapping groups st cat :
  resolved mapping groups [cat] = [] → validated mapping →
  resolve_category (NInt <$> mapping) groups st cat = Some st.
Proof.
  rewrite resolved_cons. intros Hr Hv. destruct st as [matched used].
  unfold resolve_category. rewrite lookup_fmap.
  destruct (mapping !! No cat) as [v|] eqn:Hm; [|done].
  cbn [fmap option_fmap option_map number_lt].
  case_bool_decide as Hlt; [|done].
  pose proof (Hv _ _ Hm) as Hge. simpl in Hge.
  destruct (lookup_lt_is_Some_2 groups (Z.to_nat v)) as [g Hg]; [lia|].
  by rewrite Hg in Hr.
Qed.

Lemma resolve_category_keep mapping groups matched used cat v m :
  resolved mapping groups [cat] = [(v, m)] → validated mapping →
  resolve_category (NInt <$> mapping) groups (matched, used) cat
  = Some (matched ++ [m], {[v]} ∪ used).
Proof.
  rewrite resolved_cons. intros Hr Hv. unfold resolve_category.
  rewrite lookup_fmap.
  destruct (mapping !! No cat) as [v'|] eqn:Hm; [|done].
  cbn [fmap option_fmap option_map number_lt].
  case_bool_decide as Hlt; [|done].
  pose proof (Hv _ _ Hm) as Hge. simpl in Hge.
  rewrite py_index_nonneg by done.
  destruct (groups !! Z.to_nat v') as [g|]; [|done].
  by simplify_eq/=.
Qed.

Lemma resolved_app mapping groups cats1 cats2 :
  resolved mapping groups (cats1 ++ cats2)
  = resolved mapping groups cats1 ++ resolved mapping groups cats2.
Proof. apply omap_app. Qed.

Lemma resolved_single mapping groups cat :
  resolved mapping groups [cat] = []
  ∨ ∃ v m, resolved mapping groups [cat] = [(v, m)].
Proof.
  rewrite resolved_cons. destruct (mapping !! No cat) as [v|]; [|by left].
  case_bool_decide; [|by left].
  destruct (groups !! Z.to_nat v) as [g|]; [|by left]. right. eauto.
Qed.

Lemma resolve_fold mapping groups cats matched used :
  validated mapping →
  foldM (resolve_category (NInt <$> mapping) groups) (matched, used) cats
  = Some (matched ++ (resolved mapping groups cats).*2,
          list_to_set (resolved mapping groups cats).*1 ∪ used).
Proof.
  intros Hv. revert matched used.
  induction cats as [|cat cats IH]; intros matched used.
  - simpl. rewrite app_nil_r. f_equal. f_equal. set_solver.
  - change (cat :: cats) with ([cat] ++ cats). rewrite resolved_app.
    cbn [foldM app].
    destruct (resolved_single mapping groups cat) as [Hr|(v & m & Hr)]; rewrite Hr.
    + rewrite resolve_category_skip by done. apply IH.
    + erewrite resolve_category_keep by done. cbn [mbind option_bind].
      rewrite IH. cbn [app fmap list_fmap fst snd list_to_set].
      f_equal. f_equal.
      * by rewrite <- app_assoc.
      * set_solver.
Qed.

Lemma resolved_elem mapping groups cats t m :
  validated mapping →
  (t, m) ∈ resolved mapping groups cats →
  (0 ≤ t < Z.of_nat (length groups))%Z
  ∧ groups !! Z.to_nat t = Some m.2
  ∧ ∃ cat, cat ∈ cats ∧ mapping !! No cat = Some t
           ∧ m = (No cat, MainCategory cat, m.2).
Proof.
  intros Hv Hin. apply list_elem_of_omap in Hin as (cat & Hcat & Hf).
  destruct (mapping !! No cat) as [v|] eqn:Hm; simpl in Hf; [|done].
  case_bool_decide as Hlt; [|done].
  destruct (groups !! Z.to_nat v) as [g|] eqn:Hg; simplify_eq/=.
  pose proof (Hv _ _ Hm) as Hge. simpl in Hge.
  repeat split; [lia|lia|done|]. by exists cat.
Qed.

Lemma elem_of_enumerate {A} (l : list A) i x :
  (i, x) ∈ enumerate l ↔ l !! i = Some x.
Proof.
  unfold enumerate. rewrite (elem_of_lookup_zip_with pair). split.
  - intros (j & a & b & Heq & Hseq & Hl). apply lookup_seq in Hseq as [-> _].
    by simplify_eq/=.
  - intros Hl. exists i, i, x. split; [done|]. split; [|done].
    apply lookup_seq. split; [done|]. by eapply lookup_lt_Some.
Qed.

Lemma enumerate_fst {A} (l : list A) : (enumerate l).*1 = seq 0 (length l).
Proof. unfold enumerate. apply fst_zip. by rewrite length_seq. Qed.

Lemma enumerate_snd {A} (l : list A) : (enumerate l).*2 = l.
Proof. unfold enumerate. apply snd_zip. by rewrite length_seq. Qed.

Lemma enumerate_NoDup {A} (l : list A) : NoDup (enumerate l).
Proof. apply (NoDup_fmap_1 fst). rewrite enumerate_fst. apply NoDup_seq. Qed.

(** Distinct resolved indices: the matched groups and the unused groups
    together are the groups, each once. *)
Lemma matched_unused_perm (groups : list Group) (rs : list (Z * Match)) :
  NoDup rs.*1 →
  (∀ t m, (t, m) ∈ rs → (0 ≤ t)%Z ∧ groups !! Z.to_nat t = Some m.2) →
  rs.*2.*2 ++ unused_of groups (list_to_set rs.*1) ≡ₚ groups.
Proof.
  intros Hnd Hrs. unfold unused_of.
  set (used := list_to_set rs.*1 : gset Z).
  set (en := enumerate groups).
  set (mp := (λ r : Z * Match, (Z.to_nat r.1, r.2.2)) <$> rs).
  assert (Hmp2 : mp.*2 = rs.*2.*2).
  { unfold mp. rewrite <- !list_fmap_compose. by apply list_fmap_ext. }
  assert (Hmp1 : mp.*1 = Z.to_nat <$> rs.*1).
  { unfold mp. rewrite <- !list_fmap_compose. by apply list_fmap_ext. }
  assert (Hperm : mp ≡ₚ filter (λ it : nat * Group, ¬ (Z.of_nat it.1 ∉ used)) en).
  { apply NoDup_Permutation.
    - apply (NoDup_fmap_1 fst). rewrite Hmp1.
      apply NoDup_fmap_2_strong; [|done].
      intros x y Hx Hy Hxy.
      apply list_elem_of_fmap in Hx as ([t m] & -> & Hx).
      apply list_elem_of_fmap in Hy as ([t' m'] & -> & Hy).
      destruct (Hrs _ _ Hx) as [? _], (Hrs _ _ Hy) as [? _]. simpl in *. lia.
    - apply NoDup_filter, enumerate_NoDup.
    - intros [i g]. rewrite list_elem_of_filter. unfold en.
      rewrite elem_of_enumerate. unfold mp. rewrite list_elem_of_fmap. split.
      + intros ([t m] & Heq & Hin). simplify_eq/=.
        destruct (Hrs _ _ Hin) as [Ht Hg]. split; [|done].
        intros Hnot. apply Hnot. unfold used. apply elem_of_list_to_set.
        apply list_elem_of_fmap. exists (t, m). split; [|done]. simpl. lia.
      + intros [Hused Hg]. apply dec_stable in Hused. unfold used in Hused.
        apply elem_of_list_to_set, list_elem_of_fmap in Hused as ([t m] & Ht & Hin).
        simpl in Ht. subst t. destruct (Hrs _ _ Hin) as [_ Hg'].
        rewrite Nat2Z.id in Hg'. exists (Z.of_nat i, m). split; [|done].
        simpl. rewrite Nat2Z.id. congruence. }
  rewrite <- Hmp2, <- fmap_app, Hperm.
  rewrite (Permutation_app_comm (filter _ _)), filter_app_complement.
  unfold en. by rewrite enumerate_snd.
Qed.

Lemma group_positions n groups g idx :
  partitions n groups → g ∈ groups → idx ∈ slides g →
  FIXED_SLIDES ≤ idx < n.
Proof.
  intros [Hcover _] Hg Hidx.
  assert (H : idx ∈ seq FIXED_SLIDES (n - FIXED_SLIDES)).
  { rewrite <- Hcover. apply list_elem_of_In, in_concat. exists (slides g).
    split; apply list_elem_of_In; [|done]. by apply list_elem_of_fmap_2. }
  apply elem_of_seq in H. lia.
Qed.

Lemma group_head n groups g :
  partitions n groups → g ∈ groups →
  ∃ i, head (slides g) = Some i ∧ i ∈ slides g ∧ i < n.
Proof.
  intros Hpart Hg. pose proof (proj2 Hpart) as Hne.
  rewrite Forall_forall in Hne. specialize (Hne g Hg).
  destruct (slides g) as [|i rest] eqn:Hs; [done|].
  exists i. split; [done|]. split; [left|].
  pose proof (group_positions n groups g i Hpart Hg) as Hb.
  rewrite Hs in Hb. specialize (Hb (list_elem_of_here _ _)). lia.
Qed.

Lemma place_group_eq prs order no name g i slide :
  head (slides g) = Some i → prs !! i = Some slide →
  place_group (prs, order) (no, name, g)
  = Some (<[i := (update_slide_title slide (new_title_of no name)).1]> prs,
          order ++ slides g).
Proof. intros Hi Hs. unfold place_group. rewrite Hi. simpl. by rewrite Hs. Qed.

Lemma place_fold (ms : list Match) prs order :
  Forall (λ m : Match, ∃ i, head (slides m.2) = Some i ∧ i < length prs) ms →
  ∃ prs', foldM place_group (prs, order) ms
          = Some (prs', order ++ concat (slides <$> ms.*2))
          ∧ length prs' = length prs.
Proof.
  revert prs order. induction ms as [|[[no name] g] ms IH]; intros prs order Hms.
  - exists prs. simpl. by rewrite app_nil_r.
  - apply Forall_cons in Hms as [(i & Hi & Hlt) Hms]. simpl in Hi.
    destruct (lookup_lt_is_Some_2 prs i Hlt) as [slide Hslide].
    cbn [foldM].
    rewrite (place_group_eq prs order no name g i slide Hi Hslide).
    cbn [mbind option_bind].
    edestruct (IH (<[i := (update_slide_title slide (new_title_of no name)).1]> prs)
                 (order ++ slides g)) as (prs' & Hrun & Hlen).
    { rewrite length_insert. done. }
    exists prs'. rewrite Hrun. split.
    + simpl. by rewrite <- app_assoc.
    + by rewrite Hlen, length_insert.
Qed.

Lemma sldIdLst_append_fresh xml el : el ∉ xml → sldIdLst_append xml el = xml ++ [el].
Proof.
  intros Hel. unfold sldIdLst_append. f_equal.
  induction xml as [|x xml IH]; [done|].
  apply not_elem_of_cons in Hel as [Hne Hel].
  rewrite filter_cons_True by done. by rewrite IH.
Qed.

Lemma append_original_lt total xml idx :
  idx < total → append_original total xml idx = Some (sldIdLst_append xml idx).
Proof. intros. unfold append_original. by rewrite bool_decide_eq_true_2. Qed.

Lemma append_fold_total total order xml :
  Forall (λ idx, idx < total) order →
  is_Some (foldM (append_original total) xml order).
Proof.
  revert xml. induction order as [|idx order IH]; intros xml Hall; cbn [foldM].
  - by eexists.
  - apply Forall_cons in Hall as [Hidx Hall].
    rewrite append_original_lt by done. by apply IH.
Qed.

Lemma append_fold_nodup total order xml :
  Forall (λ idx, idx < total) order → NoDup (xml ++ order) →
  foldM (append_original total) xml order = Some (xml ++ order).
Proof.
  revert xml. induction order as [|idx order IH]; intros xml Hall Hnd; cbn [foldM].
  - by rewrite app_nil_r.
  - apply Forall_cons in Hall as [Hidx Hall].
    rewrite append_original_lt by done. cbn [mbind option_bind].
    rewrite sldIdLst_append_fresh.
    + rewrite IH; [by rewrite <- app_assoc|done|by rewrite <- app_assoc].
    + apply NoDup_app in Hnd as (_ & Hdisj & _). intros Hin.
      apply (Hdisj idx Hin). left.
Qed.

Lemma unused_of_elem groups used g : g ∈ unused_of groups used → g ∈ groups.
Proof.
  unfold unused_of. intros Hg.
  apply list_elem_of_fmap in Hg as ([i g'] & -> & Hin).
  apply list_elem_of_filter in Hin as [_ Hin].
  apply elem_of_enumerate in Hin. by eapply list_elem_of_lookup_2.
Qed.

Lemma resolved_group_elem mapping groups cats m :
  validated mapping → m ∈ (resolved mapping groups cats).*2 → m.2 ∈ groups.
Proof.
  intros Hv Hm. apply list_elem_of_fmap in Hm as ([t m'] & -> & Hin).
  destruct (resolved_elem _ _ _ _ _ Hv Hin) as (_ & Hg & _).
  by eapply list_elem_of_lookup_2.
Qed.

Lemma concat_slides_bound n groups (gs : list Group) :
  partitions n groups → (∀ g, g ∈ gs → g ∈ groups) →
  Forall (λ idx, idx < n) (concat (slides <$> gs)).
Proof.
  intros Hpart Hgs. apply Forall_forall. intros idx Hidx.
  apply list_elem_of_In, in_concat in Hidx as (l & Hl & Hidx).
  apply list_elem_of_In, list_elem_of_fmap in Hl as (g & -> & Hg).
  apply list_elem_of_In in Hidx.
  pose proof (group_positions n groups g idx Hpart (Hgs g Hg) Hidx). lia.
Qed.

(** With a validated mapping, over groups that partition the content
    positions, the reordering runs to its end, and this is what it
    computes. *)
Lemma reorder_run cats (prs : list Slide) groups mapping :
  validated mapping → FIXED_SLIDES ≤ length prs →
  partitions (length prs) groups →
  ∃ prs' xml,
    let rs := resolved mapping groups cats in
    let matched := sort_by (λ m : Match, m.1.1) rs.*2 in
    let unused := unused_of groups (list_to_set rs.*1) in
    let order := (seq 0 FIXED_SLIDES ++ concat (slides <$> matched.*2))
                 ++ concat (slides <$> unused) in
    reorder cats groups (NInt <$> mapping) prs
      = Some (mkReordered prs' order xml matched unused)
    ∧ length prs' = length prs
    ∧ foldM place_group (prs, seq 0 FIXED_SLIDES) matched
      = Some (prs', seq 0 FIXED_SLIDES ++ concat (slides <$> matched.*2))
    ∧ foldM (append_original (length prs)) [] order = Some xml.
Proof.
  intros Hv Hlen Hpart.
  set (rs := resolved mapping groups cats).
  set (matched := sort_by (λ m : Match, m.1.1) rs.*2).
  set (unused := unused_of groups (list_to_set rs.*1)).
  destruct (place_fold matched prs (seq 0 FIXED_SLIDES)) as (prs' & Hplace & Hlen').
  { apply Forall_forall. intros m Hm.
    assert (Hm' : m ∈ rs.*2) by (by rewrite <- (sort_by_perm (λ m : Match, m.1.1))).
    apply (resolved_group_elem _ _ _ _ Hv) in Hm'.
    destruct (group_head _ _ _ Hpart Hm') as (i & Hi & _ & Hlt). eauto. }
  set (order := (seq 0 FIXED_SLIDES ++ concat (slides <$> matched.*2))
                ++ concat (slides <$> unused)).
  destruct (append_fold_total (length prs) order []) as [xml Hxml].
  { unfold order. rewrite !Forall_app. repeat split.
    - apply Forall_forall. intros idx Hidx. apply elem_of_seq in Hidx. lia.
    - apply (concat_slides_bound _ groups); [done|]. intros g Hg.
      apply list_elem_of_fmap in Hg as (m & -> & Hm).
      apply (resolved_group_elem mapping groups cats); [done|].
      by rewrite <- (sort_by_perm (λ m : Match, m.1.1)).
    - apply (concat_slides_bound _ groups); [done|].
      intros g Hg. by eapply unused_of_elem. }
  exists prs', xml. cbn zeta. repeat split; [|done..].
  unfold reorder. rewrite resolve_fold by done. cbn [mbind option_bind app].
  rewrite (right_id_L ∅ (∪)).
  fold rs matched unused. rewrite Hplace. cbn [mbind option_bind].
  fold order. rewrite Hxml. reflexivity.
Qed.

Lemma foldM_app {S A} (body : S → A → option S) st l k :
  foldM body st (l ++ k) = st' ← foldM body st l; foldM body st' k.
Proof.
  revert st. induction l as [|x l IH]; intros st; [done|]. cbn [foldM app].
  destruct (body st x) as [st1|]; [|done]. cbn [mbind option_bind]. apply IH.
Qed.

Lemma sldIdLst_append_elem xml el x :
  x ∈ sldIdLst_append xml el ↔ x ∈ xml ∨ x = el.
Proof.
  unfold sldIdLst_append.
  rewrite elem_of_app, list_elem_of_filter, list_elem_of_singleton.
  destruct (decide (x = el)); tauto.
Qed.

Lemma sldIdLst_append_NoDup xml el : NoDup xml → NoDup (sldIdLst_append xml el).
Proof.
  intros H. unfold sldIdLst_append. apply NoDup_app.
  split; [by apply NoDup_filter|]. split; [|apply NoDup_singleton].
  intros x [Hne _]%list_elem_of_filter ->%list_elem_of_singleton. done.
Qed.

(** Appending never moves what stands in front of the list unless it is
    appended itself. *)
Lemma sldIdLst_append_front front xml el :
  el ∉ front → sldIdLst_append (front ++ xml) el = front ++ sldIdLst_append xml el.
Proof.
  intros Hel. unfold sldIdLst_append. rewrite filter_app, <- app_assoc. f_equal.
  induction front as [|x front IH]; [done|].
  apply not_elem_of_cons in Hel as [Hne Hel].
  rewrite filter_cons_True by done. by rewrite IH.
Qed.

Lemma append_fold_spec total order xml xml' :
  foldM (append_original total) xml order = Some xml' →
  NoDup xml →
  NoDup xml'
  ∧ Forall (λ idx, idx < total) order
  ∧ ∀ x, x ∈ xml' ↔ x ∈ xml ∨ x ∈ order.
Proof.
  revert xml. induction order as [|idx order IH]; intros xml Hrun Hnd; cbn [foldM] in Hrun.
  - simplify_eq. split; [done|]. split; [constructor|]. intros x.
    rewrite elem_of_nil. tauto.
  - unfold append_original in Hrun at 2. case_bool_decide as Hlt; [|done].
    cbn [mbind option_bind] in Hrun.
    destruct (IH _ Hrun) as (Hnd' & Hall & Hel); [by apply sldIdLst_append_NoDup|].
    split; [done|]. split; [by constructor|]. intros x.
    rewrite Hel, sldIdLst_append_elem, elem_of_cons. tauto.
Qed.

Lemma append_fold_front total order front xml xml' :
  foldM (append_original total) (front ++ xml) order = Some xml' →
  (∀ idx, idx ∈ order → idx ∉ front) →
  ∃ rest, xml' = front ++ rest.
Proof.
  revert xml. induction order as [|idx order IH]; intros xml Hrun Hfree; cbn [foldM] in Hrun.
  - simplify_eq. by eexists.
  - unfold append_original in Hrun at 2. case_bool_decide as Hlt; [|done].
    cbn [mbind option_bind] in Hrun.
    rewrite sldIdLst_append_front in Hrun by (apply Hfree; left).
    eapply IH; [done|]. intros idx' Hidx'. apply Hfree. by right.
Qed.

(** Every group is among the unused ones or was resolved by a category. *)
Lemma unused_or_resolved mapping groups cats g :
  validated mapping → g ∈ groups →
  g ∈ unused_of groups (list_to_set (resolved mapping groups cats).*1)
  ∨ g ∈ (resolved mapping groups cats).*2.*2.
Proof.
  intros Hv Hg. apply list_elem_of_lookup in Hg as [i Hi].
  set (used := list_to_set (resolved mapping groups cats).*1 : gset Z).
  destruct (decide (Z.of_nat i ∈ used)) as [Hused|Hfree].
  - right. unfold used in Hused.
    apply elem_of_list_to_set, list_elem_of_fmap in Hused as ([t m] & Ht & Hin).
    simpl in Ht. subst t.
    destruct (resolved_elem _ _ _ _ _ Hv Hin) as (_ & Hlook & _).
    rewrite Nat2Z.id in Hlook.
    apply list_elem_of_fmap. exists m. split; [congruence|].
    apply list_elem_of_fmap. by exists (Z.of_nat i, m).
  - left. unfold unused_of. apply list_elem_of_fmap. exists (i, g). split; [done|].
    apply list_elem_of_filter. split; [done|]. by apply elem_of_enumerate.
Qed.

(** What a completed reordering saves, whatever the mapping. *)
Lemma reorder_saved cats (prs : list Slide) groups mapping r :
  validated mapping → FIXED_SLIDES ≤ length prs →
  partitions (length prs) groups →
  reorder cats groups (NInt <$> mapping) prs = Some r →
  saved_sequence r ≡ₚ seq 0 (length prs)
  ∧ NoDup (saved_sequence r)
  ∧ take FIXED_SLIDES (saved_sequence r) = seq 0 FIXED_SLIDES.
Proof.
  intros Hv Hlen Hpart Hr.
  destruct (reorder_run cats prs groups mapping Hv Hlen Hpart)
    as (prs' & xml & Hrun & _ & _ & Hxml).
  cbn zeta in Hrun, Hxml. rewrite Hr in Hrun. injection Hrun as ->.
  cbn [saved_sequence].
  set (rs := resolved mapping groups cats) in *.
  set (matched := sort_by (λ m : Match, m.1.1) rs.*2) in *.
  set (unused := unused_of groups (list_to_set rs.*1)) in *.
  destruct (append_fold_spec _ _ _ _ Hxml (NoDup_nil_2))
    as (Hnd & Hall & Hel).
  assert (Hperm : xml ≡ₚ seq 0 (length prs)).
  { apply NoDup_Permutation; [done|apply NoDup_seq|]. intros x.
    rewrite Hel, elem_of_seq. split.
    - intros [[]%elem_of_nil|Hx]. rewrite Forall_forall in Hall.
      specialize (Hall x Hx). lia.
    - intros [_ Hx]. right. rewrite !elem_of_app.
      destruct (decide (x < FIXED_SLIDES)) as [Hlo|Hhi].
      { left. left. apply elem_of_seq. lia. }
      assert (Hin : x ∈ concat (slides <$> groups)).
      { rewrite (proj1 Hpart). apply elem_of_seq. lia. }
      apply list_elem_of_In, in_concat in Hin as (l & Hl & Hx').
      apply list_elem_of_In, list_elem_of_fmap in Hl as (g & -> & Hg).
      destruct (unused_or_resolved mapping groups cats g Hv Hg) as [Hu|Hm].
      + right. apply list_elem_of_In, in_concat. exists (slides g).
        split; [|done]. apply list_elem_of_In. by apply list_elem_of_fmap_2.
      + left. right. apply list_elem_of_In, in_concat. exists (slides g).
        split; [|done]. apply list_elem_of_In, list_elem_of_fmap_2.
        unfold matched. by rewrite (sort_by_perm (λ m : Match, m.1.1)). }
  split; [done|]. split; [done|].
  rewrite <- !app_assoc in Hxml. rewrite foldM_app in Hxml.
  destruct (foldM (append_original (length prs)) [] (seq 0 FIXED_SLIDES))
    as [front|] eqn:Hfront; [|done].
  cbn [mbind option_bind] in Hxml.
  assert (front = seq 0 FIXED_SLIDES) as ->.
  { rewrite append_fold_nodup in Hfront.
    - by simplify_eq/=.
    - apply Forall_forall. intros x Hx%elem_of_seq. lia.
    - apply NoDup_seq. }
  rewrite <- (app_nil_r (seq 0 FIXED_SLIDES)) in Hxml at 1.
  apply append_fold_front in Hxml as [rest ->].
  - by rewrite take_app_length' by done.
  - intros idx Hidx Hfr. apply elem_of_seq in Hfr.
    apply elem_of_app in Hidx as [Hidx|Hidx];
      apply list_elem_of_In, in_concat in Hidx as (l & Hl & Hx');
      apply list_elem_of_In, list_elem_of_fmap in Hl as (g & -> & Hg);
      apply list_elem_of_In in Hx'.
    + assert (g ∈ groups).
      { apply list_elem_of_fmap in Hg as (m & -> & Hm).
        apply (resolved_group_elem mapping groups cats); [done|].
        unfold matched in Hm. by rewrite (sort_by_perm (λ m : Match, m.1.1)) in Hm. }
      pose proof (group_positions _ _ _ _ Hpart H Hx'). lia.
    + assert (g ∈ groups) by (by eapply unused_of_elem).
      pose proof (group_positions _ _ _ _ Hpart H Hx'). lia.
Qed.

(** A mapping with [float]s: the loop raises when a category's entry is a
    [float] below the number of groups, and is otherwise the loop of the
    mapping's [int] entries. *)
Lemma lookup_ints mapping k :
  ints mapping !! k = mapping !! k ≫= number_int.
Proof. unfold ints. apply lookup_omap. Qed.

Lemma ints_fmap (mapping : gmap Z Z) : ints (NInt <$> mapping) = mapping.
Proof.
  apply map_eq. intros k. rewrite lookup_ints, lookup_fmap.
  by destruct (mapping !! k).
Qed.

Lemma float_in_range_fmap (mapping : gmap Z Z) n cat :
  float_in_range (NInt <$> mapping) n cat = false.
Proof.
  unfold float_in_range. rewrite lookup_fmap. by destruct (mapping !! No cat).
Qed.

Lemma no_float_in_range_fmap (mapping : gmap Z Z) n cats :
  existsb (float_in_range (NInt <$> mapping) n) cats = false.
Proof.
  induction cats as [|cat cats IH]; [done|].
  cbn [existsb]. by rewrite float_in_range_fmap, IH.
Qed.

Lemma checked_ints mapping : checked mapping → validated (ints mapping).
Proof.
  intros Hc k v Hk. rewrite lookup_ints in Hk.
  destruct (mapping !! k) as [[n|x]|] eqn:Hm; simplify_eq/=.
  specialize (Hc _ _ Hm). cbn in Hc. by apply bool_decide_eq_true in Hc.
Qed.

Lemma checked_fmap (mapping : gmap Z Z) :
  validated mapping → checked (NInt <$> mapping).
Proof.
  intros Hv k v Hk. rewrite lookup_fmap in Hk.
  destruct (mapping !! k) as [n|] eqn:Hm; simplify_eq/=.
  apply bool_decide_eq_true. exact (Hv _ _ Hm).
Qed.

Lemma resolve_category_ints mapping groups st cat :
  resolve_category mapping groups st cat
  = if float_in_range mapping (length groups) cat then None
    else resolve_category (NInt <$> ints mapping) groups st cat.
Proof.
  destruct st as [matched used].
  unfold resolve_category, float_in_range.
  rewrite lookup_fmap, lookup_ints.
  destruct (mapping !! No cat) as [[n|x]|]; cbn; [done| |done].
  by destruct (float_lt x (Z.of_nat (length groups))).
Qed.

Lemma resolve_fold_ints mapping groups st cats :
  foldM (resolve_category mapping groups) st cats
  = if existsb (float_in_range mapping (length groups)) cats then None
    else foldM (resolve_category (NInt <$> ints mapping) groups) st cats.
Proof.
  revert st. induction cats as [|cat cats IH]; intros st; [done|].
  cbn [foldM existsb]. rewrite resolve_category_ints.
  destruct (float_in_range mapping (length groups) cat); [done|].
  cbn [orb].
  destruct (resolve_category (NInt <$> ints mapping) groups st cat) as [st'|];
    cbn [mbind option_bind]; [apply IH|].
  by destruct (existsb _ cats).
Qed.

Lemma reorder_ints cats groups mapping prs :
  reorder cats groups mapping prs
  = if existsb (float_in_range mapping (length groups)) cats then None
    else reorder cats groups (NInt <$> ints mapping) prs.
Proof.
  unfold reorder. rewrite resolve_fold_ints.
  by destruct (existsb _ cats).
Qed.

Lemma reorder_completed cats groups mapping prs r :
  reorder cats groups mapping prs = Some r →
  reorder cats groups (NInt <$> ints mapping) prs = Some r.
Proof.
  rewrite reorder_ints. by destruct (existsb _ cats).
Qed.

(** C1.  For every deck with more than [FIXED_SLIDES] slides, grouped by
    either program, and every mapping without a negative index (two
    categories may map to the same group index), the reordering runs to
    its end unless a category's entry is a [float] below the number of
    groups, and the slide order it produces, the sequence that is saved,
    is a permutation of the original positions, of the same length, every
    position once, with the first [FIXED_SLIDES] positions unchanged.  A
    mapping of [int]s holds no [float], so with it the run always
    completes. *)
Theorem C1_reorder_permutation (cats : list Category) (deck : list Slide)
    (groups : list Group) (mapping : gmap Z Number) :
  FIXED_SLIDES < length deck →
  groups = slide_groups deck ∨ groups = App.slide_groups deck →
  checked mapping →
  (existsb (float_in_range mapping (length groups)) cats = false →
   ∃ r, reorder cats groups mapping deck = Some r)
  ∧ (∀ ints_only : gmap Z Z, mapping = NInt <$> ints_only →
       ∃ r, reorder cats groups mapping deck = Some r)
  ∧ ∀ r, reorder cats groups mapping deck = Some r →
         saved_sequence r ≡ₚ seq 0 (length deck)
         ∧ length (saved_sequence r) = length deck
         ∧ NoDup (saved_sequence r)
         ∧ take FIXED_SLIDES (saved_sequence r) = seq 0 FIXED_SLIDES.
Proof.
  intros Hlen Hgroups Hc.
  assert (Hpart : partitions (length deck) groups).
  { destruct Hgroups as [-> | ->];
      [apply slide_groups_partitions|apply app_slide_groups_partitions]. }
  pose proof (checked_ints _ Hc) as Hv.
  assert (Hruns : existsb (float_in_range mapping (length groups)) cats = false →
                  ∃ r, reorder cats groups mapping deck = Some r).
  { intros Hfree. rewrite reorder_ints, Hfree.
    destruct (reorder_run cats deck groups (ints mapping) Hv)
      as (prs' & xml & Hrun & _); [lia|done|]. eauto. }
  split; [done|]. split.
  { intros ints_only ->. apply Hruns, no_float_in_range_fmap. }
  intros r Hr%reorder_completed.
  destruct (reorder_saved cats deck groups (ints mapping) r Hv) as (Hperm & Hnd & Htake);
    [lia|done|done|].
  split; [done|]. split; [|done].
  apply Permutation_length in Hperm. by rewrite Hperm, length_seq.
Qed.

Lemma C1_reorder_permutation_witness :
  (existsb (float_in_range (NInt <$> same_target_mapping)
              (length (slide_groups deck4))) two_cats = false →
   ∃ r, reorder two_cats (slide_groups deck4) (NInt <$> same_target_mapping) deck4
        = Some r)
  ∧ (∀ ints_only : gmap Z Z, NInt <$> same_target_mapping = NInt <$> ints_only →
       ∃ r, reorder two_cats (slide_groups deck4) (NInt <$> same_target_mapping)
              deck4 = Some r)
  ∧ ∀ r, reorder two_cats (slide_groups deck4) (NInt <$> same_target_mapping) deck4
         = Some r →
         saved_sequence r ≡ₚ seq 0 (length deck4)
         ∧ length (saved_sequence r) = length deck4
         ∧ NoDup (saved_sequence r)
         ∧ take FIXED_SLIDES (saved_sequence r) = seq 0 FIXED_SLIDES.
Proof.
  apply (C1_reorder_permutation two_cats deck4 (slide_groups deck4)
           (NInt <$> same_target_mapping)).
  - vm_compute. lia.
  - left. reflexivity.
  - apply checked_fmap. unfold validated, same_target_mapping.
    repeat (apply map_Forall_insert_2; [lia|]). apply map_Forall_empty.
Defined.

(** ** Matching and the whole run *)

Lemma mapping_entry_checked mapping item mapping' :
  checked mapping → mapping_entry mapping item = Some mapping' →
  checked mapping'.
Proof.
  unfold mapping_entry. intros Hv Hstep.
  destruct (py_int item.1) as [k|]; [|done].
  destruct (json_number item.2) as [v|]; [|done].
  simpl in Hstep. destruct (number_ge_0 v) eqn:Hge; simplify_eq; [|done].
  by apply map_Forall_insert_2.
Qed.

Lemma mapping_loop_checked members mapping mapping' :
  checked mapping → foldM mapping_entry mapping members = Some mapping' →
  checked mapping'.
Proof.
  revert mapping. induction members as [|item members IH]; intros mapping Hv Hrun.
  - by simplify_eq/=.
  - cbn [foldM] in Hrun.
    destruct (mapping_entry mapping item) as [mapping1|] eqn:Hstep; [|done].
    eapply IH; [|exact Hrun]. by eapply mapping_entry_checked.
Qed.

(** Negative indices never enter the mapping. *)
Lemma create_matching_checked model cats groups :
  checked (create_matching_with_ai model cats groups).
Proof.
  unfold create_matching_with_ai.
  destruct (model cats groups) as [[| | | | | |members]|];
    try apply map_Forall_empty.
  destruct (foldM mapping_entry ∅ members) as [mapping|] eqn:Hrun;
    [|apply map_Forall_empty].
  eapply mapping_loop_checked; [|exact Hrun]. apply map_Forall_empty.
Qed.

Lemma create_matching_validated model cats groups :
  validated (ints (create_matching_with_ai model cats groups)).
Proof. apply checked_ints, create_matching_checked. Qed.

Lemma populate_toc_deck prs cats i :
  (populate_toc prs cats i).1 = prs
  ∨ ∃ s, (populate_toc prs cats i).1 = <[i := s]> prs.
Proof.
  unfold populate_toc. destruct (prs !! i) as [toc|]; [|by left].
  destruct (foldM toc_candidate _ _) as [[[j|] a]|]; [|by left..].
  right. by eexists.
Qed.

Lemma slide_groups_insert_anchor (prs : list Slide) i s :
  i < FIXED_SLIDES → slide_groups (<[i := s]> prs) = slide_groups prs.
Proof.
  intros Hi. unfold slide_groups, slides_from.
  by rewrite length_insert, drop_insert_lt.
Qed.

Lemma slide_groups_populate_toc prs cats :
  slide_groups (populate_toc prs cats 1).1 = slide_groups prs.
Proof.
  destruct (populate_toc_deck prs cats 1) as [->|[s ->]]; [done|].
  apply slide_groups_insert_anchor. unfold FIXED_SLIDES. lia.
Qed.

Lemma populate_toc_length prs cats i :
  length (populate_toc prs cats i).1 = length prs.
Proof.
  destruct (populate_toc_deck prs cats i) as [->|[s ->]]; [done|].
  apply length_insert.
Qed.

(** The four ways [process_pptx] ends.  It raises when a category's entry
    in the mapping is a [float] below the number of groups; a run that is
    saved is the reordering by the [int] entries of the mapping. *)
Lemma process_pptx_cases model cats deck :
  let prs := (populate_toc deck cats 1).1 in
  let groups := slide_groups deck in
  let mapping := create_matching_with_ai model cats groups in
  (length deck ≤ FIXED_SLIDES ∧ process_pptx model cats deck = TooFewSlides)
  ∨ (FIXED_SLIDES < length deck ∧ mapping = ∅
     ∧ process_pptx model cats deck = MatchingFailed)
  ∨ (FIXED_SLIDES < length deck ∧ mapping ≠ ∅
     ∧ existsb (float_in_range mapping (length groups)) cats = true
     ∧ process_pptx model cats deck = Raised)
  ∨ (FIXED_SLIDES < length deck ∧ mapping ≠ ∅
     ∧ existsb (float_in_range mapping (length groups)) cats = false
     ∧ ∃ r, process_pptx model cats deck = Saved r
            ∧ reorder cats groups (NInt <$> ints mapping) prs = Some r).
Proof.
  cbn zeta. unfold process_pptx. case_bool_decide as Hlen; [by left|].
  right. rewrite slide_groups_populate_toc.
  case_bool_decide as Hempty; [left; split; [lia|done]|].
  right. rewrite reorder_ints.
  destruct (existsb _ cats) eqn:Hfloat; [left; split; [lia|done]|].
  right. split; [lia|]. split; [done|]. split; [done|].
  destruct (reorder_run cats (populate_toc deck cats 1).1 (slide_groups deck)
              (ints (create_matching_with_ai model cats (slide_groups deck))))
    as (prs' & xml & Hrun & _).
  { apply create_matching_validated. }
  { rewrite populate_toc_length. lia. }
  { rewrite populate_toc_length. apply slide_groups_partitions. }
  cbn zeta in Hrun. rewrite Hrun. by eexists.
Qed.

(** A run of [main.py] that is saved, as a reordering by [int]s. *)
Lemma process_pptx_saved model cats deck r :
  process_pptx model cats deck = Saved r →
  let prs := (populate_toc deck cats 1).1 in
  let groups := slide_groups deck in
  let mapping := create_matching_with_ai model cats groups in
  FIXED_SLIDES < length deck ∧ mapping ≠ ∅
  ∧ existsb (float_in_range mapping (length groups)) cats = false
  ∧ reorder cats groups (NInt <$> ints mapping) prs = Some r.
Proof.
  intros Hsaved. cbn zeta.
  destruct (process_pptx_cases model cats deck)
    as [[_ H]|[(_ & _ & H)|[(_ & _ & _ & H)|(? & ? & ? & r' & H & Hrun)]]];
    rewrite H in Hsaved; simplify_eq. done.
Qed.

Lemma float_in_range_exists mapping n cats :
  existsb (float_in_range mapping n) cats = true
  ↔ ∃ cat x, cat ∈ cats ∧ mapping !! No cat = Some (NFloat x)
             ∧ float_lt x (Z.of_nat n) = true.
Proof.
  rewrite existsb_exists. unfold float_in_range. split.
  - intros (cat & Hin%list_elem_of_In & H).
    destruct (mapping !! No cat) as [[i|x]|] eqn:Hm; try done. eauto.
  - intros (cat & x & Hin%list_elem_of_In & Hm & Hlt). exists cat.
    by rewrite Hm.
Qed.

(** An entry whose index is not below the number of groups plays no part
    in the reordering. *)
Lemma resolve_category_below mapping groups st cat :
  resolve_category mapping groups st cat
  = resolve_category (below (length groups) mapping) groups st cat.
Proof.
  destruct st as [matched used]. unfold resolve_category, below.
  destruct (mapping !! No cat) as [v|] eqn:Hm.
  - destruct (number_lt v (Z.of_nat (length groups))) eqn:Hlt.
    + erewrite map_lookup_filter_Some_2; [|done..]. by rewrite Hlt.
    + rewrite map_lookup_filter_None_2; [done|]. right. intros v' Hv'.
      simplify_eq. cbn. by rewrite Hlt.
  - rewrite map_lookup_filter_None_2; [done|]. by left.
Qed.

Lemma reorder_below cats groups mapping prs :
  reorder cats groups mapping prs
  = reorder cats groups (below (length groups) mapping) prs.
Proof.
  unfold reorder. f_equal.
  generalize (([], ∅) : list Match * gset Z).
  induction cats as [|cat cats IH]; intros st; [done|].
  cbn [foldM]. rewrite <- resolve_category_below.
  destruct (resolve_category mapping groups st cat) as [st'|]; [|done].
  apply IH.
Qed.

Lemma reorder_matched cats groups mapping prs r :
  validated mapping → reorder cats groups (NInt <$> mapping) prs = Some r →
  matched_list r = sort_by (λ m : Match, m.1.1) (resolved mapping groups cats).*2
  ∧ unused_groups r
    = unused_of groups (list_to_set (resolved mapping groups cats).*1).
Proof.
  intros Hv. unfold reorder. rewrite resolve_fold by done.
  cbn [mbind option_bind app]. rewrite (right_id_L ∅ (∪)).
  destruct (foldM place_group _ _) as [[prs' order]|]; [|done].
  cbn [mbind option_bind].
  destruct (foldM (append_original _) _ _) as [xml|]; [|done].
  cbn [mbind option_bind]. intros [= <-]. done.
Qed.

Lemma resolved_out_of_range mapping groups cats :
  (∀ k v, mapping !! k = Some v → (Z.of_nat (length groups) ≤ v)%Z) →
  resolved mapping groups cats = [].
Proof.
  intros Hbig. induction cats as [|cat cats IH]; [done|].
  rewrite resolved_cons. destruct (mapping !! No cat) as [v|] eqn:Hm; [|done].
  specialize (Hbig _ _ Hm). by rewrite bool_decide_eq_false_2 by lia.
Qed.

Lemma unused_of_none groups : unused_of groups ∅ = groups.
Proof.
  unfold unused_of. rewrite <- (enumerate_snd groups) at 2. f_equal.
  induction (enumerate groups) as [|it l IH]; [done|].
  rewrite filter_cons_True by set_solver. by rewrite IH.
Qed.

(** C4. Whatever the oracle answers, [int]s or [float]s: no negative index
    enters the mapping; an entry whose index is not below the number of
    groups is dropped, the reordering being that of the mapping without
    such entries; the run raises only at an entry that is a [float] below
    the number of groups, never at an entry outside the range; and every
    match that is recorded belongs to a category whose entry is an [int] in
    [0, len(groups)).  For the answer [{"1": 5}] over at most five groups
    (Scenario D has two) the run is saved with no match and every group
    unused. *)
Theorem C4_out_of_range_dropped (model : Oracle) (cats : list Category)
    (deck : list Slide) :
  FIXED_SLIDES < length deck →
  let groups := slide_groups deck in
  let mapping := create_matching_with_ai model cats groups in
  (∀ k v, mapping !! k = Some v → number_ge_0 v = true)
  ∧ (∀ (any : gmap Z Number) prs,
       reorder cats groups any prs
       = reorder cats groups (below (length groups) any) prs)
  ∧ (process_pptx model cats deck = Raised
     ↔ ∃ cat x, cat ∈ cats ∧ mapping !! No cat = Some (NFloat x)
                ∧ float_lt x (Z.of_nat (length groups)) = true)
  ∧ (∀ r m, process_pptx model cats deck = Saved r → m ∈ matched_list r →
       ∃ t, mapping !! m.1.1 = Some (NInt t)
            ∧ (0 ≤ t < Z.of_nat (length groups))%Z
            ∧ groups !! Z.to_nat t = Some m.2)
  ∧ (length groups ≤ 5 →
       ∃ r, process_pptx (answers [("1", JInt 5)]) cats deck = Saved r
            ∧ matched_count r = 0
            ∧ unused_groups r = groups).
Proof.
  intros Hlen. cbn zeta.
  split; [apply create_matching_checked|].
  split; [intros any prs; apply reorder_below|]. split; [|split].
  - rewrite <- float_in_range_exists.
    destruct (process_pptx_cases model cats deck)
      as [[? H]|[(_ & Hempty & H)|[(_ & _ & Hf & H)|(_ & _ & Hf & r & H & _)]]];
      rewrite H; [lia| |by rewrite Hf..].
    split; [done|]. rewrite Hempty. intros Hf.
    apply float_in_range_exists in Hf as (cat & x & _ & Hm & _).
    by rewrite lookup_empty in Hm.
  - intros r m Hsaved Hm.
    apply process_pptx_saved in Hsaved as (_ & _ & _ & Hrun).
    apply reorder_matched in Hrun as [Hml _]; [|apply create_matching_validated].
    rewrite Hml, (sort_by_perm (λ m : Match, m.1.1)) in Hm.
    apply list_elem_of_fmap in Hm as ([t m'] & -> & Hin).
    apply resolved_elem in Hin as (Ht & Hg & cat & _ & Hmap & Heq);
      [|apply create_matching_validated].
    exists t. simpl in *. rewrite Heq. simpl. split; [|done].
    rewrite lookup_ints in Hmap.
    destruct (create_matching_with_ai model cats (slide_groups deck) !! No cat)
      as [[n|x]|]; by simplify_eq/=.
  - intros Hfew.
    assert (Hmap : create_matching_with_ai (answers [("1", JInt 5)]) cats
                     (slide_groups deck) = {[1%Z := NInt 5]}) by reflexivity.
    assert (Hints : ints ({[1%Z := NInt 5]} : gmap Z Number) = {[1%Z := 5%Z]}).
    { unfold ints. by rewrite omap_singleton_Some with (y := 5%Z). }
    destruct (process_pptx_cases (answers [("1", JInt 5)]) cats deck)
      as [[? _]|[(_ & Hempty & _)|[(_ & _ & Hf & _)|(_ & _ & _ & r & Hsaved & Hrun)]]];
      [lia| | |].
    { rewrite Hmap in Hempty. by apply map_non_empty_singleton in Hempty. }
    { rewrite Hmap in Hf.
      apply float_in_range_exists in Hf as (cat & x & _ & Hm & _).
      by apply lookup_singleton_Some in Hm as [_ ?]. }
    exists r. split; [done|].
    apply reorder_matched in Hrun as [Hml Hun]; [|apply create_matching_validated].
    rewrite resolved_out_of_range in Hml, Hun.
    + unfold matched_count. rewrite Hml, Hun. split; [done|].
      apply unused_of_none.
    + rewrite Hmap, Hints. intros k v Hkv.
      apply lookup_singleton_Some in Hkv as [_ <-]. lia.
    + rewrite Hmap, Hints. intros k v Hkv.
      apply lookup_singleton_Some in Hkv as [_ <-]. lia.
Qed.

Lemma C4_out_of_range_dropped_witness :
  let model := answers [("1", JInt 5); ("2", JFloat (FFinite (-1) (-1)))] in
  let groups := slide_groups deck6 in
  let mapping := create_matching_with_ai model two_cats groups in
  (∀ k v, mapping !! k = Some v → number_ge_0 v = true)
  ∧ (∀ (any : gmap Z Number) prs,
       reorder two_cats groups any prs
       = reorder two_cats groups (below (length groups) any) prs)
  ∧ (process_pptx model two_cats deck6 = Raised
     ↔ ∃ cat x, cat ∈ two_cats ∧ mapping !! No cat = Some (NFloat x)
                ∧ float_lt x (Z.of_nat (length groups)) = true)
  ∧ (∀ r m, process_pptx model two_cats deck6 = Saved r → m ∈ matched_list r →
       ∃ t, mapping !! m.1.1 = Some (NInt t)
            ∧ (0 ≤ t < Z.of_nat (length groups))%Z
            ∧ groups !! Z.to_nat t = Some m.2)
  ∧ (length groups ≤ 5 →
       ∃ r, process_pptx (answers [("1", JInt 5)]) two_cats deck6 = Saved r
            ∧ matched_count r = 0
            ∧ unused_groups r = groups).
Proof.
  apply (C4_out_of_range_dropped
           (answers [("1", JInt 5); ("2", JFloat (FFinite (-1) (-1)))])
           two_cats deck6).
  vm_compute. lia.
Defined.

(** An entry that is a [float] inside the range is not dropped: with the
    answer [{"1": 0.0}] the run reaches [groups[0.0]] and raises, and with
    [{"1": 5.5}], [{"1": -0.5}] beside an [int] entry, or [{"1": NaN}]
    beside one, it does not. *)
Example float_entries :
  process_pptx (answers [("1", JFloat (FFinite 0 0))]) two_cats deck6 = Raised
  ∧ (∃ r, process_pptx (answers [("1", JFloat (FFinite 11 (-1)))]) two_cats deck6
          = Saved r ∧ matched_count r = 0)
  ∧ (∃ r, process_pptx (answers [("1", JFloat (FFinite (-1) (-1))); ("2", JInt 0)])
            two_cats deck6 = Saved r ∧ matched_count r = 1)
  ∧ (∃ r, process_pptx (answers [("1", JFloat FNan); ("2", JInt 0)])
            two_cats deck6 = Saved r ∧ matched_count r = 1).
Proof.
  split; [vm_compute; reflexivity|].
  repeat split; eexists; (split; [vm_compute; reflexivity|reflexivity]).
Qed.

Lemma mapping_loop_unusable members mapping :
  forallb (λ item : string * json,
             bool_decide (is_Some (py_int item.1))
             && bool_decide (is_Some (json_number item.2))) members = false →
  foldM mapping_entry mapping members = None.
Proof.
  revert mapping. induction members as [|item members IH]; intros mapping Hbad.
  - done.
  - cbn [forallb] in Hbad. cbn [foldM].
    destruct (mapping_entry mapping item) as [mapping'|] eqn:Hstep; [|done].
    cbn [mbind option_bind]. apply IH.
    unfold mapping_entry in Hstep.
    destruct (py_int item.1) as [k|]; [|done].
    destruct (json_number item.2) as [v|]; [|done].
    by rewrite !bool_decide_eq_true_2 in Hbad by (by eexists).
Qed.

Lemma create_matching_unusable model cats groups :
  usable_response (model cats groups) = false →
  create_matching_with_ai model cats groups = ∅.
Proof.
  unfold usable_response, create_matching_with_ai.
  destruct (model cats groups) as [[| | | | | |members]|]; try done.
  intros Hbad. by rewrite mapping_loop_unusable.
Qed.

(** C5, as stated, fails: a response that does not parse does give the
    empty mapping, but [process_pptx] then logs an error and returns before
    anything is reordered or saved; there is no run with zero matches. *)
Lemma C5_counterexample :
  let model : Oracle := λ _ _, None in
  FIXED_SLIDES < length deck6
  ∧ create_matching_with_ai model two_cats (slide_groups deck6) = ∅
  ∧ process_pptx model two_cats deck6 = MatchingFailed
  ∧ ¬ ∃ r, process_pptx model two_cats deck6 = Saved r ∧ matched_count r = 0.
Proof.
  cbn zeta. split; [vm_compute; lia|]. split; [reflexivity|].
  assert (H : process_pptx (λ _ _, None) two_cats deck6 = MatchingFailed)
    by (vm_compute; reflexivity).
  split; [exact H|]. rewrite H. by intros (r & ? & _).
Qed.

(** C5, amended.  For every oracle response that does not parse, is not an
    object, has a key [int()] rejects or a value that is neither a number
    nor a boolean, the matching yields the empty mapping, and [process_pptx]
    then stops with its "matching failed" error without raising and without
    saving a reordered deck. *)
Theorem C5_unusable_response_stops (model : Oracle) (cats : list Category)
    (deck : list Slide) :
  FIXED_SLIDES < length deck →
  usable_response (model cats (slide_groups deck)) = false →
  create_matching_with_ai model cats (slide_groups deck) = ∅
  ∧ process_pptx model cats deck = MatchingFailed.
Proof.
  intros Hlen Hbad.
  pose proof (create_matching_unusable _ _ _ Hbad) as Hempty.
  split; [done|].
  destruct (process_pptx_cases model cats deck)
    as [[? _]|[(_ & _ & ->)|[(_ & Hne & _)|(_ & Hne & _)]]]; [lia|done..].
Qed.

Lemma C5_unusable_response_stops_witness :
  let model := answers [("1", JInt 0); ("two", JInt 1)] in
  create_matching_with_ai model two_cats (slide_groups deck6) = ∅
  ∧ process_pptx model two_cats deck6 = MatchingFailed.
Proof.
  apply (C5_unusable_response_stops
           (answers [("1", JInt 0); ("two", JInt 1)]) two_cats deck6).
  - vm_compute. lia.
  - vm_compute. reflexivity.
Defined.

(** ** Titles *)

Lemma join_split_lines s : join lf (split_lines s) = s.
Proof.
  induction s as [|c s IH]; [done|]. cbn [split_lines].
  destruct (Ascii.eqb c newline) eqn:Hc.
  - apply Ascii.eqb_eq in Hc as ->.
    destruct (split_lines s) as [|l ls] eqn:Hs; [by simplify_eq/=|].
    change (join lf (EmptyString :: l :: ls))
      with (EmptyString +:+ lf +:+ join lf (l :: ls)).
    by rewrite IH.
  - destruct (split_lines s) as [|l ls] eqn:Hs; [by simplify_eq/=|].
    destruct ls as [|l' ls]; simpl in *; by rewrite <- IH.
Qed.

Lemma plain_paragraph_texts (ls : list string) : p_text <$> (plain_paragraph <$> ls) = ls.
Proof. induction ls as [|l ls IH]; [done|]. rewrite !fmap_cons, IH. done. Qed.

(** Reading a text frame back after [shape.text = s] gives [s]. *)
Lemma tf_text_of_text s : tf_text (tf_of_text s) = s.
Proof.
  unfold tf_text, tf_of_text, tf_paragraphs.
  pose proof (join_split_lines s) as Hjoin.
  destruct (split_lines s) as [|l ls] eqn:Hs.
  - destruct s as [|c s]; [done|]. cbn [split_lines] in Hs.
    destruct (Ascii.eqb c newline); [done|]. by destruct (split_lines s).
  - cbn [first_paragraph more_paragraphs]. rewrite fmap_cons.
    by rewrite plain_paragraph_texts.
Qed.

Lemma update_slide_title_spec slide new_title :
  match shapes_title slide with
  | Some _ =>
      (update_slide_title slide new_title).2 = true
      ∧ shape_text <$> shapes_title (update_slide_title slide new_title).1
        = Some new_title
      ∧ title_idx (update_slide_title slide new_title).1 = title_idx slide
  | None => update_slide_title slide new_title = (slide, false)
  end.
Proof.
  unfold shapes_title, update_slide_title.
  destruct (title_idx slide) as [i|] eqn:Hi; cbn [mbind option_bind]; [|done].
  destruct (shapes slide !! i) as [sh|] eqn:Hsh; [|done].
  cbn [fst snd title_idx shapes mbind option_bind].
  split; [done|]. split; [|done].
  rewrite list_lookup_insert_eq by (by eapply lookup_lt_Some).
  cbn [fmap option_fmap option_map]. unfold shape_text. cbn [text_frame].
  by rewrite tf_text_of_text.
Qed.

Lemma populate_toc_lookup_ne prs cats i j :
  i ≠ j → (populate_toc prs cats i).1 !! j = prs !! j.
Proof.
  intros Hne. destruct (populate_toc_deck prs cats i) as [->|[s ->]]; [done|].
  by apply list_lookup_insert_ne.
Qed.

Lemma resolved_no_key mapping groups cats :
  Forall (λ cat, mapping !! No cat = None) cats →
  resolved mapping groups cats = [].
Proof.
  induction 1 as [|cat cats Hcat _ IH]; [done|].
  by rewrite resolved_cons, Hcat.
Qed.

(** C9. Scenario C: the oracle answers [{"1": 0, "2": -1}], the deck has two
    groups, and the taxonomy has one category with [No] 1.  The run is saved
    with that category matched to the first group and the second group
    unused; the new order is the anchors, the first group's slides, the
    second group's slides; the first slide of the first group is the only
    one touched, and it goes through [update_slide_title] with the title
    ["1. <MainCategory>"].  In general the title is ["<No>. <MainCategory>"]
    and [update_slide_title] either sets the title placeholder's text to it
    or, when the slide has no title placeholder, returns the slide
    unmodified with a negative result. *)
Theorem C9_scenario_C (pre post : list Category) (c : Category)
    (deck : list Slide) (g0 g1 : Group) :
  FIXED_SLIDES < length deck →
  slide_groups deck = [g0; g1] →
  No c = 1%Z →
  Forall (λ c', No c' ≠ 1%Z) (pre ++ post) →
  let cats := pre ++ c :: post in
  let model := answers [("1", JInt 0); ("2", JInt (-1))] in
  (∃ r i slide,
     process_pptx model cats deck = Saved r
     ∧ matched_list r = [(1%Z, MainCategory c, g0)]
     ∧ unused_groups r = [g1]
     ∧ new_order r = seq 0 FIXED_SLIDES ++ slides g0 ++ slides g1
     ∧ head (slides g0) = Some i
     ∧ deck !! i = Some slide
     ∧ out_slides r
       = <[i := (update_slide_title slide ("1. " +:+ MainCategory c)).1]>
           (populate_toc deck cats 1).1)
  ∧ (∀ no name, new_title_of no name = pretty no +:+ ". " +:+ name)
  ∧ (∀ slide new_title,
       match shapes_title slide with
       | Some _ =>
           (update_slide_title slide new_title).2 = true
           ∧ shape_text <$> shapes_title (update_slide_title slide new_title).1
             = Some new_title
           ∧ title_idx (update_slide_title slide new_title).1 = title_idx slide
       | None => update_slide_title slide new_title = (slide, false)
       end).
Proof.
  intros Hlen Hgroups Hno Hothers. cbn zeta.
  split; [|split; [done|apply update_slide_title_spec]].
  set (cats := pre ++ c :: post).
  set (model := answers [("1", JInt 0); ("2", JInt (-1))]).
  set (prs := (populate_toc deck cats 1).1).
  assert (Hmap : create_matching_with_ai model cats (slide_groups deck)
                 = NInt <$> {[1%Z := 0%Z]}) by (by rewrite map_fmap_singleton).
  apply Forall_app in Hothers as [Hpre Hpost].
  assert (Hnone : ∀ l, Forall (λ c', No c' ≠ 1%Z) l →
                       resolved {[1%Z := 0%Z]} [g0; g1] l = []).
  { intros l Hl. apply resolved_no_key. eapply Forall_impl; [exact Hl|].
    intros c' Hc'. by apply lookup_singleton_ne. }
  assert (Hres : resolved {[1%Z := 0%Z]} [g0; g1] cats
                 = [(0%Z, (1%Z, MainCategory c, g0))]).
  { unfold cats. change (c :: post) with ([c] ++ post).
    rewrite !resolved_app, (Hnone pre), (Hnone post) by done.
    rewrite resolved_cons, Hno, lookup_singleton_eq. reflexivity. }
  destruct (reorder_run cats prs (slide_groups deck) {[1%Z := 0%Z]})
    as (prs' & xml & Hrun & _ & Hplace & _).
  { by apply map_Forall_singleton. }
  { unfold prs. rewrite populate_toc_length. lia. }
  { unfold prs. rewrite populate_toc_length. apply slide_groups_partitions. }
  cbn zeta in Hrun, Hplace.
  rewrite Hgroups, Hres in Hrun, Hplace.
  cbn [fmap list_fmap snd fst sort_by insert_by list_to_set] in Hrun, Hplace.
  assert (Hg0 : g0 ∈ slide_groups deck) by (rewrite Hgroups; left).
  destruct (group_head _ _ g0 (slide_groups_partitions deck) Hg0)
    as (i & Hi & Hin & Hlt).
  destruct (lookup_lt_is_Some_2 deck i Hlt) as [slide Hslide].
  assert (Hprs : prs !! i = Some slide).
  { unfold prs. rewrite populate_toc_lookup_ne; [done|].
    pose proof (group_positions _ _ g0 i (slide_groups_partitions deck) Hg0 Hin).
    unfold FIXED_SLIDES in *. lia. }
  cbn [foldM] in Hplace.
  rewrite (place_group_eq prs _ 1%Z (MainCategory c) g0 i slide Hi Hprs) in Hplace.
  cbn [mbind option_bind] in Hplace. injection Hplace as Hprs' _.
  assert (Hun : unused_of [g0; g1] ({[0%Z]} ∪ ∅) = [g1]) by reflexivity.
  rewrite Hun in Hrun.
  destruct (process_pptx_cases model cats deck)
    as [[? _]|[(_ & Hempty & _)|[(_ & _ & Hf & _)|(_ & _ & _ & r & Hsaved & Hr)]]];
    [lia| | |].
  { rewrite Hmap in Hempty.
    by apply fmap_empty_inv, map_non_empty_singleton in Hempty. }
  { by rewrite Hmap, no_float_in_range_fmap in Hf. }
  cbn zeta in Hr. rewrite Hmap, ints_fmap, Hgroups in Hr. fold prs in Hr.
  rewrite Hrun in Hr. injection Hr as <-.
  eexists _, i, slide. split; [exact Hsaved|].
  cbn [matched_list unused_groups new_order out_slides].
  repeat split; try done. by rewrite !app_nil_r.
Qed.

Lemma C9_scenario_C_witness :
  let cats := [] ++ mkCategory 1 "Intro" ["Scope"] :: [mkCategory 2 "Overview" []] in
  let model := answers [("1", JInt 0); ("2", JInt (-1))] in
  (∃ r i slide,
     process_pptx model cats deck6 = Saved r
     ∧ matched_list r = [(1%Z, "Intro", deck6_features)]
     ∧ unused_groups r = [deck6_summary]
     ∧ new_order r
       = seq 0 FIXED_SLIDES ++ slides deck6_features ++ slides deck6_summary
     ∧ head (slides deck6_features) = Some i
     ∧ deck6 !! i = Some slide
     ∧ out_slides r
       = <[i := (update_slide_title slide ("1. " +:+ "Intro")).1]>
           (populate_toc deck6 cats 1).1)
  ∧ (∀ no name, new_title_of no name = pretty no +:+ ". " +:+ name)
  ∧ (∀ slide new_title,
       match shapes_title slide with
       | Some _ =>
           (update_slide_title slide new_title).2 = true
           ∧ shape_text <$> shapes_title (update_slide_title slide new_title).1
             = Some new_title
           ∧ title_idx (update_slide_title slide new_title).1 = title_idx slide
       | None => update_slide_title slide new_title = (slide, false)
       end).
Proof.
  apply (C9_scenario_C [] [mkCategory 2 "Overview" []]
           (mkCategory 1 "Intro" ["Scope"]) deck6 deck6_features deck6_summary).
  - vm_compute. lia.
  - vm_compute. reflexivity.
  - reflexivity.
  - simpl. repeat constructor. simpl. lia.
Defined.

(** ** Taxonomy extraction *)

Lemma fold_scan_table_skip (pre post : Page) (t : Table) st :
  length t < 2 →
  fold_left scan_table (pre ++ t :: post) st = fold_left scan_table (pre ++ post) st.
Proof.
  intros Hshort. rewrite !fold_left_app. cbn [fold_left].
  unfold scan_table at 2. by rewrite bool_decide_eq_true_2.
Qed.

Lemma app_fold_scan_table_skip (pre post : Page) (t : Table) cats :
  length t < 2 →
  fold_left App.scan_table (pre ++ t :: post) cats
  = fold_left App.scan_table (pre ++ post) cats.
Proof.
  intros Hshort. rewrite !fold_left_app. cbn [fold_left].
  unfold App.scan_table at 2. by rewrite bool_decide_eq_true_2.
Qed.

(** C10. In [main.py] as in [app.py], a table with fewer than two rows is
    skipped before any of its rows is looked at: scanning it leaves the scan
    state as it was, and the extracted taxonomy is the one of the document
    without that table, whatever the table's only row holds and wherever the
    table stands. *)
Theorem C10_short_table_skipped (doc doc' : Document) (pre post : Page)
    (t : Table) :
  length t < 2 →
  (∀ st, scan_table st t = st)
  ∧ extract_categories_from_pdf (doc ++ (pre ++ t :: post) :: doc')
    = extract_categories_from_pdf (doc ++ (pre ++ post) :: doc')
  ∧ (∀ cats, App.scan_table cats t = cats)
  ∧ App.extract_categories_from_pdf (doc ++ (pre ++ t :: post) :: doc')
    = App.extract_categories_from_pdf (doc ++ (pre ++ post) :: doc').
Proof.
  intros Hshort. split; [|split; [|split]].
  - intros st. unfold scan_table. by rewrite bool_decide_eq_true_2.
  - unfold extract_categories_from_pdf. rewrite !fold_left_app. cbn [fold_left].
    unfold scan_page at 2 4. by rewrite fold_scan_table_skip.
  - intros cats. unfold App.scan_table. by rewrite bool_decide_eq_true_2.
  - unfold App.extract_categories_from_pdf. rewrite !fold_left_app.
    cbn [fold_left]. by rewrite app_fold_scan_table_skip.
Qed.

Lemma C10_short_table_skipped_witness :
  (∀ st, scan_table st [[Some "7"; Some "Alone"; Some "1"; Some "Detail"]] = st)
  ∧ extract_categories_from_pdf
      ([] ++ ([scenario_A_table]
              ++ [[Some "7"; Some "Alone"; Some "1"; Some "Detail"]] :: []) :: [])
    = extract_categories_from_pdf ([] ++ ([scenario_A_table] ++ []) :: [])
  ∧ (∀ cats,
       App.scan_table cats [[Some "7"; Some "Alone"; Some "1"; Some "Detail"]]
       = cats)
  ∧ App.extract_categories_from_pdf
      ([] ++ ([scenario_A_table]
              ++ [[Some "7"; Some "Alone"; Some "1"; Some "Detail"]] :: []) :: [])
    = App.extract_categories_from_pdf ([] ++ ([scenario_A_table] ++ []) :: []).
Proof.
  apply (C10_short_table_skipped [] [] [scenario_A_table] []
           [[Some "7"; Some "Alone"; Some "1"; Some "Detail"]]).
  simpl. lia.
Defined.

(** C2, as stated, fails: the middle row has three cells, and its second
    cell is not empty, so it is read as a main-item row (it opens a category
    numbered 1 named "1", which the de-duplication later drops); only rows
    of at least four cells can carry a sub-item.  "Scope" is attached to
    nothing. *)
Lemma C2_counterexample :
  extract_categories_from_pdf [[scenario_A_table]]
  ≠ [mkCategory 1 "Intro" ["Scope"]; mkCategory 2 "Overview" []].
Proof. vm_compute. discriminate. Qed.

(** C2, amended.  For the table of Scenario A the extraction returns the
    two categories [{No: 1, MainCategory: "Intro", SubItems: []}] and
    [{No: 2, MainCategory: "Overview", SubItems: []}]: the middle row opens a
    category of its own and adds no sub-item.  When the sub-item row has
    its number in the third cell and its text in the fourth,
    [[None, None, "1", "Scope"]], the result is the one the scenario
    names. *)
Theorem C2_scenario_A :
  extract_categories_from_pdf [[scenario_A_table]]
    = [mkCategory 1 "Intro" []; mkCategory 2 "Overview" []]
  ∧ (∀ st, sub_item_row st [Some "1"; Some "1"; Some "Scope"] = st)
  ∧ (∀ st, current_category
             (main_item_row st [Some "1"; Some "1"; Some "Scope"])
           = Some (mkCategory 1 "1" []))
  ∧ extract_categories_from_pdf
      [[ [ [Some "1"; Some "Intro"];
           [None; None; Some "1"; Some "Scope"];
           [Some "2"; Some "Overview"] ] ]]
    = [mkCategory 1 "Intro" ["Scope"]; mkCategory 2 "Overview" []].
Proof.
  split; [vm_compute; reflexivity|]. split; [|split].
  - intros st. unfold sub_item_row. by destruct (current_category st).
  - intros st. reflexivity.
  - vm_compute. reflexivity.
Qed.

Lemma scan_page_rows st page :
  fold_left scan_table page st = fold_left scan_row (page_rows page) st.
Proof.
  revert st. unfold page_rows.
  induction page as [|t page IH]; intros st; [done|]. cbn [fold_left].
  unfold scan_table at 2. destruct (decide (length t < 2)) as [Hshort|Hlong].
  - rewrite bool_decide_eq_true_2 by done.
    rewrite (filter_cons_False (λ t0 : Table, 2 ≤ length t0)) by lia. apply IH.
  - rewrite bool_decide_eq_false_2 by done.
    rewrite (filter_cons_True (λ t0 : Table, 2 ≤ length t0)) by lia. cbn [concat].
    by rewrite fold_left_app, IH.
Qed.

Lemma end_of_page_settled st : settled (end_of_page st).
Proof.
  unfold end_of_page, settled.
  destruct (current_category st) as [cur|] eqn:Hcur; [|by rewrite Hcur].
  case_bool_decide; [by rewrite Hcur|done].
Qed.

Lemma settled_shadowed st : settled st → shadowed st.
Proof.
  unfold settled, shadowed. destruct (current_category st); [|done].
  apply list_elem_of_fmap_2.
Qed.

Lemma scan_pages_settled doc st :
  settled st → settled (fold_left scan_page doc st).
Proof.
  revert st. induction doc as [|page doc IH]; intros st Hst; [done|].
  cbn [fold_left]. apply IH, end_of_page_settled.
Qed.

Lemma unique_by_no_elem seen cats x :
  x ∈ No <$> unique_by_no seen cats ↔ x ∈ No <$> cats ∧ x ∉ seen.
Proof.
  revert seen. induction cats as [|c cats IH]; intros seen; cbn [unique_by_no].
  - rewrite fmap_nil. split; [|intros [H _]]; intros; by exfalso; eapply elem_of_nil.
  - case_bool_decide as Hc.
    + rewrite IH, fmap_cons, elem_of_cons. split; [tauto|].
      intros [[->|?] ?]; [done|tauto].
    + rewrite !fmap_cons, !elem_of_cons, IH, not_elem_of_union,
        not_elem_of_singleton.
      destruct (decide (x = No c)) as [->|Hne]; tauto.
Qed.

Lemma unique_by_no_snoc seen cats c :
  unique_by_no seen (cats ++ [c])
  = unique_by_no seen cats
    ++ (if bool_decide (No c ∈ seen ∨ No c ∈ No <$> cats) then [] else [c]).
Proof.
  revert seen. induction cats as [|c0 cats IH]; intros seen; cbn [unique_by_no app].
  - rewrite fmap_nil. case_bool_decide as H1.
    + rewrite bool_decide_eq_true_2 by (by left). done.
    + rewrite bool_decide_eq_false_2; [done|].
      intros [?|H]; [done|]. by eapply elem_of_nil.
  - case_bool_decide as Hc0.
    + rewrite IH. f_equal.
      assert (Hiff : No c ∈ seen ∨ No c ∈ No <$> cats
                     ↔ No c ∈ seen ∨ No c ∈ No <$> c0 :: cats).
      { rewrite fmap_cons, elem_of_cons.
        split; [tauto|]. intros [?|[Heq|?]]; [tauto| |tauto].
        left. by rewrite Heq. }
      do 2 case_bool_decide; [done|tauto|tauto|done].
    + rewrite IH. cbn [app]. f_equal. f_equal.
      assert (Hiff : No c ∈ {[No c0]} ∪ seen ∨ No c ∈ No <$> cats
                     ↔ No c ∈ seen ∨ No c ∈ No <$> c0 :: cats).
      { rewrite fmap_cons, elem_of_cons, elem_of_union, elem_of_singleton. tauto. }
      do 2 case_bool_decide; [done|tauto|tauto|done].
Qed.

Lemma unique_nos_equal (l k : list Category) x :
  unique_by_no ∅ l = unique_by_no ∅ k → x ∈ No <$> l → x ∈ No <$> k.
Proof.
  intros Heq Hx.
  assert (H : x ∈ No <$> unique_by_no ∅ l).
  { apply unique_by_no_elem. split; [done|]. apply not_elem_of_empty. }
  rewrite Heq in H. by apply unique_by_no_elem in H as [? _].
Qed.

(** Appending a category whose number is already there changes nothing
    after de-duplication. *)
Lemma unique_snoc_shadowed cats c :
  No c ∈ No <$> cats → unique_by_no ∅ (cats ++ [c]) = unique_by_no ∅ cats.
Proof.
  intros Hc. rewrite unique_by_no_snoc, bool_decide_eq_true_2 by (by right).
  by rewrite app_nil_r.
Qed.

Lemma unique_snoc_alike l k c :
  unique_by_no ∅ l = unique_by_no ∅ k →
  unique_by_no ∅ (l ++ [c]) = unique_by_no ∅ (k ++ [c]).
Proof.
  intros Heq. rewrite !unique_by_no_snoc, Heq. f_equal.
  assert (Hiff : No c ∈ (∅ : gset Z) ∨ No c ∈ No <$> l
                 ↔ No c ∈ (∅ : gset Z) ∨ No c ∈ No <$> k).
  { split; (intros [H|H]; [by left|right]).
    - by apply (unique_nos_equal l k).
    - by apply (unique_nos_equal k l). }
  do 2 case_bool_decide; [done|tauto|tauto|done].
Qed.

Lemma alike_refl st : alike st st.
Proof. split; [done|by left]. Qed.

Lemma main_item_row_cases st row :
  main_item_row st row = st
  ∨ ∃ new,
      ∀ st', main_item_row st' row
             = mkScan (match current_category st' with
                       | Some cur => categories st' ++ [cur]
                       | None => categories st'
                       end) (Some new).
Proof.
  unfold main_item_row.
  destruct (nonempty (cell_text (row_cell row 0))); [|by left].
  destruct (re_match_digits (cell_text (row_cell row 0))) as [digits|]; [|by left].
  destruct (nonempty (cell_text (row_cell row 1))); [|by left].
  right. by eexists.
Qed.

Lemma main_item_row_same a b row :
  main_item_row a row = a → main_item_row b row = b.
Proof.
  unfold main_item_row.
  destruct (nonempty (cell_text (row_cell row 0))); [|done].
  destruct (re_match_digits (cell_text (row_cell row 0))) as [digits|]; [|done].
  destruct (nonempty (cell_text (row_cell row 1))); [|done].
  destruct a as [cats cur]. intros [= Hcats Hcur]. exfalso.
  rewrite <- Hcur in Hcats. simpl in Hcats.
  apply (f_equal length) in Hcats. rewrite length_app in Hcats. simpl in Hcats. lia.
Qed.

Lemma alike_main_item_row a b row :
  alike a b → alike (main_item_row a row) (main_item_row b row).
Proof.
  intros [Hu Hcur].
  destruct (main_item_row_cases a row) as [Hsame|[new Hnew]].
  - rewrite Hsame, (main_item_row_same a b row Hsame). by split.
  - rewrite !Hnew. split; [|by left]. cbn [categories].
    destruct Hcur as [Heq|[Ha Hb]].
    + rewrite <- Heq. destruct (current_category a); [|done].
      by apply unique_snoc_alike.
    + unfold shadowed in Ha, Hb.
      destruct (current_category a), (current_category b);
        rewrite ?unique_snoc_shadowed by done; done.
Qed.

Lemma sub_item_row_categories st row :
  categories (sub_item_row st row) = categories st.
Proof.
  unfold sub_item_row. destruct (current_category st); [|done].
  case_bool_decide; [|done].
  destruct (_ && _ && _); [|done]. by destruct (_ && _).
Qed.

Lemma sub_item_row_no st row :
  No <$> current_category (sub_item_row st row) = No <$> current_category st.
Proof.
  unfold sub_item_row. destruct (current_category st) as [cur|] eqn:Hcur;
    [|by rewrite Hcur].
  case_bool_decide; [|by rewrite Hcur].
  destruct (_ && _ && _); [|by rewrite Hcur].
  destruct (_ && _); [done|by rewrite Hcur].
Qed.

Lemma sub_item_row_current a b row :
  current_category a = current_category b →
  current_category (sub_item_row a row) = current_category (sub_item_row b row).
Proof.
  intros Heq. unfold sub_item_row. rewrite <- Heq.
  destruct (current_category a) as [cur|] eqn:Hcur; [|congruence].
  case_bool_decide; [|congruence].
  destruct (_ && _ && _); [|congruence].
  destruct (_ && _); [done|congruence].
Qed.

Lemma sub_item_row_shadowed st row : shadowed st → shadowed (sub_item_row st row).
Proof.
  unfold shadowed. rewrite sub_item_row_categories.
  pose proof (sub_item_row_no st row) as Hno.
  destruct (current_category (sub_item_row st row)) as [cur'|],
    (current_category st) as [cur|]; simplify_eq/=; [|done].
  by rewrite Hno.
Qed.

Lemma alike_sub_item_row a b row :
  alike a b → alike (sub_item_row a row) (sub_item_row b row).
Proof.
  intros [Hu Hcur]. split; [by rewrite !sub_item_row_categories|].
  destruct Hcur as [Heq|[Ha Hb]].
  - left. by apply sub_item_row_current.
  - right. split; by apply sub_item_row_shadowed.
Qed.

Lemma alike_scan_row a b row : alike a b → alike (scan_row a row) (scan_row b row).
Proof.
  intros H. unfold scan_row. case_bool_decide; [done|].
  by apply alike_sub_item_row, alike_main_item_row.
Qed.

Lemma alike_scan_rows rows a b :
  alike a b → alike (fold_left scan_row rows a) (fold_left scan_row rows b).
Proof.
  revert a b. induction rows as [|row rows IH]; intros a b H; [done|].
  cbn [fold_left]. by apply IH, alike_scan_row.
Qed.

Lemma end_of_page_shadowed st : shadowed st → shadowed (end_of_page st).
Proof.
  unfold shadowed, end_of_page.
  destruct (current_category st) as [cur|] eqn:Hcur; [|by rewrite Hcur].
  case_bool_decide; [by rewrite Hcur|done].
Qed.

Lemma end_of_page_unique st :
  shadowed st →
  unique_by_no ∅ (categories (end_of_page st)) = unique_by_no ∅ (categories st).
Proof.
  unfold shadowed, end_of_page.
  destruct (current_category st) as [cur|] eqn:Hcur; [|done].
  case_bool_decide; [done|]. intros Hin. by apply unique_snoc_shadowed.
Qed.

Lemma alike_end_of_page a b : alike a b → alike (end_of_page a) (end_of_page b).
Proof.
  intros [Hu [Heq|[Ha Hb]]].
  - unfold end_of_page. rewrite <- Heq.
    destruct (current_category a) as [cur|] eqn:Hcur; [|by split; [|left; congruence]].
    destruct (decide (cur ∈ categories a)) as [Hina|Hina],
      (decide (cur ∈ categories b)) as [Hinb|Hinb];
      rewrite ?(bool_decide_eq_true_2 _ Hina), ?(bool_decide_eq_false_2 _ Hina),
        ?(bool_decide_eq_true_2 _ Hinb), ?(bool_decide_eq_false_2 _ Hinb).
    + split; [done|left; congruence].
    + split; [|right; split; unfold shadowed; cbn [current_category]; [|done]].
      * cbn [categories]. rewrite unique_snoc_shadowed; [done|].
        apply (unique_nos_equal (categories a)); [done|].
        by apply list_elem_of_fmap_2.
      * rewrite Hcur. by apply list_elem_of_fmap_2.
    + split; [|right; split; unfold shadowed; cbn [current_category]; [done|]].
      * cbn [categories]. rewrite unique_snoc_shadowed; [done|].
        apply (unique_nos_equal (categories b)); [done|].
        by apply list_elem_of_fmap_2.
      * rewrite <- Heq. by apply list_elem_of_fmap_2.
    + split; [|by left]. cbn [categories]. by apply unique_snoc_alike.
  - split; [by rewrite !end_of_page_unique|].
    right. split; by apply end_of_page_shadowed.
Qed.

Lemma scan_page_as_rows st page :
  scan_page st page = end_of_page (fold_left scan_row (page_rows page) st).
Proof. unfold scan_page. by rewrite scan_page_rows. Qed.

Lemma alike_scan_pages doc a b :
  alike a b → alike (fold_left scan_page doc a) (fold_left scan_page doc b).
Proof.
  revert a b. induction doc as [|page doc IH]; intros a b H; [done|].
  cbn [fold_left]. apply IH. rewrite !scan_page_as_rows.
  by apply alike_end_of_page, alike_scan_rows.
Qed.

Lemma scan_row_quiet st row :
  is_main_item_row row = false →
  scan_row st row = st ∨ scan_row st row = sub_item_row st row.
Proof.
  unfold is_main_item_row, scan_row, main_item_row. intros Hq.
  destruct (decide (length row < 2)) as [Hlen|Hlen].
  { left. by rewrite bool_decide_eq_true_2. }
  right. rewrite (bool_decide_eq_false_2 (length row < 2)) by done.
  rewrite bool_decide_eq_true_2 in Hq by lia. cbn [andb] in Hq.
  destruct (nonempty (cell_text (row_cell row 0))); [|done].
  destruct (re_match_digits (cell_text (row_cell row 0))) as [digits|]; [|done].
  rewrite bool_decide_eq_true_2 in Hq by (by eexists). cbn [andb] in Hq.
  by rewrite Hq.
Qed.

(** Rows that open no category leave the result list alone, and what they
    add to a shadowed category stays shadowed. *)
Lemma quiet_rows_alike rows st :
  Forall (λ row, is_main_item_row row = false) rows → shadowed st →
  alike (fold_left scan_row rows st) st.
Proof.
  intros Hq Hsh.
  assert (H : categories (fold_left scan_row rows st) = categories st
              ∧ shadowed (fold_left scan_row rows st)).
  { revert st Hsh. induction Hq as [|row rows Hrow _ IH]; intros st Hsh; [done|].
    cbn [fold_left]. destruct (scan_row_quiet st row Hrow) as [->| ->].
    - by apply IH.
    - destruct (IH (sub_item_row st row)) as [Hc Hs];
        [by apply sub_item_row_shadowed|].
      split; [|done]. by rewrite Hc, sub_item_row_categories. }
  destruct H as [Hc Hs]. split; [by rewrite Hc|by right].
Qed.

Lemma scan_pages_as_rows doc st :
  fold_left scan_page doc st = fold_left scan_rows (page_rows <$> doc) st.
Proof.
  revert st. induction doc as [|page doc IH]; intros st; [done|].
  cbn [fold_left fmap list_fmap]. by rewrite IH, scan_page_as_rows.
Qed.

Lemma main_item_row_quiet st row :
  is_main_item_row row = false → 2 ≤ length row → main_item_row st row = st.
Proof.
  unfold is_main_item_row, main_item_row. intros Hq Hlen.
  rewrite bool_decide_eq_true_2 in Hq by done. cbn [andb] in Hq.
  destruct (nonempty (cell_text (row_cell row 0))); [|done].
  destruct (re_match_digits (cell_text (row_cell row 0))) as [digits|]; [|done].
  rewrite bool_decide_eq_true_2 in Hq by (by eexists). cbn [andb] in Hq.
  by rewrite Hq.
Qed.

(** C7, as stated, fails: nothing is flushed at the end of a table.  After
    the first table the category is still in progress and the result list is
    empty, and the sub-item row of the second table of the same page is
    attached to it. *)
Lemma C7_counterexample :
  scan_table scan_start intro_table
    = mkScan [] (Some (mkCategory 1 "Intro" []))
  ∧ extract_categories_from_pdf [[intro_table; scope_table]]
    = [mkCategory 1 "Intro" ["Scope"]].
Proof. split; vm_compute; reflexivity. Qed.

(** C7, amended.  Tables with fewer than two rows are skipped, and the
    extraction is the scan of the rows of the other tables, page by page:
    nothing is flushed between the tables of a page, so a row that lines
    135-140 read as a sub-item row is attached to the category in progress
    whichever table of the page opened it (its text is added when it is
    not empty and not yet among the sub-items).  The category in progress
    is flushed at the end of each page, where it is appended unless an
    equal category is already in the result list; after every page no
    category is in progress that is not in the result list.  Consequently
    the scanned rows of a page that come before its first main-item row,
    header rows of the table that holds it and sub-item rows of a category
    opened on an earlier page among them, contribute nothing to the
    extracted taxonomy. *)
Theorem C7_flush_per_page (doc doc' : Document) (page : Page)
    (quiet rest : list Row) :
  page_rows page = quiet ++ rest →
  Forall (λ row, is_main_item_row row = false) quiet →
  (∀ d, extract_categories_from_pdf d = extract_rows (page_rows <$> d))
  ∧ (∀ st pg, fold_left scan_table pg st = fold_left scan_row (page_rows pg) st)
  ∧ (∀ st pg, scan_page st pg = end_of_page (fold_left scan_row (page_rows pg) st))
  ∧ (∀ st cur row,
       current_category st = Some cur →
       is_main_item_row row = false → is_sub_item_row row = true →
       nonempty (sub_item_of row) = true → sub_item_of row ∉ SubItems cur →
       scan_row st row
       = mkScan (categories st)
           (Some (mkCategory (No cur) (MainCategory cur)
                    (SubItems cur ++ [sub_item_of row]))))
  ∧ (∀ st cur, current_category st = Some cur → cur ∉ categories st →
       end_of_page st = mkScan (categories st ++ [cur]) None)
  ∧ (∀ st pg, settled (scan_page st pg))
  ∧ extract_categories_from_pdf (doc ++ page :: doc')
    = extract_rows ((page_rows <$> doc) ++ rest :: (page_rows <$> doc')).
Proof.
  intros Hrows Hquiet.
  split.
  { intros d. unfold extract_categories_from_pdf, extract_rows.
    by rewrite scan_pages_as_rows. }
  split; [apply scan_page_rows|]. split; [apply scan_page_as_rows|].
  split; [|split; [|split]].
  - intros st cur row Hcur Hmain Hsub Htext Hnew.
    unfold is_sub_item_row in Hsub.
    apply andb_true_iff in Hsub as [Hsub H3].
    apply andb_true_iff in Hsub as [Hsub Hdigits].
    apply andb_true_iff in Hsub as [Hlen%bool_decide_eq_true H2].
    unfold scan_row. rewrite bool_decide_eq_false_2 by lia.
    rewrite main_item_row_quiet by (done || lia).
    unfold sub_item_row. rewrite Hcur, bool_decide_eq_true_2 by done.
    rewrite H2, Hdigits, H3. cbn [andb]. fold (sub_item_of row).
    by rewrite Htext, bool_decide_eq_false_2.
  - intros st cur Hcur Hnot. unfold end_of_page.
    by rewrite Hcur, bool_decide_eq_false_2.
  - intros st pg. apply end_of_page_settled.
  - unfold extract_categories_from_pdf, extract_rows.
    rewrite !fold_left_app. cbn [fold_left]. rewrite <- !scan_pages_as_rows.
    set (st0 := fold_left scan_page doc scan_start).
    assert (Hst0 : shadowed st0).
    { apply settled_shadowed, scan_pages_settled. exact I. }
    assert (Halike : alike (scan_page st0 page) (scan_rows st0 rest)).
    { rewrite scan_page_as_rows, Hrows, fold_left_app. unfold scan_rows.
      by apply alike_end_of_page, alike_scan_rows, quiet_rows_alike. }
    apply (alike_scan_pages doc') in Halike as [Hu _]. by rewrite Hu.
Qed.

Lemma C7_flush_per_page_witness :
  (∀ d, extract_categories_from_pdf d = extract_rows (page_rows <$> d))
  ∧ (∀ st pg, fold_left scan_table pg st = fold_left scan_row (page_rows pg) st)
  ∧ (∀ st pg, scan_page st pg = end_of_page (fold_left scan_row (page_rows pg) st))
  ∧ (∀ st cur row,
       current_category st = Some cur →
       is_main_item_row row = false → is_sub_item_row row = true →
       nonempty (sub_item_of row) = true → sub_item_of row ∉ SubItems cur →
       scan_row st row
       = mkScan (categories st)
           (Some (mkCategory (No cur) (MainCategory cur)
                    (SubItems cur ++ [sub_item_of row]))))
  ∧ (∀ st cur, current_category st = Some cur → cur ∉ categories st →
       end_of_page st = mkScan (categories st ++ [cur]) None)
  ∧ (∀ st pg, settled (scan_page st pg))
  ∧ extract_categories_from_pdf ([[intro_table]] ++ [scope_table; late_table] :: [])
    = extract_rows ((page_rows <$> [[intro_table]]) ++ drop 2 late_table
                      :: (page_rows <$> [])).
Proof.
  apply (C7_flush_per_page [[intro_table]] [] [scope_table; late_table]
           (scope_table ++ take 2 late_table) (drop 2 late_table)).
  - reflexivity.
  - repeat constructor.
Defined.

(** ** Order and uniqueness of the extracted taxonomy *)

Lemma insert_by_sorted {A} (key : A → Z) x l :
  StronglySorted (λ a b, key a ≤ key b)%Z l →
  StronglySorted (λ a b, key a ≤ key b)%Z (insert_by key x l).
Proof.
  induction 1 as [|y l Hl IH Hy]; cbn [insert_by].
  - repeat constructor.
  - destruct (key x <=? key y)%Z eqn:Hle.
    + apply Z.leb_le in Hle. constructor; [by constructor|].
      constructor; [done|]. eapply Forall_impl; [exact Hy|].
      intros z Hz. simpl in *. lia.
    + apply Z.leb_gt in Hle. constructor; [done|].
      rewrite sort_by_insert_perm. constructor; [lia|done].
Qed.

Lemma sort_by_sorted {A} (key : A → Z) l :
  StronglySorted (λ a b, key a ≤ key b)%Z (sort_by key l).
Proof.
  induction l as [|x l IH]; cbn [sort_by]; [constructor|].
  by apply insert_by_sorted.
Qed.

Lemma unique_by_no_NoDup seen cats : NoDup (No <$> unique_by_no seen cats).
Proof.
  revert seen. induction cats as [|c cats IH]; intros seen; cbn [unique_by_no].
  - constructor.
  - case_bool_decide as Hc; [apply IH|]. rewrite fmap_cons.
    constructor; [|apply IH]. rewrite unique_by_no_elem.
    rewrite not_elem_of_union, not_elem_of_singleton. tauto.
Qed.

Lemma sorted_strict {A} (key : A → Z) l :
  StronglySorted (λ a b, key a ≤ key b)%Z l → NoDup (key <$> l) →
  StronglySorted (λ a b, key a < key b)%Z l.
Proof.
  induction 1 as [|x l Hl IH Hx]; [constructor|].
  rewrite fmap_cons. intros Hnd. apply NoDup_cons in Hnd as [Hnot Hnd].
  constructor; [by apply IH|].
  apply Forall_forall. intros y Hy. rewrite Forall_forall in Hx.
  specialize (Hx y Hy). simpl in Hx.
  assert (key x ≠ key y); [|lia].
  intros Heq. apply Hnot. rewrite Heq. by apply list_elem_of_fmap_2.
Qed.

(** The tabular path: strictly ascending, hence no number twice. *)
Lemma extract_from_pdf_strictly_sorted doc :
  StronglySorted (λ a b, No a < No b)%Z (extract_categories_from_pdf doc).
Proof.
  unfold extract_categories_from_pdf. apply sorted_strict; [apply sort_by_sorted|].
  rewrite (sort_by_perm No). apply unique_by_no_NoDup.
Qed.

(** Of several categories with one number the tabular path keeps the first. *)
Lemma unique_by_no_first seen cats c :
  c ∈ unique_by_no seen cats →
  ∃ before after, cats = before ++ c :: after ∧ No c ∉ No <$> before.
Proof.
  revert seen. induction cats as [|c0 cats IH]; intros seen; cbn [unique_by_no].
  - intros H. by apply elem_of_nil in H.
  - case_bool_decide as Hc0.
    + intros Hin. destruct (IH _ Hin) as (before & after & -> & Hnot).
      exists (c0 :: before), after. split; [done|].
      rewrite fmap_cons, not_elem_of_cons. split; [|done].
      intros Heq.
      assert (Hc : No c ∈ No <$> unique_by_no seen (before ++ c :: after))
        by (by apply list_elem_of_fmap_2).
      apply unique_by_no_elem in Hc as [_ Hc]. rewrite Heq in Hc. tauto.
    + intros [->|Hin]%elem_of_cons.
      * exists [], cats. split; [done|]. rewrite fmap_nil. apply not_elem_of_nil.
      * destruct (IH _ Hin) as (before & after & -> & Hnot).
        exists (c0 :: before), after. split; [done|].
        rewrite fmap_cons, not_elem_of_cons. split; [|done].
        intros Heq.
        assert (Hc : No c ∈ No <$> unique_by_no ({[No c0]} ∪ seen)
                                     (before ++ c :: after))
          by (by apply list_elem_of_fmap_2).
        apply unique_by_no_elem in Hc as [_ Hc].
        rewrite not_elem_of_union, not_elem_of_singleton in Hc. tauto.
Qed.

(** C6, at the failing input.  The tabular path returns a strictly
    ascending list (no number twice), and the oracle path sorts too; but the
    oracle path has no de-duplication: for the answer
    [[{"No": 1, "Category": "A"}, {"No": 1, "Category": "B"}]] it returns
    both categories with the number 1. *)
Theorem C6_oracle_path_keeps_duplicates :
  (∀ doc, StronglySorted (λ a b, No a < No b)%Z (extract_categories_from_pdf doc))
  ∧ (∀ answer,
       StronglySorted (λ a b, No a ≤ No b)%Z (extract_categories_with_ai answer))
  ∧ extract_categories_with_ai (Some [(1%Z, "A"); (1%Z, "B")])
    = [mkCategory 1 "A" []; mkCategory 1 "B" []]
  ∧ ¬ NoDup (No <$> extract_categories_with_ai (Some [(1%Z, "A"); (1%Z, "B")])).
Proof.
  split; [apply extract_from_pdf_strictly_sorted|]. split; [|split].
  - intros [items|]; [apply sort_by_sorted|constructor].
  - reflexivity.
  - cbn. intros Hnd. apply NoDup_cons in Hnd as [Hnot _]. apply Hnot. left.
Qed.

(** ** Table of contents *)














(** The table of contents written for [two_cats] on [toc_deck]. *)
Example toc_deck_filled :
  (λ out, (out.2, (λ s, tf_paragraphs <$> (shapes s !! 1 ≫= text_frame))
                    <$> out.1 !! 1))
    (populate_toc toc_deck two_cats 1)
  = (true,
     Some (Some [mkParagraph "1. Intro" 0 (Some true) (Some 11%Z);
                 mkParagraph (toc_bullet +:+ "Scope") 1 (Some false) (Some 9%Z);
                 mkParagraph "2. Overview" 0 (Some true) (Some 11%Z)])).
Proof. vm_compute. reflexivity. Qed.

(* ================================================================== *)
(** * Further properties of the code *)

(** ** The example mappings *)

Lemma swap_mapping_validated : validated swap_mapping.
Proof.
  unfold validated, swap_mapping. repeat (apply map_Forall_insert_2; [lia|]).
  apply map_Forall_empty.
Qed.

Lemma same_target_mapping_validated : validated same_target_mapping.
Proof.
  unfold validated, same_target_mapping. repeat (apply map_Forall_insert_2; [lia|]).
  apply map_Forall_empty.
Qed.

Lemma swap_mapping_injective k1 k2 v :
  swap_mapping !! k1 = Some v → swap_mapping !! k2 = Some v → k1 = k2.
Proof.
  unfold swap_mapping. rewrite !lookup_insert_Some, !lookup_empty.
  intros [[? ?]|[? [[? ?]|[? ?]]]] [[? ?]|[? [[? ?]|[? ?]]]]; congruence.
Qed.

(** ** The two programs on the same document *)

Lemma sort_by_insert_fmap {A B} (f : A → B) (key : B → Z) x l :
  f <$> insert_by (λ a, key (f a)) x l = insert_by key (f x) (f <$> l).
Proof.
  induction l as [|y l IH]; [done|]. cbn [insert_by fmap list_fmap].
  destruct (key (f x) <=? key (f y))%Z; [done|]. cbn [fmap list_fmap]. by rewrite <- IH.
Qed.

Lemma sort_by_fmap {A B} (f : A → B) (key : B → Z) l :
  f <$> sort_by (λ a, key (f a)) l = sort_by key (f <$> l).
Proof.
  induction l as [|x l IH]; [done|]. cbn [sort_by fmap list_fmap].
  by rewrite sort_by_insert_fmap, <- IH.
Qed.

Lemma numbered_name_No (l : list Category) : (numbered_name <$> l).*1 = No <$> l.
Proof. by rewrite <- list_fmap_compose. Qed.

Lemma numbered_names_nos (l k : list Category) :
  numbered_name <$> l = numbered_name <$> k → No <$> l = No <$> k.
Proof. intros H. by rewrite <- !numbered_name_No, H. Qed.

Lemma Exists_No (cats : list Category) no :
  Exists (λ c, No c = no) cats ↔ no ∈ No <$> cats.
Proof.
  rewrite Exists_exists, list_elem_of_fmap. split.
  - intros (c & Hc & <-). by exists c.
  - intros (c & -> & Hc). by exists c.
Qed.

Lemma same_names_snoc l cats new :
  numbered_name <$> unique_by_no ∅ l = numbered_name <$> cats →
  numbered_name <$> unique_by_no ∅ (l ++ [new])
  = numbered_name <$>
      (if bool_decide (Exists (λ c, No c = No new) cats) then cats
       else cats ++ [new]).
Proof.
  intros H. rewrite unique_by_no_snoc.
  assert (Hnos : No new ∈ No <$> l ↔ No new ∈ No <$> cats).
  { rewrite <- (numbered_names_nos _ _ H), unique_by_no_elem.
    split; [|tauto]. intros ?. split; [done|]. apply not_elem_of_empty. }
  destruct (decide (No new ∈ No <$> l)) as [Hin|Hin].
  - rewrite bool_decide_eq_true_2 by (by right).
    rewrite bool_decide_eq_true_2 by (by apply Exists_No, Hnos).
    by rewrite app_nil_r.
  - rewrite bool_decide_eq_false_2.
    2:{ intros [Hempty|?]; [|done]. by apply not_elem_of_empty in Hempty. }
    rewrite bool_decide_eq_false_2 by (rewrite Exists_No; tauto).
    by rewrite !fmap_app, H.
Qed.

Lemma pending_main_item_row st row :
  main_item_row st row = st
  ∨ ∃ new, pending (main_item_row st row) = pending st ++ [new]
           ∧ ∀ cats, App.scan_row cats row
                     = if bool_decide (length row < 2) then cats
                       else if bool_decide (Exists (λ c, No c = No new) cats)
                            then cats else cats ++ [mkCategory (No new) (MainCategory new) []].
Proof.
  unfold main_item_row, App.scan_row, pending.
  destruct (nonempty (cell_text (row_cell row 0))); [|by left].
  destruct (re_match_digits (cell_text (row_cell row 0))) as [digits|]; [|by left].
  destruct (nonempty (cell_text (row_cell row 1))); [|by left].
  right. eexists. split.
  - cbn [categories current_category option_list].
    destruct (current_category st); cbn [option_list]; [done|].
    by rewrite app_nil_r.
  - done.
Qed.

Lemma app_scan_row_quiet st row cats :
  main_item_row st row = st → 2 ≤ length row → App.scan_row cats row = cats.
Proof.
  unfold main_item_row, App.scan_row. intros Hsame Hlen.
  rewrite bool_decide_eq_false_2 by lia.
  destruct (nonempty (cell_text (row_cell row 0))); [|done].
  destruct (re_match_digits (cell_text (row_cell row 0))) as [digits|]; [|done].
  destruct (nonempty (cell_text (row_cell row 1))); [|done].
  exfalso. destruct st as [cs cur]. injection Hsame as Hcs Hcur.
  rewrite <- Hcur in Hcs. simpl in Hcs.
  apply (f_equal length) in Hcs. rewrite length_app in Hcs. simpl in Hcs. lia.
Qed.

Lemma same_names_sub_item_row st row cats :
  same_names st cats → same_names (sub_item_row st row) cats.
Proof.
  unfold same_names, pending. intros H.
  rewrite sub_item_row_categories.
  pose proof (sub_item_row_no st row) as Hno.
  assert (Hname : MainCategory <$> current_category (sub_item_row st row)
                  = MainCategory <$> current_category st).
  { unfold sub_item_row. destruct (current_category st) as [cur|] eqn:Hcur;
      [|by rewrite Hcur].
    case_bool_decide; [|by rewrite Hcur].
    destruct (_ && _ && _); [|by rewrite Hcur].
    destruct (_ && _); [done|by rewrite Hcur]. }
  destruct (current_category (sub_item_row st row)) as [cur'|],
    (current_category st) as [cur|]; simplify_eq/=; [|done].
  rewrite unique_by_no_snoc in H |- *. rewrite Hno.
  rewrite fmap_app in H |- *. rewrite <- H. f_equal.
  case_bool_decide; [done|]. cbn. unfold numbered_name. by rewrite Hno, Hname.
Qed.

Lemma same_names_scan_row st row cats :
  same_names st cats → same_names (scan_row st row) (App.scan_row cats row).
Proof.
  intros H. unfold scan_row.
  destruct (decide (length row < 2)) as [Hlen|Hlen].
  { rewrite bool_decide_eq_true_2 by done. unfold App.scan_row.
    by rewrite bool_decide_eq_true_2. }
  rewrite bool_decide_eq_false_2 by done.
  destruct (pending_main_item_row st row) as [Hsame|(new & Hpend & Happ)].
  - rewrite Hsame, (app_scan_row_quiet st) by (done || lia).
    by apply same_names_sub_item_row.
  - apply same_names_sub_item_row. unfold same_names. rewrite Hpend, Happ.
    rewrite (bool_decide_eq_false_2 (length row < 2)) by done.
    rewrite (same_names_snoc _ cats new H).
    destruct (bool_decide (Exists (λ c, No c = No new) cats)); [done|].
    by rewrite !fmap_app.
Qed.

Lemma same_names_scan_rows rows st cats :
  same_names st cats →
  same_names (fold_left scan_row rows st) (fold_left App.scan_row rows cats).
Proof.
  revert st cats. induction rows as [|row rows IH]; intros st cats H; [done|].
  cbn [fold_left]. by apply IH, same_names_scan_row.
Qed.

Lemma same_names_end_of_page st cats :
  same_names st cats → same_names (end_of_page st) cats.
Proof.
  unfold same_names, pending, end_of_page.
  destruct (current_category st) as [cur|] eqn:Hcur; [|by rewrite Hcur].
  case_bool_decide; [by rewrite Hcur|].
  cbn [categories current_category option_list]. by rewrite app_nil_r.
Qed.

Lemma app_scan_page_rows (page : Page) cats :
  fold_left App.scan_table page cats = fold_left App.scan_row (page_rows page) cats.
Proof.
  revert cats. unfold page_rows.
  induction page as [|t page IH]; intros cats; [done|]. cbn [fold_left].
  unfold App.scan_table at 2. destruct (decide (length t < 2)) as [Hshort|Hlong].
  - rewrite bool_decide_eq_true_2 by done.
    rewrite (filter_cons_False (λ t0 : Table, 2 ≤ length t0)) by lia. apply IH.
  - rewrite bool_decide_eq_false_2 by done.
    rewrite (filter_cons_True (λ t0 : Table, 2 ≤ length t0)) by lia. cbn [concat].
    by rewrite fold_left_app, IH.
Qed.

Lemma same_names_scan_pages (doc : Document) st cats :
  same_names st cats →
  same_names (fold_left scan_page doc st)
    (fold_left (λ cats (page : Page), fold_left App.scan_table page cats) doc cats).
Proof.
  revert st cats. induction doc as [|page doc IH]; intros st cats H; [done|].
  cbn [fold_left]. apply IH. rewrite scan_page_as_rows, app_scan_page_rows.
  by apply same_names_end_of_page, same_names_scan_rows.
Qed.

Lemma settled_pending st :
  settled st → unique_by_no ∅ (pending st) = unique_by_no ∅ (categories st).
Proof.
  unfold settled, pending. destruct (current_category st) as [cur|].
  - intros Hin. apply unique_snoc_shadowed. by apply list_elem_of_fmap_2.
  - intros _. by rewrite app_nil_r.
Qed.

(** Both programs read the same numbered names off a document: the table
    scan of [main.py] differs from the one of [app.py] only in the
    sub-items it collects. *)
Theorem pdf_extractions_agree (doc : Document) :
  numbered_name <$> extract_categories_from_pdf doc
  = numbered_name <$> App.extract_categories_from_pdf doc.
Proof.
  unfold extract_categories_from_pdf, App.extract_categories_from_pdf.
  rewrite !(sort_by_fmap numbered_name fst). f_equal.
  rewrite <- settled_pending by (by apply scan_pages_settled).
  by apply (same_names_scan_pages doc scan_start []).
Qed.

(** ** What the tabular path keeps *)

Lemma int_digits_from_nonneg s acc :
  (0 ≤ acc)%Z → (0 ≤ int_digits_from acc (leading_digits s))%Z.
Proof.
  revert acc. induction s as [|c s IH]; intros acc Hacc; [done|].
  cbn [leading_digits]. destruct (re_digit c) eqn:Hc; [|done].
  cbn [int_digits_from]. apply IH. unfold re_digit in Hc. unfold digit_val.
  apply andb_true_iff in Hc as [Hlo _]. apply N.leb_le in Hlo. lia.
Qed.

Lemma re_match_digits_nonneg s digits :
  re_match_digits s = Some digits → (0 ≤ int_digits digits)%Z.
Proof.
  unfold re_match_digits. destruct (nonempty (leading_digits s)); [|done].
  intros [= <-]. by apply int_digits_from_nonneg.
Qed.

Lemma str_take_length n s : String.length (str_take n s) ≤ n.
Proof.
  revert s. induction n as [|n IH]; intros [|c s]; cbn; try lia.
  specialize (IH s). lia.
Qed.

Lemma nonempty_ne s : nonempty s = true → s ≠ EmptyString.
Proof. by destruct s. Qed.

Lemma well_formed_main_item_row st row :
  Forall well_formed (pending st) → Forall well_formed (pending (main_item_row st row)).
Proof.
  intros H. unfold main_item_row.
  destruct (nonempty (cell_text (row_cell row 0))); [|done].
  destruct (re_match_digits (cell_text (row_cell row 0))) as [digits|] eqn:Hd; [|done].
  destruct (nonempty (cell_text (row_cell row 1))); [|done].
  unfold pending in *. cbn [categories current_category option_list].
  apply Forall_app. split.
  - destruct (current_category st); cbn [option_list] in H; [done|].
    by rewrite app_nil_r in H.
  - apply Forall_singleton. split; [by eapply re_match_digits_nonneg|].
    split; [apply NoDup_nil_2|apply Forall_nil_2].
Qed.

Lemma well_formed_sub_item_row st row :
  Forall well_formed (pending st) → Forall well_formed (pending (sub_item_row st row)).
Proof.
  intros H. unfold sub_item_row.
  destruct (current_category st) as [cur|] eqn:Hcur; [|done].
  case_bool_decide; [|done].
  destruct (_ && _ && _); [|done].
  destruct (nonempty _ && negb _) eqn:Hnew; [|done].
  apply andb_true_iff in Hnew as [Hne Hfresh].
  apply negb_true_iff, bool_decide_eq_false in Hfresh.
  unfold pending in *. rewrite Hcur in H. cbn [categories current_category option_list] in *.
  apply Forall_app in H as [Hcats Hc]. apply Forall_singleton in Hc as (Hno & Hnd & Hall).
  apply Forall_app. split; [done|]. apply Forall_singleton.
  split; [done|]. cbn [SubItems]. split.
  - apply NoDup_app. split; [done|]. split; [|apply NoDup_singleton].
    intros x Hx ->%list_elem_of_singleton. done.
  - apply Forall_app. split; [done|]. apply Forall_singleton.
    split; [by apply nonempty_ne|apply str_take_length].
Qed.

Lemma well_formed_scan_rows rows st :
  Forall well_formed (pending st) →
  Forall well_formed (pending (fold_left scan_row rows st)).
Proof.
  revert st. induction rows as [|row rows IH]; intros st H; [done|].
  cbn [fold_left]. apply IH. unfold scan_row. case_bool_decide; [done|].
  by apply well_formed_sub_item_row, well_formed_main_item_row.
Qed.

Lemma well_formed_end_of_page st :
  Forall well_formed (pending st) → Forall well_formed (pending (end_of_page st)).
Proof.
  unfold end_of_page, pending.
  destruct (current_category st) as [cur|] eqn:Hcur; [|by rewrite Hcur].
  case_bool_decide; [by rewrite Hcur|].
  cbn [categories current_category option_list]. by rewrite app_nil_r.
Qed.

Lemma well_formed_scan_pages (doc : Document) st :
  Forall well_formed (pending st) →
  Forall well_formed (pending (fold_left scan_page doc st)).
Proof.
  revert st. induction doc as [|page doc IH]; intros st H; [done|].
  cbn [fold_left]. apply IH. rewrite scan_page_as_rows.
  by apply well_formed_end_of_page, well_formed_scan_rows.
Qed.

Lemma unique_by_no_subseteq seen cats : unique_by_no seen cats ⊆ cats.
Proof.
  revert seen. induction cats as [|c cats IH]; intros seen; cbn [unique_by_no]; [done|].
  case_bool_decide.
  - intros x Hx. right. by eapply IH.
  - intros x [->|Hx]%elem_of_cons; [left|right; by eapply IH].
Qed.

(** Every category the tabular path of [main.py] returns has a number that
    is not negative and sub-items that are pairwise different, not empty and
    at most 100 characters long. *)
Theorem extracted_categories_well_formed (doc : Document) :
  Forall well_formed (extract_categories_from_pdf doc).
Proof.
  unfold extract_categories_from_pdf. rewrite (sort_by_perm No).
  assert (H : Forall well_formed (pending (fold_left scan_page doc scan_start))).
  { apply well_formed_scan_pages. apply Forall_nil_2. }
  unfold pending in H. apply Forall_app in H as [H _].
  rewrite Forall_forall in H |- *. intros c Hc. apply H.
  by eapply unique_by_no_subseteq.
Qed.

(** ** The worksheet path and the table scan of [app.py] *)

Lemma app_scan_row_NoDup cats row :
  NoDup (No <$> cats) → NoDup (No <$> App.scan_row cats row).
Proof.
  intros H. unfold App.scan_row. case_bool_decide; [done|].
  destruct (nonempty _); [|done].
  destruct (re_match_digits _) as [digits|]; [|done].
  destruct (nonempty _); [|done].
  case_bool_decide as Hex; [done|]. rewrite Exists_No in Hex.
  rewrite fmap_app. apply NoDup_app. split; [done|]. split; [|apply NoDup_singleton].
  intros x Hx ->%list_elem_of_singleton. done.
Qed.

Lemma excel_row_NoDup cats row :
  NoDup (No <$> cats) → NoDup (No <$> excel_row cats row).
Proof.
  intros H. unfold excel_row. case_bool_decide; [done|].
  destruct (nonempty _); [|done].
  destruct (re_match_digits _) as [digits|]; [|done].
  destruct (nonempty _); [|done].
  case_bool_decide as Hex; [done|]. rewrite Exists_No in Hex.
  rewrite fmap_app. apply NoDup_app. split; [done|]. split; [|apply NoDup_singleton].
  intros x Hx ->%list_elem_of_singleton. done.
Qed.

Lemma fold_left_preserves {A B} (P : A → Prop) (f : A → B → A) l a :
  (∀ a b, P a → P (f a b)) → P a → P (fold_left f l a).
Proof.
  intros Hf. revert a. induction l as [|b l IH]; intros a Ha; [done|].
  cbn [fold_left]. by apply IH, Hf.
Qed.

Lemma app_extraction_strictly_sorted (doc : Document) :
  StronglySorted (λ a b, No a < No b)%Z (App.extract_categories_from_pdf doc).
Proof.
  unfold App.extract_categories_from_pdf.
  apply sorted_strict; [apply sort_by_sorted|]. rewrite (sort_by_perm No).
  apply (fold_left_preserves (λ cats, NoDup (No <$> cats))); [|apply NoDup_nil_2].
  intros cats page Hcats.
  apply (fold_left_preserves (λ cats, NoDup (No <$> cats))); [|done].
  intros cats' t Hcats'. unfold App.scan_table. case_bool_decide; [done|].
  apply (fold_left_preserves (λ cats, NoDup (No <$> cats))); [|done].
  intros ???. by apply app_scan_row_NoDup.
Qed.

(** The table scan of [app.py] and the worksheet path return their
    categories in strictly ascending order of [No], so that no number occurs
    twice. *)
Theorem app_and_excel_strictly_sorted :
  (∀ doc, StronglySorted (λ a b, No a < No b)%Z (App.extract_categories_from_pdf doc))
  ∧ (∀ rows, StronglySorted (λ a b, No a < No b)%Z (extract_categories_from_excel rows)).
Proof.
  split; [apply app_extraction_strictly_sorted|].
  intros rows. unfold extract_categories_from_excel.
  apply sorted_strict; [apply sort_by_sorted|]. rewrite (sort_by_perm No).
  apply (fold_left_preserves (λ cats, NoDup (No <$> cats))); [|apply NoDup_nil_2].
  intros ???. by apply excel_row_NoDup.
Qed.

Lemma value_text_as_value cell : value_text (as_value cell) = cell_text cell.
Proof. by destruct cell. Qed.

Lemma row_value_as_value (row : Row) i :
  row_value (as_value <$> row) i = as_value (row_cell row i).
Proof.
  unfold row_value, row_cell, Row in *. rewrite list_lookup_fmap.
  destruct (row !! i) as [[s|]|]; reflexivity.
Qed.

Lemma excel_row_as_value cats (row : Row) :
  excel_row cats (as_value <$> row) = App.scan_row cats row.
Proof.
  unfold excel_row, App.scan_row.
  by rewrite length_fmap, !row_value_as_value, !value_text_as_value.
Qed.

(** A table of at least two rows gives the same taxonomy whether [app.py]
    reads it from a document or the worksheet path reads its cells. *)
Theorem excel_like_single_table (table : list (list (option string))) :
  2 ≤ length table →
  extract_categories_from_excel (fmap (M:=list) as_value <$> table)
  = App.extract_categories_from_pdf [[table]].
Proof.
  intros Hlen. unfold extract_categories_from_excel, App.extract_categories_from_pdf.
  f_equal. cbn [fold_left]. unfold App.scan_table.
  rewrite (bool_decide_eq_false_2 (length table < 2)) by lia.
  clear Hlen. generalize (@nil Category).
  induction table as [|row table IH]; intros cats; [done|].
  cbn [fmap list_fmap fold_left]. by rewrite excel_row_as_value, IH.
Qed.

Lemma excel_like_single_table_witness :
  extract_categories_from_excel (fmap (M:=list) as_value <$> scenario_A_table)
  = App.extract_categories_from_pdf [[scenario_A_table]].
Proof. apply (excel_like_single_table scenario_A_table). vm_compute. lia. Defined.

(** ** The shape of the groups *)

Section GroupHeads.
Variable step :
  list Group * option Group → nat * Slide → list Group * option Group.
Hypothesis step_heads : ∀ st it,
  group_opening <$> close_groups (step st it)
  = (group_opening <$> close_groups st)
    ++ (if has_title it.2 || negb (bool_decide (is_Some st.2))
        then [(it.1, opening_title it)] else []).
Hypothesis step_open : ∀ st it, is_Some (step st it).2.

Lemma loop_heads_open items st :
  is_Some st.2 →
  group_opening <$> close_groups (fold_left step items st)
  = (group_opening <$> close_groups st)
    ++ ((λ it, (it.1, opening_title it))
          <$> filter (λ it : nat * Slide, has_title it.2 = true) items).
Proof.
  revert st. induction items as [|it items IH]; intros st Hst; cbn [fold_left].
  - by rewrite app_nil_r.
  - rewrite IH by apply step_open. rewrite step_heads.
    rewrite (bool_decide_eq_true_2 _ Hst), orb_false_r, <- app_assoc. f_equal.
    destruct (has_title it.2) eqn:Ht.
    + by rewrite (filter_cons_True (λ it : nat * Slide, has_title it.2 = true)).
    + rewrite (filter_cons_False (λ it : nat * Slide, has_title it.2 = true));
        [done|congruence].
Qed.

Lemma loop_heads items :
  group_opening <$> close_groups (fold_left step items ([], None))
  = (λ it, (it.1, opening_title it)) <$> openers items.
Proof.
  destruct items as [|it items]; [done|]. cbn [fold_left openers].
  rewrite loop_heads_open by apply step_open. rewrite step_heads.
  cbn [snd]. rewrite bool_decide_eq_false_2 by (by intros [? ?]).
  by rewrite orb_true_r.
Qed.

End GroupHeads.

Lemma group_slide_heads st it :
  group_opening <$> close_groups (group_slide st it)
  = (group_opening <$> close_groups st)
    ++ (if has_title it.2 || negb (bool_decide (is_Some st.2))
        then [(it.1, opening_title it)] else []).
Proof.
  destruct st as [groups cur], it as [idx slide].
  unfold group_slide, opening_title, has_title. cbn [fst snd].
  destruct (nonempty (get_slide_title slide)).
  - rewrite close_groups_open, fmap_app. cbn [orb]. by destruct cur.
  - destruct cur as [g|].
    + rewrite bool_decide_eq_true_2 by (by eexists). cbn [orb negb].
      by rewrite !close_groups_open, !fmap_app, app_nil_r.
    + rewrite bool_decide_eq_false_2 by (by intros [? ?]). cbn [orb negb].
      by rewrite !close_groups_open, !fmap_app.
Qed.

Lemma app_group_slide_heads st it :
  group_opening <$> close_groups (App.group_slide st it)
  = (group_opening <$> close_groups st)
    ++ (if has_title it.2 || negb (bool_decide (is_Some st.2))
        then [(it.1, opening_title it)] else []).
Proof.
  destruct st as [groups cur], it as [idx slide].
  unfold App.group_slide, opening_title, has_title. cbn [fst snd].
  destruct (nonempty (get_slide_title slide)).
  - rewrite close_groups_open, fmap_app. cbn [orb]. by destruct cur.
  - destruct cur as [g|].
    + rewrite bool_decide_eq_true_2 by (by eexists). cbn [orb negb].
      by rewrite !close_groups_open, !fmap_app, app_nil_r.
    + rewrite bool_decide_eq_false_2 by (by intros [? ?]). cbn [orb negb].
      by rewrite !close_groups_open, !fmap_app.
Qed.

Lemma group_slide_open st it : is_Some (group_slide st it).2.
Proof.
  destruct st as [groups cur], it as [idx slide]. unfold group_slide.
  destruct (nonempty _); [by eexists|]. destruct cur; by eexists.
Qed.

Lemma app_group_slide_open st it : is_Some (App.group_slide st it).2.
Proof.
  destruct st as [groups cur], it as [idx slide]. unfold App.group_slide.
  destruct (nonempty _); [by eexists|]. destruct cur; by eexists.
Qed.

(** The groups start at the first content slide and at every later slide
    that has a title, and nowhere else; each is called after the slide it
    starts at.  This holds for the grouping loop of [main.py], for the one
    of [app.py], and for [get_slide_groups] over the whole deck. *)
Theorem groups_start_at_titles (deck : list Slide) :
  group_opening <$> slide_groups deck
  = (λ it, (it.1, opening_title it)) <$> openers (slides_from FIXED_SLIDES deck)
  ∧ group_opening <$> App.slide_groups deck
    = (λ it, (it.1, opening_title it)) <$> openers (slides_from FIXED_SLIDES deck)
  ∧ group_opening <$> get_slide_groups deck
    = (λ it, (it.1, opening_title it)) <$> openers (slides_from 0 deck).
Proof.
  split; [|split].
  - apply loop_heads; [apply group_slide_heads|apply group_slide_open].
  - apply loop_heads; [apply app_group_slide_heads|apply app_group_slide_open].
  - apply loop_heads; [apply app_group_slide_heads|apply app_group_slide_open].
Qed.

Section GroupInvariant.
Variable P : Group → Prop.
Variable step :
  list Group * option Group → nat * Slide → list Group * option Group.
Hypothesis step_keeps : ∀ st it,
  Forall P (close_groups st) → Forall P (close_groups (step st it)).

Lemma loop_keeps items st :
  Forall P (close_groups st) → Forall P (close_groups (fold_left step items st)).
Proof.
  revert st. induction items as [|it items IH]; intros st H; cbn [fold_left]; [done|].
  by apply IH, step_keeps.
Qed.

End GroupInvariant.

(** The first position of a group is its [first_index]. *)
Lemma group_slide_first st it :
  Forall (λ g, head (slides g) = Some (first_index g)) (close_groups st) →
  Forall (λ g, head (slides g) = Some (first_index g)) (close_groups (group_slide st it)).
Proof.
  destruct st as [groups cur], it as [idx slide]. unfold group_slide. intros H.
  destruct (nonempty (get_slide_title slide)).
  - rewrite close_groups_open. apply Forall_app. split; [by destruct cur|].
    by apply Forall_singleton.
  - destruct cur as [g|]; rewrite close_groups_open.
    + rewrite close_groups_open in H. apply Forall_app in H as [H1 H2].
      rewrite Forall_singleton in H2.
      apply Forall_app. split; [done|]. apply Forall_singleton. cbn.
      revert H2. by destruct (slides g).
    + apply Forall_app. split; [done|]. by apply Forall_singleton.
Qed.

Lemma app_group_slide_first st it :
  Forall (λ g, head (slides g) = Some (first_index g)) (close_groups st) →
  Forall (λ g, head (slides g) = Some (first_index g))
    (close_groups (App.group_slide st it)).
Proof.
  destruct st as [groups cur], it as [idx slide]. unfold App.group_slide. intros H.
  destruct (nonempty (get_slide_title slide)).
  - rewrite close_groups_open. apply Forall_app. split; [by destruct cur|].
    by apply Forall_singleton.
  - destruct cur as [g|]; rewrite close_groups_open.
    + rewrite close_groups_open in H. apply Forall_app in H as [H1 H2].
      rewrite Forall_singleton in H2.
      apply Forall_app. split; [done|]. apply Forall_singleton. cbn.
      revert H2. by destruct (slides g).
    + apply Forall_app. split; [done|]. by apply Forall_singleton.
Qed.

(** The parts of a partition of a run of consecutive numbers are runs. *)
Lemma concat_seq_runs (ls : list (list nat)) a n :
  concat ls = seq a n → Forall (λ l, ∃ b, l = seq b (length l)) ls.
Proof.
  revert a n. induction ls as [|l ls IH]; intros a n H; [constructor|].
  cbn [concat] in H.
  assert (Hlen : length l ≤ n).
  { apply (f_equal length) in H. rewrite length_app, length_seq in H. lia. }
  replace n with (length l + (n - length l)) in H by lia.
  rewrite seq_app in H. apply app_inj_1 in H as [Hl Hrest]; [|by rewrite length_seq].
  constructor; [by exists a|]. by eapply IH.
Qed.

Lemma runs_consecutive (groups : list Group) a n :
  concat (slides <$> groups) = seq a n →
  Forall (λ g, slides g ≠ []) groups →
  Forall (λ g, head (slides g) = Some (first_index g)) groups →
  Forall consecutive groups.
Proof.
  intros Hcat Hne Hfirst. apply concat_seq_runs in Hcat.
  rewrite Forall_fmap in Hcat.
  rewrite Forall_forall in Hcat, Hne, Hfirst. apply Forall_forall. intros g Hg.
  destruct (Hcat g Hg) as [b Hb]. specialize (Hne g Hg). specialize (Hfirst g Hg).
  cbn in Hb. split.
  - rewrite Hb in Hfirst. destruct (length (slides g)) eqn:Hl.
    + by destruct (slides g).
    + cbn in Hfirst. by simplify_eq.
  - destruct (slides g); [done|cbn; lia].
Qed.

Lemma get_slide_groups_concat deck :
  concat (slides <$> get_slide_groups deck) = seq 0 (length deck).
Proof.
  unfold get_slide_groups.
  change (concat (slides <$> close_groups ?st)) with (grouped st).
  rewrite (loop_grouped _ app_group_slide_grouped), slides_from_fst.
  by rewrite Nat.sub_0_r.
Qed.

(** Every group, of either program and of [get_slide_groups], is a run of
    consecutive slide positions that starts at its [first_index] and is not
    empty; [get_slide_groups] covers every position of the deck, each once
    and in order. *)
Theorem groups_are_runs (deck : list Slide) :
  Forall consecutive (slide_groups deck)
  ∧ Forall consecutive (App.slide_groups deck)
  ∧ Forall consecutive (get_slide_groups deck)
  ∧ concat (slides <$> get_slide_groups deck) = seq 0 (length deck).
Proof.
  split; [|split; [|split]].
  - destruct (slide_groups_partitions deck) as [Hcat Hne].
    eapply runs_consecutive; [done..|].
    apply loop_keeps; [apply group_slide_first|constructor].
  - destruct (app_slide_groups_partitions deck) as [Hcat Hne].
    eapply runs_consecutive; [done..|].
    apply loop_keeps; [apply app_group_slide_first|constructor].
  - eapply runs_consecutive; [apply get_slide_groups_concat| |].
    + apply (loop_nonempty _ app_group_slide_nonempty). constructor.
    + apply loop_keeps; [apply app_group_slide_first|constructor].
  - apply get_slide_groups_concat.
Qed.

Lemma str_take_nonempty n s : nonempty s = true → nonempty (str_take (S n) s) = true.
Proof. by destruct s. Qed.

Lemma opening_title_nonempty it : nonempty (opening_title it) = true.
Proof.
  unfold opening_title, has_title.
  destruct (nonempty (get_slide_title it.2)) eqn:Ht; [done|].
  destruct (nonempty (get_slide_first_text it.2)) eqn:Hf; [|done].
  by apply str_take_nonempty.
Qed.

Lemma group_slide_content st it :
  Forall (λ g, String.length (content g) ≤ 500) (close_groups st) →
  Forall (λ g, String.length (content g) ≤ 500) (close_groups (group_slide st it)).
Proof.
  destruct st as [groups cur], it as [idx slide]. unfold group_slide. intros H.
  destruct (nonempty (get_slide_title slide)).
  - rewrite close_groups_open. apply Forall_app. split; [by destruct cur|].
    apply Forall_singleton. apply str_take_length.
  - destruct cur as [g|]; rewrite close_groups_open.
    + rewrite close_groups_open in H. apply Forall_app in H as [H1 _].
      apply Forall_app. split; [done|]. apply Forall_singleton. apply str_take_length.
    + apply Forall_app. split; [done|]. apply Forall_singleton. apply str_take_length.
Qed.

Lemma app_group_slide_content st it :
  Forall (λ g, content g = EmptyString) (close_groups st) →
  Forall (λ g, content g = EmptyString) (close_groups (App.group_slide st it)).
Proof.
  destruct st as [groups cur], it as [idx slide]. unfold App.group_slide. intros H.
  destruct (nonempty (get_slide_title slide)).
  - rewrite close_groups_open. apply Forall_app. split; [by destruct cur|].
    by apply Forall_singleton.
  - destruct cur as [g|]; rewrite close_groups_open.
    + rewrite close_groups_open in H. apply Forall_app in H as [H1 H2].
      rewrite Forall_singleton in H2.
      apply Forall_app. split; [done|]. by apply Forall_singleton.
    + apply Forall_app. split; [done|]. by apply Forall_singleton.
Qed.

Lemma opened_titles_nonempty (groups : list Group) (items : list (nat * Slide)) :
  group_opening <$> groups = (λ it, (it.1, opening_title it)) <$> items →
  Forall (λ g, title g ≠ EmptyString) groups.
Proof.
  revert items. induction groups as [|g groups IH]; intros [|it items] H;
    [constructor|done|done|].
  rewrite !fmap_cons in H. apply (inj2 cons) in H as [Hg Hrest].
  constructor; [|by eapply IH].
  unfold group_opening in Hg. injection Hg as _ ->.
  apply nonempty_ne, opening_title_nonempty.
Qed.

(** What the prompt is built from: no group has an empty title, and the
    content [main.py] collects for a group never exceeds 500 characters
    ([app.py] and [get_slide_groups] collect none). *)
Theorem group_texts_bounded (deck : list Slide) :
  Forall (λ g, title g ≠ EmptyString ∧ String.length (content g) ≤ 500)
    (slide_groups deck)
  ∧ Forall (λ g, title g ≠ EmptyString ∧ content g = EmptyString)
      (App.slide_groups deck)
  ∧ Forall (λ g, title g ≠ EmptyString ∧ content g = EmptyString)
      (get_slide_groups deck).
Proof.
  split; [|split]; apply Forall_and; split.
  - eapply opened_titles_nonempty.
    apply loop_heads; [apply group_slide_heads|apply group_slide_open].
  - apply loop_keeps; [apply group_slide_content|constructor].
  - eapply opened_titles_nonempty.
    apply loop_heads; [apply app_group_slide_heads|apply app_group_slide_open].
  - apply loop_keeps; [apply app_group_slide_content|constructor].
  - eapply opened_titles_nonempty.
    apply loop_heads; [apply app_group_slide_heads|apply app_group_slide_open].
  - apply loop_keeps; [apply app_group_slide_content|constructor].
Qed.

Lemma slides_from_cons k (deck : list Slide) slide :
  deck !! k = Some slide →
  slides_from k deck = (k, slide) :: slides_from (S k) deck.
Proof.
  intros Hk. unfold slides_from.
  pose proof (lookup_lt_Some _ _ _ Hk) as Hlt.
  rewrite (drop_S _ _ _ Hk).
  replace (length deck - k) with (S (length deck - S k)) by lia. done.
Qed.

Lemma slides_from_snd k (deck : list Slide) : (slides_from k deck).*2 = drop k deck.
Proof.
  unfold slides_from. apply snd_zip. rewrite length_seq, length_drop. lia.
Qed.

Lemma filter_untitled (items : list (nat * Slide)) :
  Forall (λ slide, has_title slide = false) items.*2 →
  filter (λ it : nat * Slide, has_title it.2 = true) items = [].
Proof.
  induction items as [|it items IH]; [done|]. cbn [fmap list_fmap].
  intros [Hit Hrest]%Forall_cons.
  rewrite (filter_cons_False (λ it : nat * Slide, has_title it.2 = true));
    [by apply IH|congruence].
Qed.

(** A deck none of whose content slides has a title is one single group:
    all content positions, called after the first text of the first content
    slide (its first 50 characters) or, if that slide shows no text,
    ["[Untitled 2]"]. *)
Theorem untitled_deck_one_group (deck : list Slide) (slide : Slide) :
  deck !! FIXED_SLIDES = Some slide →
  Forall (λ slide, has_title slide = false) (drop FIXED_SLIDES deck) →
  ∃ g, slide_groups deck = [g]
       ∧ slides g = seq FIXED_SLIDES (length deck - FIXED_SLIDES)
       ∧ first_index g = FIXED_SLIDES
       ∧ title g = (let first_text := get_slide_first_text slide in
                    if nonempty first_text then str_take 50 first_text
                    else untitled FIXED_SLIDES).
Proof.
  intros Hslide Hnone.
  assert (Hheads : group_opening <$> slide_groups deck
                   = [(FIXED_SLIDES, opening_title (FIXED_SLIDES, slide))]).
  { unfold slide_groups.
    rewrite (loop_heads _ group_slide_heads group_slide_open).
    rewrite (slides_from_cons _ _ _ Hslide). cbn [openers].
    rewrite filter_untitled; [done|].
    rewrite slides_from_snd. rewrite (drop_S _ _ _ Hslide) in Hnone.
    by apply Forall_cons in Hnone as [_ ?]. }
  destruct (slide_groups deck) as [|g [|g' groups]] eqn:Hgroups; [done| |done].
  exists g. split; [done|].
  pose proof (slide_groups_concat deck) as Hcat. rewrite Hgroups in Hcat.
  cbn in Hcat. rewrite app_nil_r in Hcat. split; [done|].
  cbn in Hheads. injection Hheads as Hfirst Htitle. split; [done|].
  rewrite Htitle. unfold opening_title. cbn [snd fst].
  rewrite (drop_S _ _ _ Hslide) in Hnone. apply Forall_cons in Hnone as [-> _]. done.
Qed.

Lemma untitled_deck_one_group_witness :
  ∃ g, slide_groups text_box_deck = [g]
       ∧ slides g = seq FIXED_SLIDES (length text_box_deck - FIXED_SLIDES)
       ∧ first_index g = FIXED_SLIDES
       ∧ title g = (let first_text := get_slide_first_text (text_box "Introduction") in
                    if nonempty first_text then str_take 50 first_text
                    else untitled FIXED_SLIDES).
Proof.
  apply (untitled_deck_one_group text_box_deck (text_box "Introduction")).
  - reflexivity.
  - repeat constructor.
Defined.

(** ** The slide sequence that is saved *)

Lemma app_populate_toc_deck prs cats i :
  (App.populate_toc prs cats i).1 = prs
  ∨ ∃ s, (App.populate_toc prs cats i).1 = <[i := s]> prs.
Proof.
  unfold App.populate_toc. destruct (prs !! i) as [toc|]; [|by left].
  destruct (App.fill_first _ _) as [shs|]; [|by left].
  right. by eexists.
Qed.

Lemma app_slide_groups_populate_toc prs cats :
  App.slide_groups (App.populate_toc prs cats 1).1 = App.slide_groups prs.
Proof.
  destruct (app_populate_toc_deck prs cats 1) as [->|[s ->]]; [done|].
  unfold App.slide_groups, slides_from.
  rewrite length_insert, drop_insert_lt; [done|]. unfold FIXED_SLIDES. lia.
Qed.

Lemma app_populate_toc_length prs cats i :
  length (App.populate_toc prs cats i).1 = length prs.
Proof.
  destruct (app_populate_toc_deck prs cats i) as [->|[s ->]]; [done|].
  apply length_insert.
Qed.

Lemma app_mapping_entry_validated mapping item mapping' :
  validated mapping → App.mapping_entry mapping item = Some mapping' →
  validated mapping'.
Proof.
  unfold App.mapping_entry. intros Hv Hstep.
  destruct (App.int_of_json item.2) as [v|]; [|done]. cbn [mbind option_bind] in Hstep.
  case_bool_decide as Hge; [|by simplify_eq].
  destruct (py_int item.1) as [k|]; [|done]. cbn [mbind option_bind] in Hstep.
  simplify_eq. by apply map_Forall_insert_2.
Qed.

Lemma app_create_matching_validated model cats groups mapping :
  App.create_matching_with_ai model cats groups = Some mapping → validated mapping.
Proof.
  unfold App.create_matching_with_ai.
  destruct (model cats groups) as [[| | | | | |members]|]; try done.
  assert (H : ∀ m m', validated m → foldM App.mapping_entry m members = Some m' →
                      validated m').
  { induction members as [|item members IH]; intros m m' Hm Hrun; cbn [foldM] in Hrun.
    - by simplify_eq.
    - destruct (App.mapping_entry m item) as [m1|] eqn:Hstep; [|done].
      cbn [mbind option_bind] in Hrun.
      eapply IH; [|done]. by eapply app_mapping_entry_validated. }
  apply H, map_Forall_empty.
Qed.

(** How [process_pptx] of [app.py] ends. *)
Lemma app_process_pptx_cases model cats deck :
  let prs := (App.populate_toc deck cats 1).1 in
  let groups := App.slide_groups deck in
  (length deck ≤ FIXED_SLIDES ∧ App.process_pptx model cats deck = None)
  ∨ (FIXED_SLIDES < length deck
     ∧ App.create_matching_with_ai model cats groups = None
     ∧ App.process_pptx model cats deck = None)
  ∨ (FIXED_SLIDES < length deck
     ∧ ∃ mapping r,
         App.create_matching_with_ai model cats groups = Some mapping
         ∧ validated mapping
         ∧ App.process_pptx model cats deck = Some r
         ∧ reorder cats groups (NInt <$> mapping) prs = Some r).
Proof.
  cbn zeta. unfold App.process_pptx. case_bool_decide as Hlen; [by left|].
  right. rewrite app_slide_groups_populate_toc.
  destruct (App.create_matching_with_ai model cats (App.slide_groups deck))
    as [mapping|] eqn:Hmap; [right|left; split; [lia|done]].
  split; [lia|]. cbn [mbind option_bind].
  pose proof (app_create_matching_validated _ _ _ _ Hmap) as Hv.
  destruct (reorder_run cats (App.populate_toc deck cats 1).1 (App.slide_groups deck)
              mapping Hv) as (prs' & xml & Hrun & _).
  { rewrite app_populate_toc_length. lia. }
  { rewrite app_populate_toc_length. apply app_slide_groups_partitions. }
  cbn zeta in Hrun. rewrite Hrun. by eexists _, _.
Qed.

Lemma reorder_length cats (prs : list Slide) groups mapping r :
  validated mapping → FIXED_SLIDES ≤ length prs →
  partitions (length prs) groups →
  reorder cats groups (NInt <$> mapping) prs = Some r →
  length (out_slides r) = length prs.
Proof.
  intros Hv Hlen Hpart Hr.
  destruct (reorder_run cats prs groups mapping Hv Hlen Hpart)
    as (prs' & xml & Hrun & Hl & _).
  cbn zeta in Hrun. rewrite Hr in Hrun. by injection Hrun as ->.
Qed.

(** Whatever the oracle answers, a deck that either program saves holds
    every slide of the input exactly once, with the cover and the contents
    slide in front: a group that two categories are mapped to is placed
    once, where its last placement puts it. *)
Theorem saved_deck_keeps_every_slide (model : Oracle) (cats : list Category)
    (deck : list Slide) (r : Reordered) :
  process_pptx model cats deck = Saved r
  ∨ App.process_pptx model cats deck = Some r →
  saved_sequence r ≡ₚ seq 0 (length deck)
  ∧ NoDup (saved_sequence r)
  ∧ take FIXED_SLIDES (saved_sequence r) = seq 0 FIXED_SLIDES
  ∧ length (out_slides r) = length deck.
Proof.
  intros [Hmain|Happ].
  - apply process_pptx_saved in Hmain as (Hlen & _ & _ & Hrun).
    rewrite <- (populate_toc_length deck cats 1).
    assert (Hv := create_matching_validated model cats (slide_groups deck)).
    assert (Hp : partitions (length (populate_toc deck cats 1).1) (slide_groups deck)).
    { rewrite populate_toc_length. apply slide_groups_partitions. }
    assert (Hl : FIXED_SLIDES ≤ length (populate_toc deck cats 1).1).
    { rewrite populate_toc_length. lia. }
    destruct (reorder_saved _ _ _ _ _ Hv Hl Hp Hrun) as (? & ? & ?).
    repeat split; try done. by eapply reorder_length.
  - destruct (app_process_pptx_cases model cats deck)
      as [[_ H]|[(_ & _ & H)|(Hlen & mapping & r' & Hmap & Hv & H & Hrun)]];
      rewrite H in Happ; simplify_eq.
    rewrite <- (app_populate_toc_length deck cats 1).
    assert (Hp : partitions (length (App.populate_toc deck cats 1).1)
                   (App.slide_groups deck)).
    { rewrite app_populate_toc_length. apply app_slide_groups_partitions. }
    assert (Hl : FIXED_SLIDES ≤ length (App.populate_toc deck cats 1).1).
    { rewrite app_populate_toc_length. lia. }
    destruct (reorder_saved _ _ _ _ _ Hv Hl Hp Hrun) as (? & ? & ?).
    repeat split; try done. by eapply reorder_length.
Qed.

Lemma saved_deck_keeps_every_slide_witness :
  saved_sequence same_target_run ≡ₚ seq 0 (length deck4)
  ∧ NoDup (saved_sequence same_target_run)
  ∧ take FIXED_SLIDES (saved_sequence same_target_run) = seq 0 FIXED_SLIDES
  ∧ length (out_slides same_target_run) = length deck4.
Proof.
  apply (saved_deck_keeps_every_slide (answers [("1", JInt 0); ("2", JInt 0)])
           two_cats deck4 same_target_run).
  left. vm_compute. reflexivity.
Defined.

(** ** What the reordering does to the slides *)

Lemma update_slide_title_twice slide t1 t2 :
  (update_slide_title (update_slide_title slide t1).1 t2).1
  = (update_slide_title slide t2).1.
Proof.
  unfold update_slide_title at 2 3.
  destruct (title_idx slide) as [i|] eqn:Hi.
  2:{ cbn [fst]. unfold update_slide_title. by rewrite Hi. }
  destruct (shapes slide !! i) as [sh|] eqn:Hsh; cbn [fst].
  2:{ unfold update_slide_title. by rewrite Hi, Hsh. }
  unfold update_slide_title. cbn [title_idx shapes].
  rewrite list_lookup_insert_eq by (by eapply lookup_lt_Some). cbn [fst width height].
  by rewrite list_insert_insert_eq.
Qed.

Lemma retitling_update s s' t :
  retitling s s' → (update_slide_title s' t).1 = (update_slide_title s t).1.
Proof. intros [->|[t' ->]]; [done|apply update_slide_title_twice]. Qed.

Lemma retitling_same_but_title s s' : retitling s s' → same_but_title s s'.
Proof.
  intros [->|[t ->]]; [done|]. unfold same_but_title, update_slide_title.
  destruct (title_idx s) as [i|] eqn:Hi; [|done].
  destruct (shapes s !! i) as [sh|] eqn:Hsh; cbn [fst]; [|done].
  cbn [title_idx shapes]. split; [done|]. split; [apply length_insert|].
  intros j Hj. apply list_lookup_insert_ne. congruence.
Qed.

(** Placing the matched groups retitles slides and does nothing else. *)
Lemma place_fold_retitling (ms : list Match) prs order prs' order' :
  foldM place_group (prs, order) ms = Some (prs', order') →
  Forall2 retitling prs prs'
  ∧ ∀ i, (∀ m, m ∈ ms → head (slides m.2) ≠ Some i) → prs' !! i = prs !! i.
Proof.
  revert prs order. induction ms as [|[[no name] g] ms IH]; intros prs order Hrun.
  - cbn in Hrun. simplify_eq. split; [|done].
    apply Forall2_same_length_lookup. split; [done|].
    intros i s s' ? ?. left. congruence.
  - cbn [foldM] in Hrun. unfold place_group at 2 in Hrun.
    destruct (head (slides g)) as [h|] eqn:Hh; [|done]. cbn [mbind option_bind] in Hrun.
    destruct (prs !! h) as [slide|] eqn:Hslide; [|done].
    cbn [mbind option_bind] in Hrun.
    destruct (IH _ _ Hrun) as [Hall Hkeep]. split.
    + apply Forall2_same_length_lookup. split.
      { apply Forall2_length in Hall. by rewrite length_insert in Hall. }
      intros i s s' Hs Hs'.
      pose proof (Forall2_lookup_r _ _ _ _ _ Hall Hs') as (s1 & Hs1 & Hret).
      destruct (decide (i = h)) as [->|Hne].
      * rewrite list_lookup_insert_eq in Hs1 by (by eapply lookup_lt_Some).
        simplify_eq. destruct Hret as [->|[t ->]].
        -- right. by eexists.
        -- right. exists t. apply update_slide_title_twice.
      * rewrite list_lookup_insert_ne in Hs1 by done. by simplify_eq.
    + intros i Hi. rewrite Hkeep.
      * apply list_lookup_insert_ne. intros ->.
        apply (Hi (no, name, g)); [left|done].
      * intros m Hm. apply Hi. by right.
Qed.

(** The slide a matched group starts with ends with the title of the last
    match placed on it. *)
Lemma place_fold_last (before after : list Match) m prs order prs' order' i slide :
  foldM place_group (prs, order) (before ++ m :: after) = Some (prs', order') →
  head (slides m.2) = Some i →
  (∀ m', m' ∈ after → head (slides m'.2) ≠ Some i) →
  prs !! i = Some slide →
  prs' !! i = Some (update_slide_title slide (new_title_of m.1.1 m.1.2)).1.
Proof.
  intros Hrun Hi Hafter Hslide. rewrite foldM_app in Hrun.
  destruct (foldM place_group (prs, order) before) as [[prs1 order1]|] eqn:Hbefore;
    [|done].
  cbn [mbind option_bind foldM] in Hrun.
  destruct (place_fold_retitling _ _ _ _ _ Hbefore) as [Hall _].
  pose proof (Forall2_lookup_l _ _ _ _ _ Hall Hslide) as (s1 & Hs1 & Hret).
  destruct m as [[no name] g]. cbn [fst snd] in *.
  rewrite (place_group_eq prs1 order1 no name g i s1 Hi Hs1) in Hrun.
  cbn [mbind option_bind] in Hrun.
  destruct (place_fold_retitling _ _ _ _ _ Hrun) as [_ Hkeep].
  rewrite (Hkeep i Hafter).
  rewrite list_lookup_insert_eq by (by eapply lookup_lt_Some).
  by rewrite (retitling_update slide s1).
Qed.

Lemma reorder_place cats (prs : list Slide) groups mapping r :
  validated mapping → FIXED_SLIDES ≤ length prs →
  partitions (length prs) groups →
  reorder cats groups (NInt <$> mapping) prs = Some r →
  foldM place_group (prs, seq 0 FIXED_SLIDES) (matched_list r)
  = Some (out_slides r,
          seq 0 FIXED_SLIDES ++ concat (slides <$> (matched_list r).*2))
  ∧ new_order r
    = (seq 0 FIXED_SLIDES ++ concat (slides <$> (matched_list r).*2))
      ++ concat (slides <$> unused_groups r)
  ∧ matched_list r
    = sort_by (λ m : Match, m.1.1) (resolved mapping groups cats).*2
  ∧ unused_groups r
    = unused_of groups (list_to_set (resolved mapping groups cats).*1).
Proof.
  intros Hv Hlen Hpart Hr.
  destruct (reorder_run cats prs groups mapping Hv Hlen Hpart)
    as (prs' & xml & Hrun & _ & Hplace & _).
  cbn zeta in Hrun, Hplace. rewrite Hr in Hrun. by injection Hrun as ->.
Qed.

Lemma either_partitions (deck : list Slide) groups :
  groups = slide_groups deck ∨ groups = App.slide_groups deck →
  partitions (length deck) groups.
Proof.
  intros [-> | ->]; [apply slide_groups_partitions|apply app_slide_groups_partitions].
Qed.

(** The reordering rewrites title placeholders and nothing else: every
    slide keeps its shapes but for the text of its title placeholder, a
    slide that is not the first of a matched group is left as it was, and
    so are the cover and the contents slide. *)
Theorem reorder_only_retitles (cats : list Category) (deck : list Slide)
    (groups : list Group) (mapping : gmap Z Number) (r : Reordered) :
  FIXED_SLIDES < length deck →
  groups = slide_groups deck ∨ groups = App.slide_groups deck →
  checked mapping →
  reorder cats groups mapping deck = Some r →
  Forall2 same_but_title deck (out_slides r)
  ∧ (∀ i, (∀ m, m ∈ matched_list r → head (slides m.2) ≠ Some i) →
          out_slides r !! i = deck !! i)
  ∧ take FIXED_SLIDES (out_slides r) = take FIXED_SLIDES deck.
Proof.
  intros Hlen Hgroups Hv%checked_ints Hr%reorder_completed.
  pose proof (either_partitions deck groups Hgroups) as Hpart.
  destruct (reorder_place cats deck groups (ints mapping) r Hv) as (Hplace & _ & Hml & _);
    [lia|done|done|].
  destruct (place_fold_retitling _ _ _ _ _ Hplace) as [Hall Hkeep].
  split; [|split; [done|]].
  - eapply Forall2_impl; [done|]. apply retitling_same_but_title.
  - assert (Hanchor : ∀ i, i < FIXED_SLIDES → out_slides r !! i = deck !! i).
    { intros i Hi. apply Hkeep. intros m Hm Hhead.
      assert (Hg : m.2 ∈ groups).
      { apply (resolved_group_elem (ints mapping) groups cats); [done|].
        rewrite Hml, (sort_by_perm (λ m : Match, m.1.1)) in Hm. done. }
      assert (Hin : i ∈ slides m.2).
      { destruct (slides m.2); simplify_eq/=. left. }
      pose proof (group_positions _ _ _ _ Hpart Hg Hin). lia. }
    apply list_eq. intros i. rewrite !lookup_take.
    case_decide; [by apply Hanchor|done].
Qed.

Lemma reorder_only_retitles_witness :
  Forall2 same_but_title deck6 (out_slides swapped_run)
  ∧ (∀ i, (∀ m, m ∈ matched_list swapped_run → head (slides m.2) ≠ Some i) →
          out_slides swapped_run !! i = deck6 !! i)
  ∧ take FIXED_SLIDES (out_slides swapped_run) = take FIXED_SLIDES deck6.
Proof.
  apply (reorder_only_retitles two_cats deck6 (slide_groups deck6)
           (NInt <$> swap_mapping) swapped_run).
  - vm_compute. lia.
  - left. reflexivity.
  - apply checked_fmap, swap_mapping_validated.
  - vm_compute. reflexivity.
Defined.

(** The first slide of a matched group ends up with the title of the last
    match placed on it, ["<No>. <name>"]: when two categories are mapped
    to one group, the one placed later names it (the one with the higher
    [No]; of two with the same [No], the later in the taxonomy).  A slide
    without a title placeholder stays as it is. *)
Theorem retitled_by_last_match (cats : list Category) (deck : list Slide)
    (groups : list Group) (mapping : gmap Z Number) (r : Reordered)
    (before after : list Match) (m : Match) (i : nat) (slide : Slide) :
  FIXED_SLIDES < length deck →
  groups = slide_groups deck ∨ groups = App.slide_groups deck →
  checked mapping →
  reorder cats groups mapping deck = Some r →
  matched_list r = before ++ m :: after →
  head (slides m.2) = Some i →
  (∀ m', m' ∈ after → head (slides m'.2) ≠ Some i) →
  deck !! i = Some slide →
  ∃ slide',
    out_slides r !! i = Some slide'
    ∧ slide' = (update_slide_title slide (new_title_of m.1.1 m.1.2)).1
    ∧ match shapes_title slide with
      | Some _ =>
          shape_text <$> shapes_title slide' = Some (new_title_of m.1.1 m.1.2)
          ∧ get_slide_title slide' = strip (new_title_of m.1.1 m.1.2)
      | None => slide' = slide
      end.
Proof.
  intros Hlen Hgroups Hv%checked_ints Hr%reorder_completed Hml Hi Hafter Hslide.
  pose proof (either_partitions deck groups Hgroups) as Hpart.
  destruct (reorder_place cats deck groups (ints mapping) r Hv) as (Hplace & _);
    [lia|done|done|].
  rewrite Hml in Hplace.
  pose proof (place_fold_last _ _ _ _ _ _ _ _ _ Hplace Hi Hafter Hslide) as Hout.
  eexists. split; [done|]. split; [done|].
  pose proof (update_slide_title_spec slide (new_title_of m.1.1 m.1.2)) as Hspec.
  destruct (shapes_title slide) as [sh|] eqn:Hsh.
  - destruct Hspec as (_ & Htext & _). split; [done|].
    unfold get_slide_title.
    destruct (shapes_title (update_slide_title slide _).1) as [sh'|]; [|done].
    cbn [fmap option_fmap option_map] in Htext. injection Htext as Htext.
    by rewrite Htext.
  - by rewrite Hspec.
Qed.

Lemma retitled_by_last_match_witness :
  ∃ slide',
    out_slides same_target_run !! 2 = Some slide'
    ∧ slide' = (update_slide_title (titled "Features")
                  (new_title_of 2 "Overview")).1
    ∧ match shapes_title (titled "Features") with
      | Some _ =>
          shape_text <$> shapes_title slide' = Some (new_title_of 2 "Overview")
          ∧ get_slide_title slide' = strip (new_title_of 2 "Overview")
      | None => slide' = titled "Features"
      end.
Proof.
  apply (retitled_by_last_match two_cats deck4 (slide_groups deck4)
           (NInt <$> same_target_mapping) same_target_run
           [(1%Z, "Intro", mkGroup "Features" [2] 2 "Features")] []
           (2%Z, "Overview", mkGroup "Features" [2] 2 "Features") 2
           (titled "Features")).
  - vm_compute. lia.
  - left. reflexivity.
  - apply checked_fmap, same_target_mapping_validated.
  - vm_compute. reflexivity.
  - vm_compute. reflexivity.
  - reflexivity.
  - intros m' Hm'. by apply elem_of_nil in Hm'.
  - reflexivity.
Defined.

(** ** Matched and unused groups *)

Lemma concat_NoDup_heads {A} (ls : list (list A)) :
  NoDup (concat ls) → Forall (λ l, l ≠ []) ls → NoDup (head <$> ls).
Proof.
  induction ls as [|l ls IH]; intros Hnd Hne; [constructor|].
  cbn [concat] in Hnd. apply NoDup_app in Hnd as (_ & Hdisj & Hrest).
  apply Forall_cons in Hne as [Hl Hne]. cbn [fmap list_fmap]. constructor; [|by apply IH].
  destruct l as [|x l]; [done|]. cbn [head]. intros Hin.
  apply list_elem_of_fmap in Hin as (l' & Hhead & Hl').
  apply (Hdisj x); [left|]. apply list_elem_of_In, in_concat.
  exists l'. split; [by apply list_elem_of_In|].
  destruct l' as [|y l']; simplify_eq/=. by left.
Qed.

Lemma partitions_heads n groups :
  partitions n groups → NoDup ((λ g, head (slides g)) <$> groups).
Proof.
  intros [Hcat Hne].
  assert (H : NoDup (head <$> (slides <$> groups))).
  { apply concat_NoDup_heads.
    - rewrite Hcat. apply NoDup_seq.
    - by apply Forall_fmap. }
  by rewrite <- list_fmap_compose in H.
Qed.

Lemma partitions_NoDup n groups : partitions n groups → NoDup groups.
Proof. intros H. eapply NoDup_fmap_1, partitions_heads, H. Qed.

Lemma unused_of_sublist groups used : unused_of groups used `sublist_of` groups.
Proof.
  unfold unused_of. rewrite <- (enumerate_snd groups) at 2.
  apply fmap_sublist, sublist_filter.
Qed.

Lemma resolved_length mapping groups cats :
  length (resolved mapping groups cats) ≤ length cats.
Proof.
  induction cats as [|cat cats IH]; [done|]. rewrite resolved_cons.
  destruct (mapping !! No cat) as [v|]; [|cbn; lia].
  case_bool_decide; [|cbn; lia].
  destruct (groups !! Z.to_nat v); cbn; lia.
Qed.

(** The matched groups are placed in ascending order of their category's
    [No], the unused groups after them in the order they have in the deck;
    a group is unused exactly when no category was matched to it. *)
Theorem matched_sorted_unused_in_order (cats : list Category) (deck : list Slide)
    (groups : list Group) (mapping : gmap Z Number) (r : Reordered) :
  FIXED_SLIDES < length deck →
  groups = slide_groups deck ∨ groups = App.slide_groups deck →
  checked mapping →
  reorder cats groups mapping deck = Some r →
  StronglySorted (λ a b : Match, a.1.1 ≤ b.1.1)%Z (matched_list r)
  ∧ unused_groups r `sublist_of` groups
  ∧ (∀ g, g ∈ groups → g ∈ unused_groups r ↔ g ∉ (matched_list r).*2)
  ∧ new_order r
    = seq 0 FIXED_SLIDES ++ concat (slides <$> (matched_list r).*2)
      ++ concat (slides <$> unused_groups r)
  ∧ matched_count r ≤ length cats.
Proof.
  intros Hlen Hgroups Hv%checked_ints Hr%reorder_completed.
  pose proof (either_partitions deck groups Hgroups) as Hpart.
  destruct (reorder_place cats deck groups (ints mapping) r Hv) as (_ & Horder & Hml & Hun);
    [lia|done|done|].
  split; [rewrite Hml; apply sort_by_sorted|].
  split; [rewrite Hun; apply unused_of_sublist|].
  split; [|split].
  - intros g Hg. split.
    + rewrite Hun, Hml. intros Hu Hm.
      rewrite (sort_by_perm (λ m : Match, m.1.1)) in Hm.
      apply list_elem_of_fmap in Hm as (m & -> & Hm).
      apply list_elem_of_fmap in Hm as ([t m'] & -> & Hin).
      destruct (resolved_elem _ _ _ _ _ Hv Hin) as (Ht & Hlook & _).
      unfold unused_of in Hu.
      apply list_elem_of_fmap in Hu as ([j g'] & Heq & Hf).
      apply list_elem_of_filter in Hf as [Hfree Hj].
      apply elem_of_enumerate in Hj. cbn [fst snd] in *. subst g'.
      pose proof (NoDup_lookup _ _ _ _ (partitions_NoDup _ _ Hpart) Hj Hlook) as ->.
      apply Hfree. apply elem_of_list_to_set, list_elem_of_fmap.
      exists (t, m'). split; [cbn; lia|done].
    + intros Hnot.
      destruct (unused_or_resolved (ints mapping) groups cats g Hv Hg) as [Hu|Hm];
        [by rewrite Hun|].
      exfalso. apply Hnot. rewrite Hml.
      by rewrite (sort_by_perm (λ m : Match, m.1.1)).
  - by rewrite Horder, <- app_assoc.
  - unfold matched_count. rewrite Hml.
    rewrite (Permutation_length (sort_by_perm _ _)), length_fmap.
    apply resolved_length.
Qed.

Lemma matched_sorted_unused_in_order_witness :
  StronglySorted (λ a b : Match, a.1.1 ≤ b.1.1)%Z (matched_list swapped_run)
  ∧ unused_groups swapped_run `sublist_of` slide_groups deck6
  ∧ (∀ g, g ∈ slide_groups deck6 →
          g ∈ unused_groups swapped_run ↔ g ∉ (matched_list swapped_run).*2)
  ∧ new_order swapped_run
    = seq 0 FIXED_SLIDES ++ concat (slides <$> (matched_list swapped_run).*2)
      ++ concat (slides <$> unused_groups swapped_run)
  ∧ matched_count swapped_run ≤ length two_cats.
Proof.
  apply (matched_sorted_unused_in_order two_cats deck6 (slide_groups deck6)
           (NInt <$> swap_mapping) swapped_run).
  - vm_compute. lia.
  - left. reflexivity.
  - apply checked_fmap, swap_mapping_validated.
  - vm_compute. reflexivity.
Defined.

(** ** When the new order is a permutation *)

Lemma reorder_order_perm cats (prs : list Slide) groups mapping r :
  validated mapping → FIXED_SLIDES ≤ length prs →
  partitions (length prs) groups →
  NoDup (resolved_targets mapping (length groups) cats) →
  reorder cats groups (NInt <$> mapping) prs = Some r →
  new_order r ≡ₚ seq 0 (length prs).
Proof.
  intros Hv Hlen Hpart Hnd Hr.
  destruct (reorder_place cats prs groups mapping r Hv Hlen Hpart Hr)
    as (_ & -> & -> & ->).
  rewrite <- app_assoc, <- concat_app, <- fmap_app.
  assert (Hg : (sort_by (λ m : Match, m.1.1) (resolved mapping groups cats).*2).*2
               ++ unused_of groups (list_to_set (resolved mapping groups cats).*1)
               ≡ₚ groups).
  { rewrite (sort_by_perm (λ m : Match, m.1.1)). apply matched_unused_perm.
    - by rewrite resolved_fst.
    - intros t m Hin. destruct (resolved_elem _ _ _ _ _ Hv Hin) as (? & ? & _).
      split; [lia|done]. }
  rewrite (concat_perm _ (slides <$> groups)) by (by rewrite Hg).
  rewrite (proj1 Hpart).
  replace (length prs) with (FIXED_SLIDES + (length prs - FIXED_SLIDES)) at 2 by lia.
  by rewrite seq_app.
Qed.

Lemma resolved_groups_lookup mapping groups cats :
  validated mapping →
  Some <$> (resolved mapping groups cats).*2.*2
  = (λ t : Z, groups !! Z.to_nat t) <$> (resolved mapping groups cats).*1.
Proof.
  intros Hv. rewrite <- !list_fmap_compose. apply list_fmap_ext.
  intros i [t m] Hi. cbn.
  apply list_elem_of_lookup_2 in Hi.
  by destruct (resolved_elem _ _ _ _ _ Hv Hi) as (_ & -> & _).
Qed.

Lemma concat_NoDup_parts {A} (ls : list (list A)) :
  NoDup (concat ls) → Forall (λ l, l ≠ []) ls → NoDup ls.
Proof. intros ??. by eapply NoDup_fmap_1, concat_NoDup_heads. Qed.

(** The computed order is a permutation of the slide positions exactly when
    no two categories resolve to the same group. *)
Theorem order_permutation_iff_distinct_targets (cats : list Category)
    (deck : list Slide) (groups : list Group) (mapping : gmap Z Number)
    (r : Reordered) :
  FIXED_SLIDES < length deck →
  groups = slide_groups deck ∨ groups = App.slide_groups deck →
  checked mapping →
  reorder cats groups mapping deck = Some r →
  new_order r ≡ₚ seq 0 (length deck)
  ↔ NoDup (resolved_targets (ints mapping) (length groups) cats).
Proof.
  intros Hlen Hgroups Hv%checked_ints Hr%reorder_completed.
  pose proof (either_partitions deck groups Hgroups) as Hpart.
  split; [|intros; eapply reorder_order_perm; [done|lia|done..]].
  intros Hperm.
  destruct (reorder_place cats deck groups (ints mapping) r Hv) as (_ & Horder & Hml & _);
    [lia|done|done|].
  assert (Hnd : NoDup (new_order r)) by (rewrite Hperm; apply NoDup_seq).
  rewrite Horder in Hnd. apply NoDup_app in Hnd as (Hnd & _ & _).
  apply NoDup_app in Hnd as (_ & _ & Hnd).
  apply concat_NoDup_parts in Hnd.
  2:{ apply Forall_fmap, Forall_fmap, Forall_forall. intros m Hm. cbn.
      assert (Hg : m.2 ∈ groups).
      { apply (resolved_group_elem (ints mapping) groups cats); [done|].
        by rewrite Hml, (sort_by_perm (λ m : Match, m.1.1)) in Hm. }
      pose proof (proj2 Hpart) as Hne. rewrite Forall_forall in Hne. by apply Hne. }
  apply NoDup_fmap_1 in Hnd. rewrite Hml in Hnd.
  rewrite (sort_by_perm (λ m : Match, m.1.1)) in Hnd.
  rewrite <- (resolved_fst (ints mapping) groups cats Hv).
  eapply (NoDup_fmap_1 (λ t : Z, groups !! Z.to_nat t)).
  rewrite <- resolved_groups_lookup by done.
  by apply (NoDup_fmap_2 Some).
Qed.

Lemma order_permutation_iff_distinct_targets_witness :
  new_order same_target_run ≡ₚ seq 0 (length deck4)
  ↔ NoDup (resolved_targets (ints (NInt <$> same_target_mapping))
             (length (slide_groups deck4)) two_cats).
Proof.
  apply (order_permutation_iff_distinct_targets two_cats deck4 (slide_groups deck4)
           (NInt <$> same_target_mapping) same_target_run).
  - vm_compute. lia.
  - left. reflexivity.
  - apply checked_fmap, same_target_mapping_validated.
  - vm_compute. reflexivity.
Defined.

Lemma resolved_targets_elem mapping n cats v :
  v ∈ resolved_targets mapping n cats →
  ∃ cat, cat ∈ cats ∧ mapping !! No cat = Some v.
Proof.
  intros Hin. apply list_elem_of_omap in Hin as (cat & Hcat & Hf).
  exists cat. split; [done|].
  destruct (mapping !! No cat) as [v'|]; cbn in Hf; [|done].
  case_bool_decide; by simplify_eq.
Qed.

Lemma resolved_targets_NoDup mapping n cats :
  NoDup (No <$> cats) →
  (∀ k1 k2 v, mapping !! k1 = Some v → mapping !! k2 = Some v → k1 = k2) →
  NoDup (resolved_targets mapping n cats).
Proof.
  intros Hnd Hinj. induction cats as [|cat cats IH]; [constructor|].
  rewrite fmap_cons in Hnd. apply NoDup_cons in Hnd as [Hcat Hnd].
  rewrite resolved_targets_cons.
  destruct (mapping !! No cat) as [v|] eqn:Hm; [|by apply IH].
  case_bool_decide; [|by apply IH]. constructor; [|by apply IH].
  intros Hin. apply resolved_targets_elem in Hin as (cat' & Hcat' & Hm').
  apply Hcat. rewrite (Hinj _ _ _ Hm Hm'). by apply list_elem_of_fmap_2.
Qed.

Lemma StronglySorted_lt_NoDup (l : list Z) :
  StronglySorted Z.lt l → NoDup l.
Proof.
  induction 1 as [|x l _ IH Hall]; constructor; [|done].
  intros Hin. rewrite Forall_forall in Hall. specialize (Hall x Hin). lia.
Qed.

Lemma strictly_sorted_nos (cats : list Category) :
  StronglySorted (λ a b, No a < No b)%Z cats → NoDup (No <$> cats).
Proof.
  intros H. apply StronglySorted_lt_NoDup.
  induction H as [|c cats _ IH Hall]; cbn; constructor; [done|].
  by apply Forall_fmap.
Qed.

(** Extraction and reordering composed: for a taxonomy read from the tables
    of a document, and a mapping that gives no group index to two numbers,
    the reordering runs to its end and the computed order is a permutation
    of the slide positions in which the cover and the contents slide stay
    in front. *)
Theorem extracted_taxonomy_reorders (doc : Document) (deck : list Slide)
    (mapping : gmap Z Z) :
  FIXED_SLIDES < length deck →
  validated mapping →
  (∀ k1 k2 v, mapping !! k1 = Some v → mapping !! k2 = Some v → k1 = k2) →
  (∃ r, reorder (extract_categories_from_pdf doc) (slide_groups deck)
          (NInt <$> mapping) deck = Some r
        ∧ new_order r ≡ₚ seq 0 (length deck)
        ∧ take FIXED_SLIDES (new_order r) = seq 0 FIXED_SLIDES)
  ∧ (∃ r, reorder (App.extract_categories_from_pdf doc) (App.slide_groups deck)
            (NInt <$> mapping) deck = Some r
          ∧ new_order r ≡ₚ seq 0 (length deck)
          ∧ take FIXED_SLIDES (new_order r) = seq 0 FIXED_SLIDES).
Proof.
  intros Hlen Hv Hinj.
  assert (Hgen : ∀ cats groups,
            NoDup (No <$> cats) → partitions (length deck) groups →
            ∃ r, reorder cats groups (NInt <$> mapping) deck = Some r
                 ∧ new_order r ≡ₚ seq 0 (length deck)
                 ∧ take FIXED_SLIDES (new_order r) = seq 0 FIXED_SLIDES).
  { intros cats groups Hnd Hpart.
    destruct (reorder_run cats deck groups mapping Hv) as (prs' & xml & Hrun & _);
      [lia|done|].
    cbn zeta in Hrun. eexists. split; [exact Hrun|]. split.
    - eapply reorder_order_perm; [done|lia|done| |exact Hrun].
      by apply resolved_targets_NoDup.
    - cbn [new_order]. rewrite <- app_assoc. by apply take_app_length'. }
  split; apply Hgen.
  - apply strictly_sorted_nos, extract_from_pdf_strictly_sorted.
  - apply slide_groups_partitions.
  - apply strictly_sorted_nos, app_extraction_strictly_sorted.
  - apply app_slide_groups_partitions.
Qed.

Lemma extracted_taxonomy_reorders_witness :
  (∃ r, reorder (extract_categories_from_pdf [[scenario_A_table]])
          (slide_groups deck6) (NInt <$> swap_mapping) deck6 = Some r
        ∧ new_order r ≡ₚ seq 0 (length deck6)
        ∧ take FIXED_SLIDES (new_order r) = seq 0 FIXED_SLIDES)
  ∧ (∃ r, reorder (App.extract_categories_from_pdf [[scenario_A_table]])
            (App.slide_groups deck6) (NInt <$> swap_mapping) deck6 = Some r
          ∧ new_order r ≡ₚ seq 0 (length deck6)
          ∧ take FIXED_SLIDES (new_order r) = seq 0 FIXED_SLIDES).
Proof.
  apply (extracted_taxonomy_reorders [[scenario_A_table]] deck6 swap_mapping).
  - vm_compute. lia.
  - apply swap_mapping_validated.
  - apply swap_mapping_injective.
Defined.

(** ** The mapping *)

Lemma entries_for_cons k item members :
  entries_for k (item :: members)
  = option_list (k' ← py_int item.1;
                 v ← json_number item.2;
                 if bool_decide (k' = k) && number_ge_0 v then Some v else None)
    ++ entries_for k members.
Proof.
  unfold entries_for. cbn [omap list_omap].
  by destruct (_ ≫= _).
Qed.

Lemma mapping_loop_lookup members mapping mapping' k :
  foldM mapping_entry mapping members = Some mapping' →
  mapping' !! k
  = match last (entries_for k members) with
    | Some v => Some v
    | None => mapping !! k
    end.
Proof.
  revert mapping. induction members as [|item members IH]; intros mapping Hrun;
    cbn [foldM] in Hrun.
  - by simplify_eq.
  - destruct (mapping_entry mapping item) as [m1|] eqn:Hstep; [|done].
    cbn [mbind option_bind] in Hrun. rewrite (IH _ Hrun).
    rewrite entries_for_cons, last_app.
    destruct (last (entries_for k members)) as [w|]; [done|].
    unfold mapping_entry in Hstep.
    destruct (py_int item.1) as [k'|]; [|done]. cbn [mbind option_bind] in Hstep |- *.
    destruct (json_number item.2) as [v|]; [|done].
    cbn [mbind option_bind] in Hstep |- *.
    injection Hstep as <-.
    destruct (number_ge_0 v) eqn:Hge.
    + destruct (decide (k' = k)) as [->|Hne].
      * rewrite bool_decide_eq_true_2 by done. cbn [andb option_list last].
        by rewrite lookup_insert_eq.
      * rewrite bool_decide_eq_false_2 by done. cbn [andb option_list last].
        by rewrite lookup_insert_ne.
    + rewrite andb_false_r. done.
Qed.

Lemma mapping_loop_usable members mapping :
  forallb (λ item : string * json,
             bool_decide (is_Some (py_int item.1))
             && bool_decide (is_Some (json_number item.2))) members = true →
  is_Some (foldM mapping_entry mapping members).
Proof.
  revert mapping. induction members as [|item members IH]; intros mapping Hok.
  - by eexists.
  - cbn [forallb] in Hok. apply andb_true_iff in Hok as [Hitem Hrest].
    apply andb_true_iff in Hitem as [[k Hk]%bool_decide_eq_true [v Hv]%bool_decide_eq_true].
    cbn [foldM]. unfold mapping_entry at 2. rewrite Hk, Hv. cbn [mbind option_bind].
    by apply IH.
Qed.

(** What the mapping of [main.py] holds for a number: the last value that
    the response gives for it and that is not negative.  A later negative
    value does not take an earlier match away, and keys that read as the
    same number (["1"] and ["01"]) are one entry. *)
Theorem mapping_holds_last_entry (model : Oracle) (cats : list Category)
    (groups : list Group) (members : list (string * json)) (k : Z) :
  model cats groups = Some (JObj members) →
  usable_response (model cats groups) = true →
  create_matching_with_ai model cats groups !! k
  = last (entries_for k members).
Proof.
  intros Hmodel Husable. unfold create_matching_with_ai.
  rewrite Hmodel in Husable |- *. cbn [usable_response] in Husable.
  destruct (mapping_loop_usable members ∅ Husable) as [mapping Hrun].
  rewrite Hrun. cbn [default from_option id].
  rewrite (mapping_loop_lookup _ _ _ k Hrun), lookup_empty.
  by destruct (last _).
Qed.

Lemma mapping_holds_last_entry_witness :
  create_matching_with_ai (answers respelled) two_cats (slide_groups deck6) !! 1%Z
  = last (entries_for 1 respelled).
Proof.
  apply (mapping_holds_last_entry (answers respelled) two_cats (slide_groups deck6)
           respelled 1).
  - reflexivity.
  - vm_compute. reflexivity.
Defined.

Lemma json_int_number v n : json_int v = Some n → json_number v = Some (NInt n).
Proof. unfold json_int. destruct v; cbn; intros; by simplify_eq. Qed.

Lemma json_int_of_json v n : json_int v = Some n → App.int_of_json v = Some n.
Proof. unfold json_int. destruct v; cbn; intros; by simplify_eq. Qed.

Lemma integer_members_usable members :
  forallb (λ item : string * json,
             bool_decide (is_Some (py_int item.1))
             && bool_decide (is_Some (json_int item.2))) members = true →
  forallb (λ item : string * json,
             bool_decide (is_Some (py_int item.1))
             && bool_decide (is_Some (json_number item.2))) members = true.
Proof.
  rewrite !forallb_forall. intros Hok item Hin. specialize (Hok item Hin).
  apply andb_true_iff in Hok as [Hk [v Hv]%bool_decide_eq_true].
  rewrite Hk, (json_int_number _ _ Hv). cbn [andb].
  apply bool_decide_eq_true. by eexists.
Qed.

Lemma integer_response_usable response :
  integer_response response = true → usable_response response = true.
Proof.
  destruct response as [[| | | | | |members]|]; try done.
  apply integer_members_usable.
Qed.

Lemma mapping_loops_agree members (mapping : gmap Z Z) :
  forallb (λ item : string * json,
             bool_decide (is_Some (py_int item.1))
             && bool_decide (is_Some (json_int item.2))) members = true →
  foldM mapping_entry (NInt <$> mapping) members
  = fmap (M:=gmap Z) NInt <$> foldM App.mapping_entry mapping members.
Proof.
  revert mapping. induction members as [|item members IH]; intros mapping Hok; [done|].
  cbn [forallb] in Hok. apply andb_true_iff in Hok as [Hitem Hrest].
  apply andb_true_iff in Hitem as [[k Hk]%bool_decide_eq_true [v Hv]%bool_decide_eq_true].
  cbn [foldM]. unfold mapping_entry at 2, App.mapping_entry at 2.
  rewrite Hk, (json_int_number _ _ Hv), (json_int_of_json _ _ Hv).
  cbn [mbind option_bind number_ge_0].
  case_bool_decide; cbn [mbind option_bind]; [|by apply IH].
  rewrite <- fmap_insert. by apply IH.
Qed.

Lemma integer_members_agree members :
  forallb (λ item : string * json,
             bool_decide (is_Some (py_int item.1))
             && bool_decide (is_Some (json_int item.2))) members = true →
  ∃ mapping : gmap Z Z,
    foldM App.mapping_entry ∅ members = Some mapping
    ∧ default ∅ (foldM mapping_entry ∅ members) = NInt <$> mapping.
Proof.
  intros Hok. pose proof (mapping_loops_agree members ∅ Hok) as Hagree.
  rewrite fmap_empty in Hagree.
  destruct (mapping_loop_usable members ∅ (integer_members_usable _ Hok))
    as [mapping Hrun].
  rewrite Hrun in Hagree |- *.
  destruct (foldM App.mapping_entry ∅ members) as [mapping'|]; [|done].
  exists mapping'. split; [done|]. cbn in Hagree |- *. congruence.
Qed.

(** On a response that [main.py] can use and that holds no [float] (an
    object, keys that [int()] accepts, integer or boolean values) the
    matching of [app.py] returns the same mapping. *)
Theorem matchings_agree_on_usable (model : Oracle) (cats : list Category)
    (groups : list Group) :
  integer_response (model cats groups) = true →
  ∃ mapping,
    App.create_matching_with_ai model cats groups = Some mapping
    ∧ create_matching_with_ai model cats groups = NInt <$> mapping.
Proof.
  unfold integer_response, App.create_matching_with_ai, create_matching_with_ai.
  destruct (model cats groups) as [[| | | | | |members]|]; try done.
  apply integer_members_agree.
Qed.

Lemma matchings_agree_on_usable_witness :
  ∃ mapping,
    App.create_matching_with_ai (answers respelled) two_cats (slide_groups deck6)
    = Some mapping
    ∧ create_matching_with_ai (answers respelled) two_cats (slide_groups deck6)
      = NInt <$> mapping.
Proof.
  apply (matchings_agree_on_usable (answers respelled) two_cats (slide_groups deck6)).
  vm_compute. reflexivity.
Defined.

Lemma app_mapping_loop members mapping :
  is_Some (foldM App.mapping_entry mapping members)
  ↔ forallb (λ item : string * json,
               match App.int_of_json item.2 with
               | Some v => bool_decide (v < 0)%Z
                           || bool_decide (is_Some (py_int item.1))
               | None => false
               end) members = true.
Proof.
  revert mapping. induction members as [|item members IH]; intros mapping.
  - cbn. split; [done|by eexists].
  - cbn [foldM forallb]. unfold App.mapping_entry at 2.
    destruct (App.int_of_json item.2) as [v|]; cbn [mbind option_bind].
    2:{ split; [by intros [? ?]|done]. }
    destruct (decide (0 ≤ v)%Z) as [Hv|Hv].
    + rewrite (bool_decide_eq_true_2 _ Hv).
      rewrite (bool_decide_eq_false_2 (v < 0)%Z) by lia. cbn [orb].
      destruct (py_int item.1) as [k|]; cbn [mbind option_bind].
      * rewrite bool_decide_eq_true_2 by (by eexists). cbn [andb]. apply IH.
      * rewrite bool_decide_eq_false_2 by (by intros [? ?]). cbn [andb].
        split; [by intros [? ?]|done].
    + rewrite (bool_decide_eq_false_2 _ Hv).
      rewrite (bool_decide_eq_true_2 (v < 0)%Z) by lia. cbn [orb andb]. apply IH.
Qed.

(** The matching of [app.py] raises on exactly the responses that are not
    an object, hold a value [int()] rejects, or hold a key [int()] rejects
    beside a value that [int()] does not make negative; it accepts numeric
    strings as values, truncates [float]s, and does not look at the key of
    an entry whose value [int()] makes negative; no negative index enters
    the mapping it returns. *)
Theorem app_matching_raises_exactly (model : Oracle) (cats : list Category)
    (groups : list Group) :
  (is_Some (App.create_matching_with_ai model cats groups)
   ↔ app_usable_response (model cats groups) = true)
  ∧ (∀ mapping, App.create_matching_with_ai model cats groups = Some mapping →
       validated mapping)
  ∧ App.create_matching_with_ai (answers [("1", JStr "3"); ("x", JInt (-1))])
      cats groups = Some {[1%Z := 3%Z]}
  ∧ create_matching_with_ai (answers [("1", JStr "3"); ("x", JInt (-1))])
      cats groups = ∅.
Proof.
  split; [|split; [|split]].
  - unfold App.create_matching_with_ai, app_usable_response.
    destruct (model cats groups) as [[| | | | | |members]|];
      try (split; [by intros [? ?]|done]).
    apply app_mapping_loop.
  - intros mapping. apply app_create_matching_validated.
  - reflexivity.
  - reflexivity.
Qed.

(** ** Runs in which nothing is matched *)

Lemma resolved_nil_targets mapping groups cats :
  validated mapping →
  resolved_targets mapping (length groups) cats = [] →
  resolved mapping groups cats = [].
Proof.
  intros Hv Hnil. rewrite <- (resolved_fst mapping groups cats Hv) in Hnil.
  by apply fmap_nil_inv in Hnil.
Qed.

Lemma concat_groups_order (prs : list Slide) groups :
  FIXED_SLIDES ≤ length prs → partitions (length prs) groups →
  seq 0 FIXED_SLIDES ++ concat (slides <$> groups) = seq 0 (length prs).
Proof.
  intros Hlen [Hcat _]. rewrite Hcat.
  replace (length prs) with (FIXED_SLIDES + (length prs - FIXED_SLIDES)) at 2 by lia.
  by rewrite seq_app.
Qed.

Lemma reorder_unmatched cats (prs : list Slide) groups mapping :
  validated mapping → FIXED_SLIDES ≤ length prs →
  partitions (length prs) groups →
  resolved_targets mapping (length groups) cats = [] →
  reorder cats groups (NInt <$> mapping) prs
  = Some (mkReordered prs (seq 0 (length prs)) (seq 0 (length prs)) [] groups).
Proof.
  intros Hv Hlen Hpart Hnil.
  destruct (reorder_run cats prs groups mapping Hv Hlen Hpart)
    as (prs' & xml & Hrun & _ & Hplace & Hxml).
  cbn zeta in Hrun, Hplace, Hxml.
  rewrite (resolved_nil_targets _ _ _ Hv Hnil) in Hrun, Hplace, Hxml.
  cbn [fmap list_fmap sort_by list_to_set concat app foldM] in Hrun, Hplace, Hxml.
  rewrite unused_of_none in Hrun, Hxml. rewrite app_nil_r in Hrun, Hxml.
  rewrite (concat_groups_order prs groups Hlen Hpart) in Hrun, Hxml.
  injection Hplace as <-.
  rewrite append_fold_nodup in Hxml.
  - injection Hxml as <-. exact Hrun.
  - apply Forall_forall. intros x Hx%elem_of_seq. lia.
  - apply NoDup_seq.
Qed.

(** When no category resolves to a group (the mapping has no entry for any
    category, or only entries, [int] or [float], beyond the last group) the
    reordering is the identity: the order computed and saved is the original one, no slide is
    touched, nothing is matched and every group is unused. *)
Theorem unmatched_run_keeps_order (cats : list Category) (deck : list Slide)
    (groups : list Group) (mapping : gmap Z Number) :
  FIXED_SLIDES < length deck →
  groups = slide_groups deck ∨ groups = App.slide_groups deck →
  checked mapping →
  existsb (float_in_range mapping (length groups)) cats = false →
  resolved_targets (ints mapping) (length groups) cats = [] →
  ∃ r, reorder cats groups mapping deck = Some r
       ∧ new_order r = seq 0 (length deck)
       ∧ saved_sequence r = seq 0 (length deck)
       ∧ out_slides r = deck
       ∧ matched_count r = 0
       ∧ unused_groups r = groups.
Proof.
  intros Hlen Hgroups Hv%checked_ints Hfree Hnil.
  pose proof (either_partitions deck groups Hgroups) as Hpart.
  rewrite reorder_ints, Hfree.
  eexists. split; [apply reorder_unmatched; [done|lia|done..]|]. done.
Qed.

Lemma unmatched_run_keeps_order_witness :
  ∃ r, reorder two_cats (slide_groups deck6)
         {[7%Z := NInt 0; 1%Z := NFloat (FFinite 11 (-1))]} deck6 = Some r
       ∧ new_order r = seq 0 (length deck6)
       ∧ saved_sequence r = seq 0 (length deck6)
       ∧ out_slides r = deck6
       ∧ matched_count r = 0
       ∧ unused_groups r = slide_groups deck6.
Proof.
  apply (unmatched_run_keeps_order two_cats deck6 (slide_groups deck6)
           {[7%Z := NInt 0; 1%Z := NFloat (FFinite 11 (-1))]}).
  - vm_compute. lia.
  - left. reflexivity.
  - apply map_Forall_insert_2; [reflexivity|].
    apply map_Forall_singleton. reflexivity.
  - vm_compute. reflexivity.
  - vm_compute. reflexivity.
Defined.

(** How [process_pptx] of [app.py] ends: it raises exactly when the deck
    has no more than two slides or the matching raises, and otherwise
    returns a deck.  On an empty answer it returns the deck in its original
    order with nothing matched, where [main.py] logs that the matching
    failed and saves nothing. *)
Theorem app_process_pptx_outcome (model : Oracle) (cats : list Category)
    (deck : list Slide) :
  (App.process_pptx model cats deck = None
   ↔ length deck ≤ FIXED_SLIDES
     ∨ App.create_matching_with_ai model cats (App.slide_groups deck) = None)
  ∧ (FIXED_SLIDES < length deck →
     (∃ r, App.process_pptx (answers []) cats deck = Some r
           ∧ new_order r = seq 0 (length deck)
           ∧ saved_sequence r = seq 0 (length deck)
           ∧ out_slides r = (App.populate_toc deck cats 1).1
           ∧ matched_count r = 0
           ∧ unused_groups r = App.slide_groups deck)
     ∧ process_pptx (answers []) cats deck = MatchingFailed).
Proof.
  split.
  - destruct (app_process_pptx_cases model cats deck)
      as [[Hlen H]|[(Hlen & Hnone & H)|(Hlen & mapping & r & Hmap & _ & H & _)]].
    + split; [by left|done].
    + split; [by right|done].
    + rewrite H, Hmap. split; [done|]. intros [?|?]; [lia|done].
  - intros Hlen. split.
    + unfold App.process_pptx. rewrite bool_decide_eq_false_2 by lia.
      rewrite app_slide_groups_populate_toc.
      cbn [App.create_matching_with_ai answers foldM mbind option_bind].
      rewrite reorder_unmatched.
      * eexists. split; [done|]. cbn. by rewrite app_populate_toc_length.
      * apply map_Forall_empty.
      * rewrite app_populate_toc_length. lia.
      * rewrite app_populate_toc_length. apply app_slide_groups_partitions.
      * induction cats as [|cat cats IH]; [done|].
        by rewrite resolved_targets_cons, lookup_empty.
    + destruct (process_pptx_cases (answers []) cats deck)
        as [[? _]|[(_ & _ & ->)|[(_ & Hne & _)|(_ & Hne & _)]]]; [lia|done..].
Qed.

(** ** Code fences *)

Lemma drop_prefix_fresh c sep s :
  free_of c s = true → nonempty s = true → drop_prefix (String c sep) s = None.
Proof.
  destruct s as [|a s]; [done|]. cbn [free_of drop_prefix]. intros H _.
  apply andb_true_iff in H as [Ha _]. apply negb_true_iff in Ha. by rewrite Ha.
Qed.

Lemma cut_none c sep s : free_of c s = true → cut (String c sep) s = None.
Proof.
  induction s as [|a s IH]; [done|]. intros H.
  cbn [cut]. rewrite drop_prefix_fresh by done.
  cbn [free_of] in H. apply andb_true_iff in H as [_ H]. by rewrite IH.
Qed.

Lemma cut_skip c sep x z :
  free_of c x = true →
  cut (String c sep) (x +:+ z)
  = (λ ba : string * string, (x +:+ ba.1, ba.2)) <$> cut (String c sep) z.
Proof.
  induction x as [|a x IH]; intros H.
  - change (EmptyString +:+ z) with z. destruct (cut _ z) as [[??]|]; reflexivity.
  - cbn [free_of] in H. apply andb_true_iff in H as [Ha H].
    apply negb_true_iff in Ha.
    change (String a x +:+ z) with (String a (x +:+ z)).
    cbn [cut drop_prefix]. rewrite Ha, (IH H).
    destruct (cut _ z) as [[??]|]; reflexivity.
Qed.

Lemma drop_prefix_app p s : drop_prefix p (p +:+ s) = Some s.
Proof.
  induction p as [|a p IH]; [by destruct s|].
  change (String a p +:+ s) with (String a (p +:+ s)).
  cbn [drop_prefix]. by rewrite Ascii.eqb_refl.
Qed.

Lemma cut_here sep y : cut sep (sep +:+ y) = Some (EmptyString, y).
Proof. destruct (sep +:+ y) eqn:E; cbn [cut]; by rewrite <- E, drop_prefix_app. Qed.

Lemma append_empty_r s : s +:+ EmptyString = s.
Proof.
  induction s as [|a s IH]; [done|].
  change (String a (s +:+ EmptyString) = String a s). by rewrite IH.
Qed.

Lemma cut_fresh c sep x y :
  free_of c x = true →
  cut (String c sep) (x +:+ String c sep +:+ y) = Some (x, y).
Proof.
  intros H. rewrite (cut_skip c sep x _ H), cut_here. cbn.
  by rewrite append_empty_r.
Qed.

Lemma split_0_fresh c sep x : free_of c x = true → split_0 (String c sep) x = x.
Proof. intros H. unfold split_0. by rewrite cut_none. Qed.

Lemma split_0_cut c sep x y :
  free_of c x = true → split_0 (String c sep) (x +:+ String c sep +:+ y) = x.
Proof. intros H. unfold split_0. by rewrite cut_fresh. Qed.

Lemma drop_prefix_cons a p b s :
  drop_prefix (String a p) (String b s)
  = if Ascii.eqb a b then drop_prefix p s else None.
Proof. reflexivity. Qed.

Lemma cut_cons sep c r :
  cut sep (String c r)
  = match drop_prefix sep (String c r) with
    | Some rest => Some (EmptyString, rest)
    | None => (λ ba : string * string, (String c ba.1, ba.2)) <$> cut sep r
    end.
Proof. reflexivity. Qed.

Lemma drop_prefix_tick p post :
  free_of tick post = true → drop_prefix (String tick p) post = None.
Proof.
  intros Hpost. destruct post as [|a post]; [done|]. cbn [free_of] in Hpost.
  apply andb_true_iff in Hpost as [Ha _]. apply negb_true_iff in Ha.
  by rewrite drop_prefix_cons, Ha.
Qed.

(** In a text whose only backquotes are those of one closing fence, a
    tagged fence can only start at that fence. *)
Lemma cut_json_at_fence post :
  free_of tick post = true →
  cut json_fence (fence +:+ post)
  = (λ rest, (EmptyString, rest)) <$> drop_prefix "json" post.
Proof.
  intros Hpost. unfold json_fence, fence.
  change ("```" +:+ post) with (String tick (String tick (String tick post))).
  change "```json" with (String tick (String tick (String tick "json"))).
  rewrite cut_cons, !drop_prefix_cons, !Ascii.eqb_refl.
  destruct (drop_prefix "json" post) as [rest|] eqn:Hjson; [done|].
  rewrite cut_cons, !drop_prefix_cons, !Ascii.eqb_refl.
  rewrite (drop_prefix_tick _ post Hpost).
  rewrite cut_cons, !drop_prefix_cons, !Ascii.eqb_refl.
  rewrite (drop_prefix_tick _ post Hpost).
  by rewrite (cut_none tick _ post Hpost).
Qed.

Lemma free_of_app c x y :
  free_of c (x +:+ y) = free_of c x && free_of c y.
Proof.
  induction x as [|a x IH]; [done|].
  change (String a x +:+ y) with (String a (x +:+ y)). cbn [free_of].
  by rewrite IH, andb_assoc.
Qed.

Lemma drop_prefix_before_tick p x w :
  free_of tick p = true → drop_prefix p x = None →
  drop_prefix p (x +:+ String tick w) = None.
Proof.
  revert x. induction p as [|a p IH]; intros x Hp Hx; [done|].
  cbn [free_of] in Hp. apply andb_true_iff in Hp as [Ha Hp].
  apply negb_true_iff in Ha.
  destruct x as [|b x].
  - change (EmptyString +:+ String tick w) with (String tick w).
    rewrite drop_prefix_cons. rewrite Ascii.eqb_sym in Ha. by rewrite Ha.
  - change (String b x +:+ String tick w) with (String b (x +:+ String tick w)).
    rewrite drop_prefix_cons in Hx |- *. destruct (Ascii.eqb a b); [|done].
    by apply IH.
Qed.

Lemma cut_json_closing body post :
  free_of tick body = true → free_of tick post = true →
  cut json_fence (body +:+ fence +:+ post)
  = (λ rest, (body, rest)) <$> drop_prefix "json" post.
Proof.
  intros Hbody Hpost. unfold json_fence. rewrite (cut_skip tick _ body _ Hbody).
  change (String tick "``json") with json_fence.
  rewrite (cut_json_at_fence post Hpost).
  destruct (drop_prefix "json" post); [|done]. cbn. by rewrite append_empty_r.
Qed.

(** Without a tag on the opening fence and without [json] right after
    either fence there is no tagged fence in the text. *)
Lemma cut_json_bare pre body post :
  free_of tick pre = true → free_of tick body = true → free_of tick post = true →
  drop_prefix "json" body = None → drop_prefix "json" post = None →
  cut json_fence (pre +:+ fence +:+ body +:+ fence +:+ post) = None.
Proof.
  intros Hpre Hbody Hpost Hb Hp.
  unfold json_fence. rewrite (cut_skip tick _ pre _ Hpre).
  change (String tick "``json") with json_fence.
  assert (Hrest : cut json_fence (body +:+ fence +:+ post) = None)
    by (by rewrite cut_json_closing, Hp).
  enough (cut json_fence (fence +:+ body +:+ fence +:+ post) = None) as -> by done.
  unfold fence at 1.
  change ("```" +:+ body +:+ fence +:+ post)
    with (String tick (String tick (String tick (body +:+ fence +:+ post)))).
  unfold json_fence in *.
  change "```json" with (String tick (String tick (String tick "json"))) in *.
  assert (Hj : drop_prefix "json" (body +:+ fence +:+ post) = None).
  { unfold fence. change ("```" +:+ post) with (String tick ("``" +:+ post)).
    by apply drop_prefix_before_tick. }
  rewrite cut_cons, !drop_prefix_cons, !Ascii.eqb_refl, Hj.
  destruct body as [|a body].
  - change (EmptyString +:+ fence +:+ post)
      with (String tick (String tick (String tick post))) in *.
    rewrite cut_cons, !drop_prefix_cons, !Ascii.eqb_refl.
    change (Ascii.eqb "j" tick) with false. cbn match.
    rewrite cut_cons, !drop_prefix_cons, !Ascii.eqb_refl.
    change (Ascii.eqb "j" tick) with false. cbn match.
    by rewrite Hrest.
  - cbn [free_of] in Hbody. apply andb_true_iff in Hbody as [Ha _].
    apply negb_true_iff in Ha.
    change (String a body +:+ fence +:+ post)
      with (String a (body +:+ fence +:+ post)) in *.
    rewrite cut_cons, !drop_prefix_cons, !Ascii.eqb_refl, Ha.
    rewrite cut_cons, !drop_prefix_cons, !Ascii.eqb_refl, Ha.
    by rewrite Hrest.
Qed.

(** The payload of a fenced response is what is decoded: with a tagged
    fence, or with a bare one when neither the payload nor what follows the
    closing fence starts with [json], the text between the fences is taken
    and stripped, whatever surrounds them.  The text before, between and
    after the fences holds no backquote. *)
Theorem fenced_payload_recovered (pre body post : string) (tagged : bool) :
  free_of tick pre = true →
  free_of tick body = true →
  free_of tick post = true →
  (tagged = false → drop_prefix "json" body = None ∧ drop_prefix "json" post = None) →
  unfenced (pre +:+ (if tagged then json_fence else fence) +:+ body +:+ fence +:+ post)
  = strip body.
Proof.
  intros Hpre Hbody Hpost Hbare. unfold unfenced.
  assert (Hinner : split_0 fence (body +:+ fence +:+ post) = body)
    by (by apply split_0_cut).
  destruct tagged.
  - unfold split_1. unfold json_fence at 1 2. rewrite cut_fresh by done.
    cbn [mbind option_bind snd]. change (String tick "``json") with json_fence.
    assert (Htag : split_0 json_fence (body +:+ fence +:+ post) = body
                   ∨ split_0 json_fence (body +:+ fence +:+ post)
                     = body +:+ fence +:+ post).
    { unfold split_0. rewrite cut_json_closing by done.
      destruct (drop_prefix "json" post); [by left|by right]. }
    unfold json_fence in Htag. destruct Htag as [-> | ->]; [|by rewrite Hinner].
    unfold fence. by rewrite (split_0_fresh tick _ body Hbody).
  - destruct (Hbare eq_refl) as [Hb Hp].
    unfold split_1 at 1. rewrite cut_json_bare by done. cbn [mbind option_bind].
    unfold split_1. unfold fence at 1 2. rewrite cut_fresh by done.
    cbn [mbind option_bind snd]. unfold fence in *. rewrite Hinner.
    by rewrite (split_0_fresh tick _ body Hbody).
Qed.

Lemma fenced_payload_recovered_witness :
  unfenced ("Here it is: " +:+ json_fence +:+ " [1, 2] " +:+ fence +:+ " Done.")
  = strip " [1, 2] ".
Proof.
  apply (fenced_payload_recovered "Here it is: " " [1, 2] " " Done." true).
  - reflexivity.
  - reflexivity.
  - reflexivity.
  - intros H. discriminate H.
Defined.

Lemma drop_prefix_shorter p q s r :
  drop_prefix (p +:+ q) s = Some r → is_Some (drop_prefix p s).
Proof.
  revert s. induction p as [|a p IH]; intros s H; [by eexists|].
  change (String a p +:+ q) with (String a (p +:+ q)) in H.
  destruct s as [|b s]; [done|]. rewrite drop_prefix_cons in H |- *.
  destruct (Ascii.eqb a b); [by eapply IH|done].
Qed.

Lemma cut_shorter p q s :
  cut p s = None → cut (p +:+ q) s = None.
Proof.
  induction s as [|c s IH]; intros H.
  - cbn [cut] in H |- *. destruct (drop_prefix p EmptyString) eqn:Hp; [done|].
    destruct (drop_prefix (p +:+ q) EmptyString) eqn:Hpq; [|done].
    apply drop_prefix_shorter in Hpq as [? Hpq]. congruence.
  - rewrite cut_cons in H |- *.
    destruct (drop_prefix p (String c s)) eqn:Hp; [done|].
    destruct (drop_prefix (p +:+ q) (String c s)) eqn:Hpq.
    { apply drop_prefix_shorter in Hpq as [? Hpq]. congruence. }
    destruct (cut p s); [done|]. by rewrite IH.
Qed.

(** Incomplete fences.  A response that holds no fence is decoded as it
    is, single backquotes included; and an opening fence that is never
    closed still gives the stripped text after it. *)
Theorem unfenced_incomplete (pre body : string) (tagged : bool) :
  free_of tick pre = true →
  free_of tick body = true →
  (tagged = false → drop_prefix "json" body = None) →
  unfenced (pre +:+ (if tagged then json_fence else fence) +:+ body) = strip body
  ∧ ∀ response_text,
      cut fence response_text = None → unfenced response_text = response_text.
Proof.
  intros Hpre Hbody Hbare. split.
  - unfold unfenced. destruct tagged.
    + unfold split_1. unfold json_fence at 1 2. rewrite cut_fresh by done.
      cbn [mbind option_bind snd]. unfold fence.
      by rewrite !(split_0_fresh tick _ body Hbody).
    + assert (Hnone : cut json_fence (pre +:+ fence +:+ body) = None).
      { unfold json_fence. rewrite (cut_skip tick _ pre _ Hpre).
        change (String tick "``json") with json_fence.
        by rewrite (cut_json_at_fence body Hbody), Hbare. }
      unfold split_1 at 1. rewrite Hnone. cbn [mbind option_bind].
      unfold split_1. unfold fence at 1 2. rewrite cut_fresh by done.
      cbn [mbind option_bind snd]. unfold fence.
      by rewrite !(split_0_fresh tick _ body Hbody).
  - intros response_text H. unfold unfenced, split_1.
    change json_fence with (fence +:+ "json").
    by rewrite (cut_shorter fence "json" _ H), H.
Qed.

Lemma unfenced_incomplete_witness :
  unfenced ("" +:+ fence +:+ " [1, 2]") = strip " [1, 2]"
  ∧ ∀ response_text,
      cut fence response_text = None → unfenced response_text = response_text.
Proof.
  apply (unfenced_incomplete "" " [1, 2]" false).
  - reflexivity.
  - reflexivity.
  - intros _. reflexivity.
Defined.

(** ** File types *)

Lemma split_char_nonempty c s : split_char c s ≠ [].
Proof.
  destruct s as [|a s]; [done|]. cbn [split_char].
  destruct (Ascii.eqb a c); [done|]. by destruct (split_char c s).
Qed.

Lemma split_char_fresh c s : free_of c s = true → split_char c s = [s].
Proof.
  induction s as [|a s IH]; [done|]. cbn [free_of split_char]. intros H.
  apply andb_true_iff in H as [Ha H]. apply negb_true_iff in Ha.
  rewrite Ascii.eqb_sym in Ha. by rewrite Ha, IH.
Qed.

Lemma split_char_app c x y :
  split_char c (x +:+ String c y) = split_char c x ++ split_char c y.
Proof.
  induction x as [|a x IH].
  - change (EmptyString +:+ String c y) with (String c y).
    cbn [split_char]. by rewrite Ascii.eqb_refl.
  - change (String a x +:+ String c y) with (String a (x +:+ String c y)).
    cbn [split_char]. rewrite IH. destruct (Ascii.eqb a c); [done|].
    pose proof (split_char_nonempty c x). by destruct (split_char c x).
Qed.

Lemma path_name_last dir name :
  free_of "/" name = true → name ≠ EmptyString → name ≠ "." →
  path_name (dir +:+ "/" +:+ name) = name ∧ path_name name = name.
Proof.
  intros Hfree Hne Hdot. unfold path_name. split.
  - change ("/" +:+ name) with (String "/" name).
    rewrite split_char_app, (split_char_fresh _ _ Hfree), filter_app.
    rewrite (filter_cons_True _ name) by done. rewrite filter_nil.
    by rewrite last_snoc.
  - rewrite (split_char_fresh _ _ Hfree).
    by rewrite (filter_cons_True _ name) by done.
Qed.

Lemma rfind_dot_none s : free_of "." s = true → rfind_dot s = None.
Proof.
  induction s as [|a s IH]; [done|]. cbn [free_of rfind_dot]. intros H.
  apply andb_true_iff in H as [Ha H]. apply negb_true_iff in Ha.
  rewrite Ascii.eqb_sym in Ha. by rewrite IH, Ha.
Qed.

Lemma rfind_dot_last stem ext :
  free_of "." ext = true →
  rfind_dot (stem +:+ "." +:+ ext) = Some (String.length stem, "." +:+ ext).
Proof.
  intros Hext. induction stem as [|a stem IH].
  - change (EmptyString +:+ "." +:+ ext) with (String "." ext).
    cbn [rfind_dot]. by rewrite rfind_dot_none.
  - change (String a stem +:+ "." +:+ ext) with (String a (stem +:+ "." +:+ ext)).
    cbn [rfind_dot]. by rewrite IH.
Qed.

Lemma string_length_app (x y : string) :
  String.length (x +:+ y) = String.length x + String.length y.
Proof.
  induction x as [|a x IH]; [done|].
  change (String a x +:+ y) with (String a (x +:+ y)). cbn [String.length]. lia.
Qed.

Lemma string_app_assoc (x y z : string) : (x +:+ y) +:+ z = x +:+ y +:+ z.
Proof.
  induction x as [|a x IH]; [done|].
  change (String a ((x +:+ y) +:+ z) = String a (x +:+ y +:+ z)). by rewrite IH.
Qed.

Lemma free_of_app_intro c x y :
  free_of c x = true → free_of c y = true → free_of c (x +:+ y) = true.
Proof. intros Hx Hy. by rewrite free_of_app, Hx, Hy. Qed.

Lemma path_suffix_last stem ext :
  stem ≠ EmptyString → ext ≠ EmptyString →
  free_of "/" stem = true → free_of "/" ext = true → free_of "." ext = true →
  let name := stem +:+ "." +:+ ext in
  free_of "/" name = true ∧ name ≠ EmptyString ∧ name ≠ "."
  ∧ (rfind_dot name = Some (String.length stem, "." +:+ ext)
     ∧ 0 < String.length stem < String.length name - 1).
Proof.
  intros Hstem Hext Hs1 Hs2 Hd. cbn zeta.
  assert (Hlen : String.length (stem +:+ "." +:+ ext)
                 = String.length stem + S (String.length ext)).
  { rewrite string_length_app. by change ("." +:+ ext) with (String "." ext). }
  assert (0 < String.length stem) by (destruct stem; [done|cbn; lia]).
  assert (0 < String.length ext) by (destruct ext; [done|cbn; lia]).
  split; [|split; [|split; [|split]]].
  - apply free_of_app_intro; [done|].
    change ("." +:+ ext) with (String "." ext). cbn [free_of]. by rewrite Hs2.
  - intros Heq. rewrite Heq in Hlen. cbn in Hlen. lia.
  - intros Heq. rewrite Heq in Hlen. cbn in Hlen. lia.
  - by apply rfind_dot_last.
  - lia.
Qed.

Lemma lower_dot ext : lower ("." +:+ ext) = "." +:+ lower ext.
Proof. reflexivity. Qed.

(** The type of a file is read off the last extension of its name, in any
    letter case and whatever directory the path names; a name that starts
    with its only dot, or ends with a dot, has no extension and is of
    unknown type. *)
Theorem detect_file_type_by_extension (dir stem ext : string) :
  stem ≠ EmptyString → ext ≠ EmptyString →
  free_of "/" stem = true → free_of "/" ext = true → free_of "." ext = true →
  detect_file_type (dir +:+ "/" +:+ stem +:+ "." +:+ ext)
  = type_map_get ("." +:+ lower ext)
  ∧ detect_file_type (stem +:+ "." +:+ ext) = type_map_get ("." +:+ lower ext)
  ∧ detect_file_type ("." +:+ ext) = "unknown"
  ∧ detect_file_type (stem +:+ "." +:+ ext +:+ ".") = "unknown".
Proof.
  intros Hstem Hext Hs1 Hs2 Hd.
  destruct (path_suffix_last stem ext Hstem Hext Hs1 Hs2 Hd)
    as (Hfree & Hne & Hdot & Hfind & Hpos).
  destruct (path_name_last dir _ Hfree Hne Hdot) as [Hdir Hbare].
  assert (Hsuffix : ∀ path, path_name path = stem +:+ "." +:+ ext →
                            detect_file_type path = type_map_get ("." +:+ lower ext)).
  { intros path Hname. unfold detect_file_type, path_suffix.
    rewrite Hname, Hfind. by rewrite bool_decide_eq_true_2. }
  split; [by apply Hsuffix|]. split; [by apply Hsuffix|]. split.
  - unfold detect_file_type, path_suffix.
    assert (Hname : path_name ("." +:+ ext) = "." +:+ ext).
    { change ("." +:+ ext) with (String "." ext).
      apply (path_name_last EmptyString).
      - cbn [free_of]. by rewrite Hs2.
      - done.
      - intros [= ->]. done. }
    rewrite Hname. change ("." +:+ ext) with (EmptyString +:+ "." +:+ ext).
    rewrite (rfind_dot_last EmptyString ext Hd).
    by rewrite bool_decide_eq_false_2 by (cbn; lia).
  - unfold detect_file_type, path_suffix.
    assert (Hname : path_name (stem +:+ "." +:+ ext +:+ ".")
                    = stem +:+ "." +:+ ext +:+ ".").
    { apply (path_name_last EmptyString).
      - apply free_of_app_intro; [done|].
        change ("." +:+ ext +:+ ".") with (String "." (ext +:+ ".")). cbn [free_of].
        by apply free_of_app_intro.
      - destruct stem; done.
      - destruct stem as [|a [|b stem]]; [done| |done].
        change (String a "" +:+ "." +:+ ext +:+ ".")
          with (String a (String "." (ext +:+ "."))). done. }
    rewrite Hname.
    assert (Hre : stem +:+ "." +:+ ext +:+ "." = (stem +:+ "." +:+ ext) +:+ "." +:+ "").
    { by rewrite !string_app_assoc. }
    assert (Hlen : String.length (stem +:+ "." +:+ ext +:+ ".")
                   = S (String.length (stem +:+ "." +:+ ext))).
    { rewrite Hre, string_length_app.
      change (String.length ("." +:+ EmptyString)) with 1. lia. }
    rewrite Hre at 1. rewrite (rfind_dot_last _ EmptyString eq_refl).
    rewrite bool_decide_eq_false_2; [done|]. rewrite Hlen. lia.
Qed.

Lemma detect_file_type_by_extension_witness :
  detect_file_type ("docs/2025" +:+ "/" +:+ "criteria.v2" +:+ "." +:+ "PDF")
  = type_map_get ("." +:+ lower "PDF")
  ∧ detect_file_type ("criteria.v2" +:+ "." +:+ "PDF") = type_map_get ("." +:+ lower "PDF")
  ∧ detect_file_type ("." +:+ "PDF") = "unknown"
  ∧ detect_file_type ("criteria.v2" +:+ "." +:+ "PDF" +:+ ".") = "unknown".
Proof.
  apply (detect_file_type_by_extension "docs/2025" "criteria.v2" "PDF");
    (done || reflexivity).
Defined.

(** ** Extraction as three passes *)

Lemma unique_by_no_add l c :
  (if bool_decide (Exists (λ c', No c' = No c) (unique_by_no ∅ l))
   then unique_by_no ∅ l else unique_by_no ∅ l ++ [c])
  = unique_by_no ∅ (l ++ [c]).
Proof.
  rewrite unique_by_no_snoc.
  destruct (decide (No c ∈ No <$> l)) as [Hin|Hin].
  - rewrite bool_decide_eq_true_2.
    2:{ apply Exists_No, unique_by_no_elem. split; [done|apply not_elem_of_empty]. }
    rewrite bool_decide_eq_true_2 by (by right). by rewrite app_nil_r.
  - rewrite bool_decide_eq_false_2.
    2:{ rewrite Exists_No, unique_by_no_elem. tauto. }
    rewrite bool_decide_eq_false_2; [done|].
    intros [Hempty|?]; [|done]. by apply not_elem_of_empty in Hempty.
Qed.

Lemma app_scan_row_category cats row :
  App.scan_row cats row
  = match table_row_category row with
    | Some c => if bool_decide (Exists (λ c', No c' = No c) cats) then cats
                else cats ++ [c]
    | None => cats
    end.
Proof.
  unfold App.scan_row, table_row_category, row_category.
  case_bool_decide; [done|].
  destruct (nonempty (cell_text (row_cell row 0))); [|done].
  destruct (re_match_digits _) as [digits|]; [|done]. cbn [mbind option_bind].
  by destruct (nonempty (cell_text (row_cell row 1))).
Qed.

Lemma excel_row_category cats row :
  excel_row cats row
  = match sheet_row_category row with
    | Some c => if bool_decide (Exists (λ c', No c' = No c) cats) then cats
                else cats ++ [c]
    | None => cats
    end.
Proof.
  unfold excel_row, sheet_row_category, row_category.
  case_bool_decide; [done|].
  destruct (nonempty (value_text (row_value row 0))); [|done].
  destruct (re_match_digits _) as [digits|]; [|done]. cbn [mbind option_bind].
  by destruct (nonempty (value_text (row_value row 1))).
Qed.

Section FirstOfEachNumber.
Context {R : Type} (step : list Category → R → list Category)
  (category : R → option Category).
Hypothesis step_category : ∀ cats row,
  step cats row
  = match category row with
    | Some c => if bool_decide (Exists (λ c', No c' = No c) cats) then cats
                else cats ++ [c]
    | None => cats
    end.

Lemma fold_first_of_each rows l :
  fold_left step rows (unique_by_no ∅ l)
  = unique_by_no ∅ (l ++ omap category rows).
Proof.
  revert l. induction rows as [|row rows IH]; intros l; cbn [fold_left omap list_omap].
  - by rewrite app_nil_r.
  - rewrite step_category. destruct (category row) as [c|]; [|apply IH].
    rewrite unique_by_no_add, IH. by rewrite <- app_assoc.
Qed.

End FirstOfEachNumber.

Lemma fold_pages_rows (doc : Document) cats :
  fold_left (λ cats (page : Page), fold_left App.scan_table page cats) doc cats
  = fold_left App.scan_row (doc ≫= page_rows) cats.
Proof.
  revert cats. induction doc as [|page doc IH]; intros cats; [done|].
  cbn [fold_left mbind list_bind]. by rewrite fold_left_app, IH, app_scan_page_rows.
Qed.

(** The table scan of [app.py] and the worksheet path are three passes:
    read off every row the category it opens, keep for every number the
    first category that has it, and sort by number.  The rows of a document
    are those of its tables with at least two rows, in reading order. *)
Theorem extraction_keeps_first_of_each_number :
  (∀ doc : Document,
     App.extract_categories_from_pdf doc
     = sort_by No (unique_by_no ∅ (omap table_row_category (doc ≫= page_rows))))
  ∧ (∀ rows,
       extract_categories_from_excel rows
       = sort_by No (unique_by_no ∅ (omap sheet_row_category rows))).
Proof.
  split.
  - intros doc. unfold App.extract_categories_from_pdf. f_equal.
    rewrite fold_pages_rows.
    apply (fold_first_of_each App.scan_row table_row_category
             app_scan_row_category _ []).
  - intros rows. unfold extract_categories_from_excel. f_equal.
    apply (fold_first_of_each excel_row sheet_row_category excel_row_category _ []).
Qed.

(** ** Titles, written and read back *)

(** Writing a title and reading it back: on a slide with a title
    placeholder [update_slide_title] succeeds and [get_slide_title] then
    returns the new title, stripped (a title of several lines becomes as
    many paragraphs and reads back with its line breaks); without one it
    fails and the slide reads as before.  Writing the same title again
    changes nothing. *)
Theorem title_written_then_read (slide : Slide) (new_title : string) :
  let out := update_slide_title slide new_title in
  (out.2 = true ↔ is_Some (shapes_title slide))
  ∧ get_slide_title out.1
    = (if out.2 then strip new_title else get_slide_title slide)
  ∧ update_slide_title out.1 new_title = out.
Proof.
  cbn zeta.
  pose proof (update_slide_title_spec slide new_title) as Hspec.
  destruct (shapes_title slide) as [sh|] eqn:Hsh.
  - destruct Hspec as (Hok & Htext & Hidx). split; [|split].
    + split; [by eexists|done].
    + rewrite Hok. unfold get_slide_title.
      destruct (shapes_title (update_slide_title slide new_title).1) as [sh'|];
        [|done].
      cbn [fmap option_fmap option_map] in Htext. injection Htext as Htext.
      by rewrite Htext.
    + apply injective_projections.
      * apply update_slide_title_twice.
      * rewrite Hok.
        pose proof (update_slide_title_spec
                      (update_slide_title slide new_title).1 new_title) as Hagain.
        destruct (shapes_title (update_slide_title slide new_title).1); [|done].
        by destruct Hagain as [-> _].
  - rewrite Hspec. cbn [fst snd]. split; [|split].
    + split; [done|by intros [? ?]].
    + done.
    + done.
Qed.

(** ** The two programs on the same deck *)

Lemma group_slides_without_content st it :
  App.group_slide (without_content <$> st.1, without_content <$> st.2) it
  = (without_content <$> (group_slide st it).1,
     without_content <$> (group_slide st it).2).
Proof.
  destruct st as [groups cur], it as [idx slide]. cbn [fst snd].
  unfold App.group_slide, group_slide.
  destruct (nonempty (get_slide_title slide)).
  - cbn [fst snd]. f_equal. destruct cur as [g|]; [|done].
    cbn [fmap option_fmap option_map]. by rewrite fmap_app.
  - destruct cur as [g|]; [done|]. cbn [fmap option_fmap option_map fst snd].
    by destruct (nonempty (get_slide_first_text slide)).
Qed.

Lemma close_groups_without_content st :
  close_groups (without_content <$> st.1, without_content <$> st.2)
  = without_content <$> close_groups st.
Proof.
  destruct st as [groups [g|]]; unfold close_groups; cbn [fst snd]; [|done].
  cbn [fmap option_fmap option_map]. by rewrite fmap_app.
Qed.

Lemma app_slide_groups_without_content deck :
  App.slide_groups deck = without_content <$> slide_groups deck.
Proof.
  unfold App.slide_groups, slide_groups.
  rewrite <- close_groups_without_content.
  enough (H : ∀ items st,
            fold_left App.group_slide items
              (without_content <$> st.1, without_content <$> st.2)
            = (without_content <$> (fold_left group_slide items st).1,
               without_content <$> (fold_left group_slide items st).2)).
  { by rewrite <- (H _ ([], None)). }
  induction items as [|it items IH]; intros st; [done|].
  cbn [fold_left]. by rewrite group_slides_without_content, IH.
Qed.

(** The grouping loop of [app.py] builds the groups of [main.py]: the same
    titles, slides and first positions, in the same order, without the
    content that [main.py] collects for the prompt. *)
Theorem groupings_agree (deck : list Slide) :
  App.slide_groups deck = without_content <$> slide_groups deck
  ∧ title <$> App.slide_groups deck = title <$> slide_groups deck
  ∧ slides <$> App.slide_groups deck = slides <$> slide_groups deck.
Proof.
  rewrite app_slide_groups_without_content.
  split; [done|]. by rewrite <- !list_fmap_compose.
Qed.

Lemma py_index_fmap {A B} (f : A → B) (l : list A) i :
  py_index (f <$> l) i = f <$> py_index l i.
Proof.
  unfold py_index. rewrite length_fmap.
  repeat case_bool_decide; by rewrite ?list_lookup_fmap.
Qed.

Lemma resolve_category_without_content mapping groups ml used cat :
  resolve_category mapping (without_content <$> groups)
    (match_without_content <$> ml, used) cat
  = (λ st : list Match * gset Z, (match_without_content <$> st.1, st.2))
      <$> resolve_category mapping groups (ml, used) cat.
Proof.
  unfold resolve_category. rewrite length_fmap.
  destruct (mapping !! No cat) as [v|]; [|done].
  destruct (number_lt v (Z.of_nat (length groups))); [|done].
  destruct v as [i|x]; [|done]. rewrite py_index_fmap.
  destruct (py_index groups i) as [g|]; [|done].
  cbn [fmap option_fmap option_map mbind option_bind fst snd]. by rewrite fmap_app.
Qed.

Lemma resolve_fold_without_content mapping groups cats ml used :
  foldM (resolve_category mapping (without_content <$> groups))
    (match_without_content <$> ml, used) cats
  = (λ st : list Match * gset Z, (match_without_content <$> st.1, st.2))
      <$> foldM (resolve_category mapping groups) (ml, used) cats.
Proof.
  revert ml used. induction cats as [|cat cats IH]; intros ml used; [done|].
  cbn [foldM]. rewrite resolve_category_without_content.
  destruct (resolve_category mapping groups (ml, used) cat) as [[ml' used']|];
    [|done].
  cbn [fmap option_fmap option_map mbind option_bind fst snd]. apply IH.
Qed.

Lemma unused_of_fmap (f : Group → Group) groups used :
  unused_of (f <$> groups) used = f <$> unused_of groups used.
Proof.
  unfold unused_of, enumerate. rewrite length_fmap.
  generalize 0. induction groups as [|g groups IH]; intros k; [done|].
  cbn [fmap list_fmap length seq zip zip_with].
  destruct (decide (Z.of_nat k ∉ used)) as [Hk|Hk].
  - rewrite !(filter_cons_True (λ it : nat * Group, Z.of_nat it.1 ∉ used)) by done.
    cbn [fmap list_fmap snd]. f_equal. apply IH.
  - rewrite !(filter_cons_False (λ it : nat * Group, Z.of_nat it.1 ∉ used)) by done.
    apply IH.
Qed.

Lemma place_fold_without_content (ms : list Match) st :
  foldM place_group st (match_without_content <$> ms) = foldM place_group st ms.
Proof.
  revert st. induction ms as [|[[no name] g] ms IH]; intros st; [done|].
  cbn [fmap list_fmap foldM].
  assert (Hstep : place_group st (match_without_content (no, name, g))
                  = place_group st (no, name, g)) by (by destruct st).
  rewrite Hstep. destruct (place_group st (no, name, g)); [|done].
  cbn [mbind option_bind]. apply IH.
Qed.

Lemma slides_without_content (gs : list Group) :
  slides <$> (without_content <$> gs) = slides <$> gs.
Proof. by rewrite <- list_fmap_compose. Qed.

(** Reordering looks at the slides of a group only: without the contents
    it computes the same order and makes the same changes. *)
Lemma reorder_without_content cats groups mapping prs r :
  reorder cats groups mapping prs = Some r →
  reorder cats (without_content <$> groups) mapping prs
  = Some (mkReordered (out_slides r) (new_order r) (saved_sequence r)
            (match_without_content <$> matched_list r)
            (without_content <$> unused_groups r)).
Proof.
  unfold reorder. intros Hr.
  pose proof (resolve_fold_without_content mapping groups cats [] ∅) as Hres.
  cbn [fmap list_fmap] in Hres. rewrite Hres. clear Hres.
  destruct (foldM (resolve_category mapping groups) ([], ∅) cats)
    as [[ml used]|]; [|done].
  cbn [fmap option_fmap option_map mbind option_bind fst snd] in Hr |- *.
  rewrite unused_of_fmap.
  rewrite <- (sort_by_fmap match_without_content (λ m : Match, m.1.1)).
  change (λ a : Match, (match_without_content a).1.1) with (λ m : Match, m.1.1).
  rewrite place_fold_without_content.
  destruct (foldM place_group _ _) as [[prs' order]|]; [|done].
  cbn [mbind option_bind] in Hr |- *. rewrite slides_without_content.
  destruct (foldM (append_original _) _ _) as [xml|]; [|done].
  cbn [mbind option_bind] in Hr |- *. by injection Hr as <-.
Qed.

(** Placing groups of content slides commutes with a change of the
    contents slide. *)
Lemma place_fold_insert_anchor (ms : list Match) prs order prs' order' i s :
  foldM place_group (prs, order) ms = Some (prs', order') →
  (∀ m, m ∈ ms → head (slides m.2) ≠ Some i) →
  foldM place_group (<[i := s]> prs, order) ms = Some (<[i := s]> prs', order').
Proof.
  revert prs order. induction ms as [|[[no name] g] ms IH]; intros prs order Hrun Hms.
  - cbn in Hrun |- *. by simplify_eq.
  - cbn [foldM] in Hrun |- *. unfold place_group at 2 in Hrun.
    unfold place_group at 2.
    destruct (head (slides g)) as [h|] eqn:Hh; [|done].
    cbn [mbind option_bind] in Hrun |- *.
    assert (Hne : h ≠ i).
    { intros ->. apply (Hms (no, name, g)); [left|done]. }
    rewrite list_lookup_insert_ne by done.
    destruct (prs !! h) as [slide|]; [|done]. cbn [mbind option_bind] in Hrun |- *.
    rewrite list_insert_insert_ne by done.
    apply IH; [done|]. intros m Hm. apply Hms. by right.
Qed.

Lemma reorder_insert_anchor cats (prs : list Slide) groups mapping r s :
  validated mapping → FIXED_SLIDES ≤ length prs →
  partitions (length prs) groups →
  reorder cats groups (NInt <$> mapping) prs = Some r →
  reorder cats groups (NInt <$> mapping) (<[1 := s]> prs)
  = Some (mkReordered (<[1 := s]> (out_slides r)) (new_order r) (saved_sequence r)
            (matched_list r) (unused_groups r)).
Proof.
  intros Hv Hlen Hpart Hr.
  destruct (reorder_run cats prs groups mapping Hv Hlen Hpart)
    as (prs1 & xml1 & Hrun1 & _ & Hplace1 & Hxml1).
  destruct (reorder_run cats (<[1 := s]> prs) groups mapping Hv)
    as (prs2 & xml2 & Hrun2 & _ & Hplace2 & Hxml2).
  { by rewrite length_insert. }
  { by rewrite length_insert. }
  cbn zeta in *. rewrite Hr in Hrun1. injection Hrun1 as ->.
  cbn [out_slides new_order saved_sequence matched_list unused_groups].
  rewrite Hrun2. rewrite length_insert in Hxml2.
  rewrite Hxml1 in Hxml2. injection Hxml2 as <-.
  eapply place_fold_insert_anchor in Hplace1.
  - rewrite Hplace1 in Hplace2. by injection Hplace2 as <-.
  - intros m Hm Hhead.
    assert (Hg : m.2 ∈ groups).
    { apply (resolved_group_elem mapping groups cats); [done|].
      by rewrite (sort_by_perm (λ m : Match, m.1.1)) in Hm. }
    assert (Hin : 1 ∈ slides m.2).
    { destruct (slides m.2); simplify_eq/=. left. }
    pose proof (group_positions _ _ _ _ Hpart Hg Hin). unfold FIXED_SLIDES in *. lia.
Qed.

Lemma populate_toc_anchor (deck : list Slide) cats :
  1 < length deck →
  ∃ s, (App.populate_toc deck cats 1).1 = <[1 := s]> (populate_toc deck cats 1).1.
Proof.
  intros Hlen.
  destruct (lookup_lt_is_Some_2 deck 1 Hlen) as [d1 Hd1].
  destruct (populate_toc_deck deck cats 1) as [->|[a ->]],
    (app_populate_toc_deck deck cats 1) as [->|[b ->]].
  - exists d1. by rewrite list_insert_id.
  - by exists b.
  - exists d1. by rewrite list_insert_insert_eq, list_insert_id.
  - exists b. by rewrite list_insert_insert_eq.
Qed.

Lemma usable_no_float_integer members :
  usable_response (Some (JObj members)) = true → no_float members = true →
  integer_response (Some (JObj members)) = true.
Proof.
  unfold usable_response, no_float, integer_response.
  rewrite !forallb_forall. intros Hu Hn item Hin.
  specialize (Hu item Hin). specialize (Hn item Hin).
  apply andb_true_iff in Hu as [Hk [v Hv]%bool_decide_eq_true].
  rewrite Hk. cbn [andb]. apply bool_decide_eq_true. unfold json_int.
  destruct item.2; simplify_eq/=; by eexists.
Qed.

(** From the same answer without [float]s both programs compute the same
    order: whenever [main.py] saves a deck, [app.py] returns one with the
    same computed and saved slide sequence, the same matches and unused
    groups (up to the content that only [main.py] records) and the same
    slides, the contents slide apart, which each program fills in its own
    way. *)
Theorem programs_compute_same_order (members : list (string * json))
    (cats : list Category) (deck : list Slide) (r : Reordered) :
  no_float members = true →
  process_pptx (answers members) cats deck = Saved r →
  ∃ r', App.process_pptx (answers members) cats deck = Some r'
        ∧ new_order r' = new_order r
        ∧ saved_sequence r' = saved_sequence r
        ∧ matched_list r' = match_without_content <$> matched_list r
        ∧ unused_groups r' = without_content <$> unused_groups r
        ∧ ∀ i, i ≠ 1 → out_slides r' !! i = out_slides r !! i.
Proof.
  intros Hnofloat Hsaved.
  apply process_pptx_saved in Hsaved as (Hlen & Hne & _ & Hrun).
  assert (Husable : usable_response (Some (JObj members)) = true).
  { destruct (usable_response (Some (JObj members))) eqn:Hu; [done|].
    exfalso. apply Hne. by apply create_matching_unusable. }
  destruct (integer_members_agree members) as (mapping & Happ & Hmain).
  { by apply (usable_no_float_integer members). }
  assert (Hmap : create_matching_with_ai (answers members) cats (slide_groups deck)
                 = NInt <$> mapping) by exact Hmain.
  rewrite Hmap, ints_fmap in Hrun.
  assert (Hv : validated mapping).
  { rewrite <- (ints_fmap mapping), <- Hmap. apply create_matching_validated. }
  destruct (populate_toc_anchor deck cats) as [s Hs]; [unfold FIXED_SLIDES in *; lia|].
  eapply reorder_insert_anchor in Hrun; [|done|..].
  2:{ rewrite populate_toc_length. lia. }
  2:{ rewrite populate_toc_length. apply slide_groups_partitions. }
  apply reorder_without_content in Hrun.
  cbn [out_slides new_order saved_sequence matched_list unused_groups] in Hrun.
  eexists. split.
  - unfold App.process_pptx. rewrite bool_decide_eq_false_2 by lia.
    rewrite app_slide_groups_populate_toc.
    assert (Hmap' : App.create_matching_with_ai (answers members) cats
                      (App.slide_groups deck) = Some mapping) by exact Happ.
    rewrite Hmap'. cbn [mbind option_bind].
    rewrite app_slide_groups_without_content, Hs. exact Hrun.
  - cbn [out_slides new_order saved_sequence matched_list unused_groups].
    repeat split; try done. intros i Hi. by rewrite list_lookup_insert_ne.
Qed.

Lemma programs_compute_same_order_witness :
  ∃ r', App.process_pptx (answers [("1", JInt 0); ("2", JInt 0)]) two_cats deck4
        = Some r'
        ∧ new_order r' = new_order same_target_run
        ∧ saved_sequence r' = saved_sequence same_target_run
        ∧ matched_list r' = match_without_content <$> matched_list same_target_run
        ∧ unused_groups r' = without_content <$> unused_groups same_target_run
        ∧ ∀ i, i ≠ 1 → out_slides r' !! i = out_slides same_target_run !! i.
Proof.
  apply (programs_compute_same_order [("1", JInt 0); ("2", JInt 0)] two_cats deck4
           same_target_run).
  - reflexivity.
  - vm_compute. reflexivity.
Defined.

(** With a [float] in the answer the two programs part: [main.py] drops
    [-0.5], which [app.py] truncates to the index [0], and [main.py] drops
    a NaN, at which [int()] raises in [app.py]. *)
Example programs_differ_on_floats :
  (∃ r r', process_pptx (answers [("1", JInt 1); ("2", JFloat (FFinite (-1) (-1)))])
             two_cats deck6 = Saved r
           ∧ App.process_pptx
               (answers [("1", JInt 1); ("2", JFloat (FFinite (-1) (-1)))])
               two_cats deck6 = Some r'
           ∧ matched_count r = 1 ∧ matched_count r' = 2)
  ∧ (∃ r, process_pptx (answers [("1", JInt 1); ("2", JFloat FNan)])
            two_cats deck6 = Saved r)
  ∧ App.process_pptx (answers [("1", JInt 1); ("2", JFloat FNan)]) two_cats deck6
    = None.
Proof.
  split; [|split].
  - eexists _, _. split; [vm_compute; reflexivity|].
    split; [vm_compute; reflexivity|]. split; reflexivity.
  - eexists. vm_compute. reflexivity.
  - vm_compute. reflexivity.
Qed.
